(** * Tile downloader: a shallow embedding of [tile_downloader.py]

    The development follows the Python class [TileDownloader]:
    - [__init__], which makes the output directory;
    - [lat_lon_to_tile], the slippy-map coordinate mapper;
    - [download_tile], the per-tile worker;
    - [download_area], which enumerates the covering tiles, asks for a
      confirmation on large jobs, runs the workers on a thread pool and
      aggregates their results;
    and the function [main], the menu of the command line.

    Modelling conventions.
    - Python [float]s are idealised: latitudes, longitudes and the Mercator
      arithmetic are real numbers ([R], no rounding and no overflow); the
      request delay, which is only compared with zero, is a rational ([Q]).
    - Python [int]s are [Z]; [str] and [bytes] are [string] (UTF-8 bytes).
    - A [pathlib.Path] is the list of its components, relative to the
      working directory [[]].
    - The outside world is explicit: the filesystem, the tile providers'
      answers, the console input, and a trace of the operations the workers
      perform.  Console output is not part of the state; the lines printed
      by the loop of [download_area] are given by a function of their own.
    - A worker is a finite tree of atomic operations; the thread pool
      interleaves the workers' operations in an order chosen by a scheduler
      oracle, so that a statement quantified over the oracle holds for every
      interleaving. *)

From stdpp Require Import gmap strings pretty list.
From Stdlib Require Import Ascii QArith Reals Lra Machin.
Close Scope Q_scope.
Close Scope R_scope.
Local Open Scope string_scope.
Local Open Scope list_scope.
Local Open Scope Z_scope.

(** ** Python built-ins used by the program *)

(** [range(a, b)] *)
Definition range (a b : Z) : list Z := seqZ a (b - a).

(** [int(r)] on a float: truncation toward zero. *)
Definition python_int (r : R) : Z :=
  if Rle_dec 0 r then Int_part r else - Int_part (- r).

(** [math.radians] *)
Definition radians (deg : R) : R := (deg * (PI / 180))%R.

(** [needle in haystack] on strings. *)
Fixpoint contains (needle hay : string) : bool :=
  String.prefix needle hay ||
  match hay with
  | "" => false
  | String _ hay' => contains needle hay'
  end.

(** [str.lower], for ASCII letters and the Russian alphabet (two-byte UTF-8
    sequences [D0 90]..[D0 AF] and [D0 81]); other characters are kept. *)
Fixpoint lower (s : string) : string :=
  match s with
  | "" => ""
  | String c s' =>
      let n := N_of_ascii c in
      if ((65 <=? n) && (n <=? 90))%N then String (ascii_of_N (n + 32)) (lower s')
      else if (n =? 208)%N then
        match s' with
        | "" => String c ""
        | String c2 s'' =>
            let m := N_of_ascii c2 in
            if ((144 <=? m) && (m <=? 159))%N
            then String c (String (ascii_of_N (m + 32)) (lower s''))
            else if ((160 <=? m) && (m <=? 175))%N
            then String (ascii_of_N 209) (String (ascii_of_N (m - 32)) (lower s''))
            else if (m =? 129)%N
            then String (ascii_of_N 209) (String (ascii_of_N 145) (lower s''))
            else String c (String c2 (lower s''))
        end
      else String c (lower s')
  end.

(** A [str] given by its UTF-8 bytes. *)
Definition bytes (l : list N) : string :=
  foldr (λ n s, String (ascii_of_N n) s) "" l.

(** The characters [str.strip()] removes: the Unicode white space, U+0009
    to U+000D, U+001C to U+0020, U+0085, U+00A0, U+1680, U+2000 to U+200A,
    U+2028, U+2029, U+202F, U+205F and U+3000. *)
Definition whitespace : list string :=
  bytes <$> [[9]; [10]; [11]; [12]; [13]; [28]; [29]; [30]; [31]; [32];
             [194; 133]; [194; 160]; [225; 154; 128];
             [226; 128; 128]; [226; 128; 129]; [226; 128; 130]; [226; 128; 131];
             [226; 128; 132]; [226; 128; 133]; [226; 128; 134]; [226; 128; 135];
             [226; 128; 136]; [226; 128; 137]; [226; 128; 138];
             [226; 128; 168]; [226; 128; 169]; [226; 128; 175];
             [226; 129; 159]; [227; 128; 128]]%N.

(** [s] without its prefix [c], if it starts with [c]. *)
Fixpoint strip_prefix (c s : string) : option string :=
  match c, s with
  | "", _ => Some s
  | String a c', String b s' => if decide (a = b) then strip_prefix c' s' else None
  | String _ _, "" => None
  end.

(** [s] without its first character, if this is one of [ws]. *)
Definition skip_space (ws : list string) (s : string) : option string :=
  head (omap (λ c, strip_prefix c s) ws).

Fixpoint lstrip_go (fuel : nat) (ws : list string) (s : string) : string :=
  match fuel with
  | O => s
  | S fuel' =>
      match skip_space ws s with
      | Some s' => lstrip_go fuel' ws s'
      | None => s
      end
  end.

(** [str.lstrip()], [str.rstrip()] and [str.strip()] *)
Definition lstrip (s : string) : string := lstrip_go (String.length s) whitespace s.
Definition rstrip (s : string) : string :=
  String.rev (lstrip_go (String.length s) (String.rev <$> whitespace) (String.rev s)).
Definition strip (s : string) : string := rstrip (lstrip s).

(** [template.format(z=..., x=..., y=...)] for templates whose replacement fields are
    plain names: [field] holds the name being read after an opening brace.
    [None] stands for the [KeyError]/[ValueError] of a missing field or a
    stray brace. *)
Fixpoint format_go (kwargs : string → option string) (template : string)
    (field : option string) : option string :=
  match template with
  | "" => match field with None => Some "" | Some _ => None end
  | String c rest =>
      match field with
      | None =>
          if decide (c = "{"%char) then format_go kwargs rest (Some "")
          else if decide (c = "}"%char) then None
          else String c <$> format_go kwargs rest None
      | Some name =>
          if decide (c = "}"%char)
          then v ← kwargs name; (String.app v) <$> format_go kwargs rest None
          else format_go kwargs rest (Some (name +:+ String c ""))
      end
  end.

Definition format (template : string) (kwargs : string → option string) : option string :=
  format_go kwargs template None.

(** ** The outside world *)

Abbreviation path := (list string).

(** [Path.parent] *)
Definition parent (p : path) : path := removelast p.

Inductive node :=
| Dir
| File (content : string).

(** Exceptions that can escape the program. [requests.RequestException] is
    not among them: [download_tile] catches it. *)
Inductive exn :=
| KeyError (key : string)
| ValueError (msg : string)
| OSError (p : path)
| EOFError.

(** What [session.get(url, timeout=10)] followed by [raise_for_status()]
    gives: the body, or a [requests.RequestException] (timeout, connection
    failure, error status) with its text. *)
Inductive reply :=
| Content (body : string)
| Raised (e : string).

(** Operations of a worker, as they appear in the trace. *)
Inductive op :=
| OMkdir (p : path)
| OExists (p : path)
| OSleep (d : Q)
| OGet (url : string)
| OWrite (p : path) (content : string).

Record world := World {
  w_fs : gmap path node;          (* the disk *)
  w_net : string → reply;         (* the tile providers *)
  w_stdin : list string;          (* lines waiting on the console *)
  w_trace : list (nat * op);      (* operations performed, with the worker that did each *)
}.

Definition set_fs (fs : gmap path node) (w : world) : world :=
  World fs (w_net w) (w_stdin w) (w_trace w).
Definition set_stdin (l : list string) (w : world) : world :=
  World (w_fs w) (w_net w) l (w_trace w).
Definition log (who : nat) (o : op) (w : world) : world :=
  World (w_fs w) (w_net w) (w_stdin w) (w_trace w ++ [(who, o)]).

(** [p.mkdir(parents=True, exist_ok=True)]: the missing ancestors are created
    from the top; a regular file in the way is an [OSError]. *)
Fixpoint mkdir_from (base rest : path) (fs : gmap path node) : exn + gmap path node :=
  match rest with
  | [] => inr fs
  | c :: rest' =>
      let q := base ++ [c] in
      match fs !! q with
      | Some Dir => mkdir_from q rest' fs
      | Some (File _) => inl (OSError q)
      | None => mkdir_from q rest' (<[q := Dir]> fs)
      end
  end.

Definition mkdir_parents (p : path) (fs : gmap path node) : exn + gmap path node :=
  mkdir_from [] p fs.

Definition is_dir (fs : gmap path node) (p : path) : bool :=
  match p with
  | [] => true
  | _ => match fs !! p with Some Dir => true | _ => false end
  end.

(** [p.exists()] *)
Definition path_exists (fs : gmap path node) (p : path) : bool :=
  match fs !! p with Some _ => true | None => false end.

(** [open(p, 'wb')] and [f.write(content)] *)
Definition write_file (p : path) (content : string) (fs : gmap path node)
    : exn + gmap path node :=
  match fs !! p with
  | Some Dir => inl (OSError p)
  | _ => if is_dir fs (parent p) then inr (<[p := File content]> fs) else inl (OSError p)
  end.

(** [p.mkdir(exist_ok=True)]: only the last component is created; a missing
    parent, or a regular file at [p] or in place of the parent, is an
    [OSError]. *)
Definition mkdir_exist_ok (p : path) (fs : gmap path node) : exn + gmap path node :=
  match p with
  | [] => inr fs
  | _ =>
      match fs !! p with
      | Some Dir => inr fs
      | Some (File _) => inl (OSError p)
      | None => if is_dir fs (parent p) then inr (<[p := Dir]> fs) else inl (OSError p)
      end
  end.

(** Programs of the main thread: they change the world and end with a value
    or an exception. *)
Definition io (A : Type) : Type := world → (exn + A) * world.

Definition io_ret {A : Type} (a : A) : io A := λ w, (inr a, w).

Definition io_bind {A B : Type} (m : io A) (k : A → io B) : io B :=
  λ w, match m w with
       | (inl e, w') => (inl e, w')
       | (inr a, w') => k a w'
       end.

Notation "x ⇐ m ; k" := (io_bind m (λ x, k))
  (at level 20, m at level 100, k at level 200, only parsing).

(** ** Worker programs *)

Inductive action : Type → Type :=
| Mkdir (p : path) : action unit
| PathExists (p : path) : action bool
| Sleep (d : Q) : action unit
| Get (url : string) : action reply
| WriteFile (p : path) (content : string) : action unit.

Inductive prog (A : Type) : Type :=
| Ret (a : A)
| Throw (e : exn)
| Do {X : Type} (a : action X) (k : X → prog A).
Arguments Ret {A} a.
Arguments Throw {A} e.
Arguments Do {A X} a k.

Notation "'perform' a 'as' x ';' k" := (Do a (λ x, k))
  (at level 10, a at level 200, x binder, k at level 200, only parsing).

(** One atomic operation of worker [who]. *)
Definition exec {X : Type} (who : nat) (a : action X) (w : world) : (exn + X) * world :=
  match a in action X return (exn + X) * world with
  | Mkdir p =>
      let w := log who (OMkdir p) w in
      match mkdir_parents p (w_fs w) with
      | inl e => (inl e, w)
      | inr fs => (inr (), set_fs fs w)
      end
  | PathExists p => (inr (path_exists (w_fs w) p), log who (OExists p) w)
  | Sleep d =>
      let w := log who (OSleep d) w in
      if Qle_bool 0 d then (inr (), w)
      else (inl (ValueError "sleep length must be non-negative"), w)
  | Get url => (inr (w_net w url), log who (OGet url) w)
  | WriteFile p content =>
      let w := log who (OWrite p content) w in
      match write_file p content (w_fs w) with
      | inl e => (inl e, w)
      | inr fs => (inr (), set_fs fs w)
      end
  end.

(** A worker run from start to end without interruption. *)
Fixpoint run {A : Type} (who : nat) (p : prog A) (w : world) : (exn + A) * world :=
  match p with
  | Ret a => (inr a, w)
  | Throw e => (inl e, w)
  | Do a k =>
      match exec who a w with
      | (inl e, w') => (inl e, w')
      | (inr v, w') => run who (k v) w'
      end
  end.

(** ** The class [TileDownloader] *)

Module TileDownloader.

(** The class attribute [TILE_SOURCES], a [dict]. *)
Definition TILE_SOURCES : gmap string string :=
  <["terrain" := "https://tile.opentopomap.org/{z}/{x}/{y}.png"]>
  (<["satellite" := "https://server.arcgisonline.com/ArcGIS/rest/services/World_Imagery/MapServer/tile/{z}/{y}/{x}"]>
  (<["osm" := "https://tile.openstreetmap.org/{z}/{x}/{y}.png"]> ∅)).

(** [__init__(self, output_dir)]: the object is known by its output
    directory; its session only carries the [User-Agent] header. *)
Definition __init__ (output_dir : path) : io path :=
  λ w, match mkdir_exist_ok output_dir (w_fs w) with
       | inl e => (inl e, w)
       | inr fs => (inr output_dir, set_fs fs w)
       end.

(** [lat_lon_to_tile(self, lat, lon, zoom)] *)
Definition lat_lon_to_tile (lat lon : R) (zoom : Z) : Z * Z :=
  let lat_rad := radians lat in
  let n := powerRZ 2 zoom in
  let x := python_int ((lon + 180) / 360 * n)%R in
  let y := python_int ((1 - arcsinh (tan lat_rad) / PI) / 2 * n)%R in
  (x, y).

(** The two Mercator values before rounding, and the mapper as the
    specification words it: their floors. *)
Definition mercator_x (lon : R) (zoom : Z) : R :=
  ((lon + 180) / 360 * powerRZ 2 zoom)%R.
Definition mercator_y (lat : R) (zoom : Z) : R :=
  ((1 - arcsinh (tan (radians lat)) / PI) / 2 * powerRZ 2 zoom)%R.

(** The locals of [download_tile], as functions of its arguments. *)
Definition tile_dir (output_dir : path) (source_type : string) (z x : Z) : path :=
  output_dir ++ [source_type; pretty z; pretty x].

Definition tile_ext (source_type : string) : string :=
  if decide (source_type = "satellite") then ".jpg" else ".png".

Definition tile_path (output_dir : path) (source_type : string) (z x y : Z) : path :=
  tile_dir output_dir source_type z x ++ [pretty y +:+ tile_ext source_type].

Definition zxy (z x y : Z) (name : string) : option string :=
  if decide (name = "z") then Some (pretty z)
  else if decide (name = "x") then Some (pretty x)
  else if decide (name = "y") then Some (pretty y)
  else None.

Definition tile_name (source_type : string) (z x y : Z) : string :=
  source_type +:+ "/" +:+ pretty z +:+ "/" +:+ pretty x +:+ "/" +:+ pretty y.

(** What [download_tile] returns: [(success, message)]. *)
Abbreviation result := (bool * string)%type.

(** [download_tile(self, source_type, z, x, y, delay)] *)
Definition download_tile (output_dir : path) (source_type : string) (z x y : Z) (delay : Q)
    : prog result :=
  let tile_dir := tile_dir output_dir source_type z x in
  perform Mkdir tile_dir as _;
  let tile_path := tile_path output_dir source_type z x y in
  perform PathExists tile_path as present;
  if present : bool
  then Ret (true, "Пропущен (уже существует): " +:+ tile_name source_type z x y)
  else
    match TILE_SOURCES !! source_type with
    | None => Throw (KeyError source_type)
    | Some template =>
        match format template (zxy z x y) with
        | None => Throw (ValueError template)
        | Some url =>
            perform Sleep delay as _;
            perform Get url as response;
            match response with
            | Content body =>
                perform WriteFile tile_path body as _;
                Ret (true, "Загружен: " +:+ tile_name source_type z x y)
            | Raised e =>
                Ret (false, "Ошибка при загрузке " +:+ tile_name source_type z x y
                            +:+ ": " +:+ e)
            end
        end
    end.

(** The points at which a worker can be preempted: what is left of
    [download_tile] after each of its operations. *)
Definition after_get (output_dir : path) (source_type : string) (z x y : Z)
    (response : reply) : prog result :=
  match response with
  | Content body =>
      perform WriteFile (tile_path output_dir source_type z x y) body as _;
      Ret (true, "Загружен: " +:+ tile_name source_type z x y)
  | Raised e =>
      Ret (false, "Ошибка при загрузке " +:+ tile_name source_type z x y +:+ ": " +:+ e)
  end.

Definition after_sleep (output_dir : path) (source_type : string) (z x y : Z)
    (url : string) : prog result :=
  Do (Get url) (after_get output_dir source_type z x y).

Definition after_probe (output_dir : path) (source_type : string) (z x y : Z) (delay : Q)
    (present : bool) : prog result :=
  if present
  then Ret (true, "Пропущен (уже существует): " +:+ tile_name source_type z x y)
  else
    match TILE_SOURCES !! source_type with
    | None => Throw (KeyError source_type)
    | Some template =>
        match format template (zxy z x y) with
        | None => Throw (ValueError template)
        | Some url =>
            Do (Sleep delay) (λ _, after_sleep output_dir source_type z x y url)
        end
    end.

Definition after_mkdir (output_dir : path) (source_type : string) (z x y : Z) (delay : Q)
    : prog result :=
  Do (PathExists (tile_path output_dir source_type z x y))
     (after_probe output_dir source_type z x y delay).

(** *** The thread pool *)

(** The tuple [(source_type, zoom, x, y, delay)]. *)
Abbreviation task := (string * Z * Z * Z * Q)%type.

Definition dir_of (output_dir : path) (t : task) : path :=
  let '(source_type, zoom, x, _, _) := t in tile_dir output_dir source_type zoom x.
Definition path_of (output_dir : path) (t : task) : path :=
  let '(source_type, zoom, x, y, _) := t in tile_path output_dir source_type zoom x y.

(** [executor.submit(self.download_tile, ...)] on the fields of a task *)
Definition submit (output_dir : path) (t : task) : prog result :=
  let '(source_type, zoom, x, y, delay) := t in
  download_tile output_dir source_type zoom x y delay.

Inductive future :=
| Pending
| Running (p : prog result)
| Finished (r : exn + result).

Record pool := Pool {
  p_world : world;
  p_futures : list future;
  p_completed : list nat;         (* indices of the futures, in completion order *)
}.

Definition settle (p : prog result) : future :=
  match p with
  | Ret a => Finished (inr a)
  | Throw e => Finished (inl e)
  | Do _ _ => Running p
  end.

Definition is_pending (f : future) : bool :=
  match f with Pending => true | _ => false end.
Definition is_running (f : future) : bool :=
  match f with Running _ => true | _ => false end.
Definition is_finished (f : future) : bool :=
  match f with Finished _ => true | _ => false end.

(** Future [i] becomes [f] in world [w]; a finished future joins the
    completion order. *)
Definition update (i : nat) (f : future) (w : world) (st : pool) : pool :=
  Pool w (<[i := f]> (p_futures st))
       (if is_finished f then p_completed st ++ [i] else p_completed st).

(** A queued call starts when the calls submitted before it have started and
    a worker thread is free. *)
Definition may_start (max_workers : Z) (fs : list future) (i : nat) : bool :=
  forallb (λ f, negb (is_pending f)) (take i fs)
  && (Z.of_nat (length (filter (λ f, is_running f = true) fs)) <? max_workers).

Definition runnable (max_workers : Z) (fs : list future) (i : nat) : bool :=
  match fs !! i with
  | Some Pending => may_start max_workers fs i
  | Some (Running _) => true
  | _ => false
  end.

(** Worker [i] moves by one step: a queued call starts, a running call
    performs its next atomic operation. *)
Definition advance (output_dir : path) (tasks : list task) (st : pool) (i : nat) : pool :=
  match p_futures st !! i with
  | Some Pending =>
      match tasks !! i with
      | Some t => update i (settle (submit output_dir t)) (p_world st) st
      | None => st
      end
  | Some (Running (Do a k)) =>
      match exec i a (p_world st) with
      | (inl e, w) => update i (Finished (inl e)) w st
      | (inr v, w) => update i (settle (k v)) w st
      end
  | _ => st
  end.

(** The scheduler offers the processor to worker [i]. *)
Definition pool_step (output_dir : path) (max_workers : Z) (tasks : list task)
    (st : pool) (i : nat) : pool :=
  if runnable max_workers (p_futures st) i then advance output_dir tasks st i else st.

(** Leaving the [with] block waits for every call: what the scheduler left
    unfinished runs to its end. *)
Definition finish_one (output_dir : path) (tasks : list task) (st : pool) (i : nat) : pool :=
  match p_futures st !! i with
  | Some Pending =>
      match tasks !! i with
      | Some t =>
          let '(r, w) := run i (submit output_dir t) (p_world st) in
          update i (Finished r) w st
      | None => st
      end
  | Some (Running p) =>
      let '(r, w) := run i p (p_world st) in update i (Finished r) w st
  | _ => st
  end.

Definition run_pool (output_dir : path) (max_workers : Z) (tasks : list task)
    (sched : list nat) (w : world) : pool :=
  let st0 := Pool w (replicate (length tasks) Pending) [] in
  let st1 := foldl (pool_step output_dir max_workers tasks) st0 sched in
  foldl (finish_one output_dir tasks) st1 (seq 0 (length tasks)).

(** [future.result()] for the futures in completion order. *)
Definition results (st : pool) : list (exn + result) :=
  omap (λ i, match p_futures st !! i with Some (Finished r) => Some r | _ => None end)
       (p_completed st).

(** *** Aggregation *)

Record counters := Counters { downloaded : Z; failed : Z; skipped : Z }.

(** The body of the [for future in as_completed(futures)] loop. *)
Definition count_result (c : counters) (r : exn + result) : exn + counters :=
  match r with
  | inl e => inl e
  | inr (success, message) =>
      if success : bool then
        if contains "Пропущен" message
        then inr (Counters (downloaded c) (failed c) (skipped c + 1))
        else inr (Counters (downloaded c + 1) (failed c) (skipped c))
      else inr (Counters (downloaded c) (failed c + 1) (skipped c))
  end.

Fixpoint aggregate (c : counters) (rs : list (exn + result)) : exn + counters :=
  match rs with
  | [] => inr c
  | r :: rs' =>
      match count_result c r with
      | inl e => inl e
      | inr c' => aggregate c' rs'
      end
  end.

(** *** What the loop prints *)

Inductive printed :=
| Failure (message : string)                         (* the line of a failed tile *)
| Progress (progress total_tiles : Z) (c : counters). (* the progress line *)

(** [if progress % 10 == 0 or progress == total_tiles: print(...)] *)
Definition report (total_tiles : Z) (c : counters) : list printed :=
  let progress := downloaded c + failed c + skipped c in
  if (progress mod 10 =? 0) || (progress =? total_tiles)
  then [Progress progress total_tiles c] else [].

Definition complaint (r : exn + result) : list printed :=
  match r with
  | inr (false, message) => [Failure message]
  | _ => []
  end.

(** The loop over the completed futures again, with the lines it prints. *)
Fixpoint aggregate_printing (total_tiles : Z) (c : counters) (rs : list (exn + result))
    : (exn + counters) * list printed :=
  match rs with
  | [] => (inr c, [])
  | r :: rs' =>
      match count_result c r with
      | inl e => (inl e, [])
      | inr c' =>
          let '(ending, lines) := aggregate_printing total_tiles c' rs' in
          (ending, complaint r ++ report total_tiles c' ++ lines)
      end
  end.

(** *** [download_area] *)

(** The three nested [for] loops, with their two accumulators. *)
Definition enumerate (lat_min lon_min lat_max lon_max : R) (zoom_min zoom_max : Z)
    (source_type : string) (delay : Q) : list task * Z :=
  foldl (λ acc zoom,
    let '(x_min, y_max) := lat_lon_to_tile lat_min lon_min zoom in
    let '(x_max, y_min) := lat_lon_to_tile lat_max lon_max zoom in
    foldl (λ acc x,
      foldl (λ '(tasks, total_tiles) y,
               (tasks ++ [(source_type, zoom, x, y, delay)], total_tiles + 1))
            acc (range y_min (y_max + 1)))
      acc (range x_min (x_max + 1)))
    ([], 0) (range zoom_min (zoom_max + 1)).

(** [response.lower() in ['yes', 'y', 'да', 'д']] *)
Definition confirms (response : string) : bool :=
  bool_decide (lower response ∈ ["yes"; "y"; "да"; "д"]).

(** [input(...)] *)
Definition input (w : world) : (exn + string) * world :=
  match w_stdin w with
  | [] => (inl EOFError, w)
  | line :: rest => (inr line, set_stdin rest w)
  end.

(** [download_area(self, lat_min, lon_min, lat_max, lon_max, zoom_min,
    zoom_max, source_type, max_workers, delay)]; [sched] is the scheduler's
    oracle. The result is [Some] counters when the summary is printed and
    [None] when the download is cancelled at the prompt. *)
Definition download_area (output_dir : path) (sched : list nat)
    (lat_min lon_min lat_max lon_max : R) (zoom_min zoom_max : Z)
    (source_type : string) (max_workers : Z) (delay : Q) (w : world)
    : (exn + option counters) * world :=
  let '(tasks, total_tiles) :=
    enumerate lat_min lon_min lat_max lon_max zoom_min zoom_max source_type delay in
  let proceed (w : world) : (exn + option counters) * world :=
    if max_workers <=? 0
    then (inl (ValueError "max_workers must be greater than 0"), w)
    else
      let st := run_pool output_dir max_workers tasks sched w in
      match aggregate (Counters 0 0 0) (results st) with
      | inl e => (inl e, p_world st)
      | inr c => (inr (Some c), p_world st)
      end in
  if 1000 <? total_tiles then
    match input w with
    | (inl e, w) => (inl e, w)
    | (inr response, w) =>
        if confirms response then proceed w else (inr None, w)
    end
  else proceed w.

(** ** Vocabulary of the statements *)

(** The URL [download_tile] requests, when the source is known. *)
Definition tile_url (source_type : string) (z x y : Z) : option string :=
  template ← TILE_SOURCES !! source_type; format template (zxy z x y).

(** Every ancestor of [dir], and [dir] itself, is a directory. *)
Definition made (fs : gmap path node) (dir : path) : Prop :=
  ∀ q, q ≠ [] → q `prefix_of` dir → fs !! q = Some Dir.

(** No regular file stands in the way of creating [dir]. *)
Definition unblocked (fs : gmap path node) (dir : path) : Prop :=
  ∀ q c, q ≠ [] → q `prefix_of` dir → fs !! q ≠ Some (File c).

(** [fs'] is [fs] with some missing ancestors of [dir] created and possibly a
    new file at [p]. *)
Definition grows (fs fs' : gmap path node) (dir p : path) : Prop :=
  ∀ q, fs' !! q = fs !! q ∨
       (fs !! q = None ∧
        ((q ≠ [] ∧ q `prefix_of` dir ∧ fs' !! q = Some Dir) ∨
         (q = p ∧ ∃ body, fs' !! q = Some (File body)))).

(** The covering tiles as the specification words them: for each zoom, the
    full grid between the two mapped corners. *)
Definition covering (lat_min lon_min lat_max lon_max : R) (zoom_min zoom_max : Z)
    (source_type : string) (delay : Q) : list task :=
  zoom ← range zoom_min (zoom_max + 1);
  x ← range (lat_lon_to_tile lat_min lon_min zoom).1
            ((lat_lon_to_tile lat_max lon_max zoom).1 + 1);
  y ← range (lat_lon_to_tile lat_max lon_max zoom).2
            ((lat_lon_to_tile lat_min lon_min zoom).2 + 1);
  [(source_type, zoom, x, y, delay)].

(** *** A worker seen from the initial disk

    The statements about the pool describe every worker by what it does
    when it runs alone from the initial disk [fs0] against the providers
    [net]. *)

Definition skipped_result (s : string) (z x y : Z) : result :=
  (true, "Пропущен (уже существует): " +:+ tile_name s z x y).
Definition downloaded_result (s : string) (z x y : Z) : result :=
  (true, "Загружен: " +:+ tile_name s z x y).
Definition failed_result (s : string) (z x y : Z) (e : string) : result :=
  (false, "Ошибка при загрузке " +:+ tile_name s z x y +:+ ": " +:+ e).

(** The exception of [TILE_SOURCES[source_type].format(...)]. *)
Definition lookup_error (s : string) : exn :=
  match TILE_SOURCES !! s with
  | None => KeyError s
  | Some template => ValueError template
  end.

(** The result of the call. *)
Definition outcome (fs0 : gmap path node) (net : string → reply) (out : path) (t : task)
    : exn + result :=
  let '(s, z, x, y, d) := t in
  if path_exists fs0 (tile_path out s z x y) then inr (skipped_result s z x y)
  else
    match tile_url s z x y with
    | None => inl (lookup_error s)
    | Some url =>
        if Qle_bool 0 d then
          match net url with
          | Content _ => inr (downloaded_result s z x y)
          | Raised e => inr (failed_result s z x y e)
          end
        else inl (ValueError "sleep length must be non-negative")
    end.

(** The body it writes to its tile path, if it writes. *)
Definition written (fs0 : gmap path node) (net : string → reply) (out : path) (t : task)
    : option string :=
  let '(s, z, x, y, d) := t in
  if path_exists fs0 (tile_path out s z x y) then None
  else
    match tile_url s z x y with
    | None => None
    | Some url =>
        if Qle_bool 0 d then
          match net url with
          | Content body => Some body
          | Raised _ => None
          end
        else None
    end.

(** The operations it performs, in order. *)
Definition solo_trace (fs0 : gmap path node) (net : string → reply) (out : path) (t : task)
    : list op :=
  let '(s, z, x, y, d) := t in
  let tile_path := tile_path out s z x y in
  [OMkdir (tile_dir out s z x); OExists tile_path] ++
  if path_exists fs0 tile_path then []
  else
    match tile_url s z x y with
    | None => []
    | Some url =>
        OSleep d ::
        if Qle_bool 0 d then
          OGet url ::
          match net url with
          | Content body => [OWrite tile_path body]
          | Raised _ => []
          end
        else []
    end.

(** The operations of worker [i] in a trace. *)
Definition ops_of (i : nat) (tr : list (nat * op)) : list op :=
  (filter (λ e, e.1 = i) tr).*2.

(** Where a worker stands. *)
Inductive stage :=
| Queued
| Started
| Made
| Probed (url : string)
| Slept (url : string)
| Got (url body : string)
| Done (r : exn + result).

Definition future_of (out : path) (t : task) (σ : stage) : future :=
  let '(s, z, x, y, d) := t in
  match σ with
  | Queued => Pending
  | Started => Running (download_tile out s z x y d)
  | Made => Running (after_mkdir out s z x y d)
  | Probed url => Running (Do (Sleep d) (λ _, after_sleep out s z x y url))
  | Slept url => Running (after_sleep out s z x y url)
  | Got url body => Running (after_get out s z x y (Content body))
  | Done r => Finished r
  end.

Definition is_done (σ : stage) : bool :=
  match σ with Done _ => true | _ => false end.

(** The stage that follows [σ]. *)
Definition next_stage (fs0 : gmap path node) (net : string → reply) (out : path)
    (t : task) (σ : stage) : stage :=
  let '(s, z, x, y, d) := t in
  match σ with
  | Queued => Started
  | Started => Made
  | Made =>
      if path_exists fs0 (tile_path out s z x y) then Done (inr (skipped_result s z x y))
      else match tile_url s z x y with
           | None => Done (inl (lookup_error s))
           | Some url => Probed url
           end
  | Probed url =>
      if Qle_bool 0 d then Slept url
      else Done (inl (ValueError "sleep length must be non-negative"))
  | Slept url =>
      match net url with
      | Content body => Got url body
      | Raised e => Done (inr (failed_result s z x y e))
      end
  | Got url body => Done (inr (downloaded_result s z x y))
  | Done r => Done r
  end.

(** The operation performed on leaving [σ]. *)
Definition stage_op (out : path) (t : task) (σ : stage) : list op :=
  let '(s, z, x, y, d) := t in
  match σ with
  | Queued => []
  | Started => [OMkdir (tile_dir out s z x)]
  | Made => [OExists (tile_path out s z x y)]
  | Probed url => [OSleep d]
  | Slept url => [OGet url]
  | Got url body => [OWrite (tile_path out s z x y) body]
  | Done r => []
  end.

(** The operations performed before reaching [σ]. *)
Definition stage_trace (fs0 : gmap path node) (net : string → reply) (out : path)
    (t : task) (σ : stage) : list op :=
  let '(s, z, x, y, d) := t in
  let dir := tile_dir out s z x in
  let tile_path := tile_path out s z x y in
  match σ with
  | Queued | Started => []
  | Made => [OMkdir dir]
  | Probed url => [OMkdir dir; OExists tile_path]
  | Slept url => [OMkdir dir; OExists tile_path; OSleep d]
  | Got url body => [OMkdir dir; OExists tile_path; OSleep d; OGet url]
  | Done r => solo_trace fs0 net out t
  end.

(** What the disk [fs] and the stage [σ] of a worker have to do with each
    other. *)
Definition stage_ok (fs0 : gmap path node) (net : string → reply) (out : path)
    (fs : gmap path node) (t : task) (σ : stage) : Prop :=
  let '(s, z, x, y, d) := t in
  let dir := tile_dir out s z x in
  let tile_path := tile_path out s z x y in
  match σ with
  | Queued | Started => fs !! tile_path = fs0 !! tile_path
  | Made => made fs dir ∧ fs !! tile_path = fs0 !! tile_path
  | Probed url =>
      made fs dir ∧ fs !! tile_path = None ∧ fs0 !! tile_path = None ∧
      tile_url s z x y = Some url
  | Slept url =>
      made fs dir ∧ fs !! tile_path = None ∧ fs0 !! tile_path = None ∧
      tile_url s z x y = Some url ∧ Qle_bool 0 d = true
  | Got url body =>
      made fs dir ∧ fs !! tile_path = None ∧ fs0 !! tile_path = None ∧
      tile_url s z x y = Some url ∧ Qle_bool 0 d = true ∧ net url = Content body
  | Done r =>
      made fs dir ∧ r = outcome fs0 net out t ∧
      fs !! tile_path = match written fs0 net out t with
                        | Some body => Some (File body)
                        | None => fs0 !! tile_path
                        end
  end.

(** The invariant of the pool, for the tasks [tasks] started from the world
    [w0]. *)
Record pool_inv (out : path) (tasks : list task) (w0 : world) (st : pool) : Prop := PoolInv {
  inv_length : length (p_futures st) = length tasks;
  inv_net : w_net (p_world st) = w_net w0;
  inv_stdin : w_stdin (p_world st) = w_stdin w0;
  inv_fs : ∀ p, w_fs (p_world st) !! p = w_fs w0 !! p ∨
      (w_fs w0 !! p = None ∧
       ∃ t, t ∈ tasks ∧
         ((p ≠ [] ∧ p `prefix_of` dir_of out t ∧ w_fs (p_world st) !! p = Some Dir) ∨
          (p = path_of out t ∧ ∃ body, w_fs (p_world st) !! p = Some (File body))));
  inv_trace : ∃ tr, w_trace (p_world st) = w_trace w0 ++ tr ∧
      (∀ e, e ∈ tr → (e.1 < length tasks)%nat) ∧
      ∀ i t, tasks !! i = Some t →
        ∃ σ, p_futures st !! i = Some (future_of out t σ) ∧
             stage_ok (w_fs w0) (w_net w0) out (w_fs (p_world st)) t σ ∧
             ops_of i tr = stage_trace (w_fs w0) (w_net w0) out t σ;
}.

(** The bookkeeping of the pool: the completion order lists the finished
    futures, each once. *)
Record pool_book (tasks : list task) (st : pool) : Prop := PoolBook {
  book_length : length (p_futures st) = length tasks;
  book_NoDup : NoDup (p_completed st);
  book_completed : ∀ i, i ∈ p_completed st ↔ ∃ r, p_futures st !! i = Some (Finished r);
}.

(** How the loop of [download_area] counts a result. *)
Definition is_skipped (r : exn + result) : bool :=
  match r with
  | inr (true, message) => contains "Пропущен" message
  | _ => false
  end.
Definition is_downloaded (r : exn + result) : bool :=
  match r with
  | inr (true, message) => negb (contains "Пропущен" message)
  | _ => false
  end.
Definition is_failed (r : exn + result) : bool :=
  match r with
  | inr (false, _) => true
  | _ => false
  end.
Definition is_raised (r : exn + result) : bool :=
  match r with
  | inl _ => true
  | inr _ => false
  end.

Definition count (P : (exn + result) → bool) (rs : list (exn + result)) : Z :=
  Z.of_nat (length (filter (λ r, P r = true) rs)).

(** The number of completions a state of the counters accounts for. *)
Definition counted (c : counters) : Z := downloaded c + skipped c + failed c.

(** The remaining steps of a worker at stage [σ] are at most [6 - rank σ]. *)
Definition rank (σ : stage) : nat :=
  match σ with
  | Queued => 0 | Started => 1 | Made => 2 | Probed _ => 3 | Slept _ => 4 | Got _ _ => 5
  | Done _ => 6
  end.

(** A disk is a tree: what exists below the working directory sits in a
    directory. *)
Definition tree_ok (fs : gmap path node) : Prop :=
  ∀ p name, p ≠ [] → is_Some (fs !! (p ++ [name])) → fs !! p = Some Dir.

(** The run gets past the prompt of a large job. *)
Definition confirmed (total_tiles : Z) (w : world) : Prop :=
  total_tiles <= 1000 ∨ ∃ response rest, w_stdin w = response :: rest ∧ confirms response = true.

(** The world once the prompt, if there is one, has been answered. *)
Definition after_prompt (total_tiles : Z) (w : world) : world :=
  if 1000 <? total_tiles then set_stdin (tail (w_stdin w)) w else w.

(** The tile of [t] is missing and its provider answers with an error. *)
Definition fetch_fails (w : world) (out : path) (t : task) : bool :=
  let '(s, z, x, y, d) := t in
  negb (path_exists (w_fs w) (tile_path out s z x y)) &&
  match tile_url s z x y with
  | Some url => match w_net w url with Raised _ => true | Content _ => false end
  | None => false
  end.

(** The tile of [t] is missing and its provider serves it. *)
Definition fetch_succeeds (w : world) (out : path) (t : task) : bool :=
  let '(s, z, x, y, d) := t in
  negb (path_exists (w_fs w) (tile_path out s z x y)) &&
  match tile_url s z x y with
  | Some url => match w_net w url with Content _ => true | Raised _ => false end
  | None => false
  end.

(** Every character of [s] satisfies [P]. *)
Fixpoint string_forall (P : ascii → bool) (s : string) : bool :=
  match s with
  | "" => true
  | String c s' => P c && string_forall P s'
  end.

(** The characters of a printed integer. *)
Definition is_numeric (c : ascii) : bool :=
  bool_decide (c ∈ ["0"; "1"; "2"; "3"; "4"; "5"; "6"; "7"; "8"; "9"; "-"]%char).

(** The byte [9F], second of the two bytes of the first letter of the skip
    marker of [download_tile]. *)
Definition no_marker_byte (c : ascii) : bool := negb (bool_decide (c = ascii_of_N 159)).

(** Any character but the slash. *)
Definition not_slash (c : ascii) : bool := negb (bool_decide (c = "/"%char)).

(** No regular file stands where a tile directory of [out] goes. *)
Definition clear_for (out : path) (fs : gmap path node) : Prop :=
  ∀ s z x, unblocked fs (tile_dir out s z x).

(** The message of a failure line, the message of a failed result. *)
Definition failure_of (l : printed) : option string :=
  match l with Failure message => Some message | Progress _ _ _ => None end.
Definition failed_message (r : exn + result) : option string :=
  match r with inr (false, message) => Some message | _ => None end.


(** The number of tiles of the grid between the two mapped corners at one
    zoom level: columns times rows, an empty range counting for none. *)
Definition grid_size (lat_min lon_min lat_max lon_max : R) (zoom : Z) : Z :=
  let '(x_min, y_max) := lat_lon_to_tile lat_min lon_min zoom in
  let '(x_max, y_min) := lat_lon_to_tile lat_max lon_max zoom in
  Z.max 0 (x_max + 1 - x_min) * Z.max 0 (y_max + 1 - y_min).

(** ** Worlds used as examples *)

(** A provider that is down, one that serves every tile. *)
Definition provider_down (url : string) : reply := Raised "503 Server Error".
Definition provider_up (url : string) : reply := Content "tile".

(** An empty disk, and a disk that already holds the osm tile 0/0/0. *)
Definition disk_empty : gmap path node := ∅.
Definition disk_with_origin_tile : gmap path node :=
  <[["tiles"; "osm"; "0"; "0"; "0.png"] := File "tile"]>
  (<[["tiles"; "osm"; "0"; "0"] := Dir]>
  (<[["tiles"; "osm"; "0"] := Dir]>
  (<[["tiles"; "osm"] := Dir]>
  (<[["tiles"] := Dir]> ∅)))).

(** The empty disk with the provider down and nothing on the console. *)
Definition world_down : world := World disk_empty provider_down [] [].

End TileDownloader.

Import TileDownloader.

(** ** The command-line program: [main()] *)

Record area := Area {
  area_name : string;
  area_bounds : R * R * R * R;
  area_zoom : Z * Z;
}.

(** The [dict]s [areas] and [source_types] of [main]. *)
Definition areas : gmap string area :=
  <["1" := Area "Горный Алтай (малая)" (50, 86, 51, 87.5)%R (8, 12)]>
  (<["2" := Area "Горный Алтай (большая)" (49.5, 85, 51.5, 88.5)%R (7, 11)]>
  (<["3" := Area "Крым" (44.4, 33.5, 45.5, 36.5)%R (8, 12)]>
  (<["4" := Area "Байкал" (51.5, 103.5, 53.5, 107.5)%R (8, 11)]> ∅))).

Definition source_types : gmap string (list string) :=
  <["1" := ["terrain"]]>
  (<["2" := ["satellite"]]>
  (<["3" := ["osm"]]>
  (<["4" := ["terrain"; "satellite"; "osm"]]> ∅))).

(** [for source in sources: downloader.download_area(..., source_type=source,
    max_workers=3, delay=0.5)]; [sched k] is the scheduler's oracle of the
    call number [k]. *)
Fixpoint download_sources (downloader : path) (sched : nat → list nat) (k : nat)
    (lat_min lon_min lat_max lon_max : R) (zoom_min zoom_max : Z)
    (sources : list string) : io unit :=
  match sources with
  | [] => io_ret ()
  | source :: rest =>
      _ ⇐ download_area downloader (sched k) lat_min lon_min lat_max lon_max
            zoom_min zoom_max source 3 (1 # 2)%Q;
      download_sources downloader sched (S k) lat_min lon_min lat_max lon_max
        zoom_min zoom_max rest
  end.

(** The second half of [main], from the choice of the map type on. *)
Definition choose_map (downloader : path) (sched : nat → list nat)
    (lat_min lon_min lat_max lon_max : R) (zoom_min zoom_max : Z) : io unit :=
  map_choice ⇐ input;
  match source_types !! strip map_choice with
  | None => io_ret ()
  | Some sources =>
      download_sources downloader sched 0 lat_min lon_min lat_max lon_max
        zoom_min zoom_max sources
  end.

(** A line read and parsed inside the [try] of [main]: on the [ValueError]
    of the parser, [None], [main] returns. *)
Definition try_input {A : Type} (parse : string → option A) (k : A → io unit) : io unit :=
  line ⇐ input;
  match parse line with
  | None => io_ret ()
  | Some v => k v
  end.

Section Main.

(** The built-ins [float()] and [int()] on a line of the console; [None] is
    their [ValueError].  As everywhere, a [float] is a real number. *)
Variable float : string → option R.
Variable int : string → option Z.

(** [main()] *)
Definition main (sched : nat → list nat) : io unit :=
  downloader ⇐ __init__ ["tiles"];
  choice ⇐ input;
  let choice := strip choice in
  if decide (choice = "0") then io_ret ()
  else
    match areas !! choice with
    | Some area =>
        let '(lat_min, lon_min, lat_max, lon_max) := area_bounds area in
        let '(zoom_min, zoom_max) := area_zoom area in
        choose_map downloader sched lat_min lon_min lat_max lon_max zoom_min zoom_max
    | None =>
        if decide (choice = "5") then
          try_input float (λ lat_min,
          try_input float (λ lon_min,
          try_input float (λ lat_max,
          try_input float (λ lon_max,
          try_input int (λ zoom_min,
          try_input int (λ zoom_max,
            choose_map downloader sched lat_min lon_min lat_max lon_max
              zoom_min zoom_max))))))
        else io_ret ()
    end.

End Main.

(** * Properties *)

(** ** Rounding a float to an integer *)

Section MapperFacts.
Local Open Scope R_scope.

Lemma python_int_nonneg (r : R) : 0 <= r → python_int r = Int_part r.
Proof. intros Hr. unfold python_int. destruct (Rle_dec 0 r); [done | contradiction]. Qed.

Lemma Int_part_unique (r : R) (z : Z) : IZR z <= r < IZR z + 1 → Int_part r = z.
Proof. intros [H1 H2]. symmetry. apply Int_part_spec. lra. Qed.

Lemma python_int_unique_nonneg (r : R) (z : Z) :
  0 <= r → IZR z <= r < IZR z + 1 → python_int r = z.
Proof. intros H0 Hz. rewrite python_int_nonneg by done. by apply Int_part_unique. Qed.



Lemma powerRZ_2_IZR (zoom : Z) : (0 <= zoom)%Z → powerRZ 2 zoom = IZR (2 ^ zoom).
Proof.
  intros Hz. destruct zoom as [|p|p]; [done | | lia].
  cbn [powerRZ]. rewrite pow_IZR. by rewrite positive_nat_Z.
Qed.

End MapperFacts.

(** ** Bounds on pi, the sine, the cosine and the exponential *)

Section Analysis.
Local Open Scope R_scope.

















End Analysis.

(** ** The Mercator values *)

Section Mapper.
Local Open Scope R_scope.

Lemma lat_lon_to_tile_eq (lat lon : R) (zoom : Z) :
  lat_lon_to_tile lat lon zoom
  = (python_int (mercator_x lon zoom), python_int (mercator_y lat zoom)).
Proof. reflexivity. Qed.


Lemma radians_opp (a : R) : radians (- a) = - radians a.
Proof. unfold radians. lra. Qed.










Lemma mercator_x_0_0 : mercator_x 0 0 = 1 / 2.
Proof. unfold mercator_x. cbn [powerRZ]. lra. Qed.

Lemma mercator_y_0_0 : mercator_y 0 0 = 1 / 2.
Proof.
  unfold mercator_y, radians. cbn [powerRZ].
  rewrite Rmult_0_l, tan_0, arcsinh_0. lra.
Qed.


Lemma lat_lon_to_tile_origin : lat_lon_to_tile 0 0 0 = (0, 0)%Z.
Proof.
  rewrite lat_lon_to_tile_eq, mercator_x_0_0, mercator_y_0_0.
  rewrite (python_int_unique_nonneg (1 / 2) 0) by lra. done.
Qed.

End Mapper.

(** ** The mapper *)







(** ** Strings *)

Lemma string_app_cons (c : ascii) (s t : string) : String c s +:+ t = String c (s +:+ t).
Proof. reflexivity. Qed.

Lemma string_app_empty_r (s : string) : s +:+ "" = s.
Proof. induction s as [|c s IH]; [done|]. by rewrite string_app_cons, IH. Qed.

Lemma string_length_app (s t : string) :
  String.length (s +:+ t) = (String.length s + String.length t)%nat.
Proof. induction s as [|c s IH]; [done|]. rewrite string_app_cons. simpl. by rewrite IH. Qed.

(** Cancelling a common suffix. *)
Lemma string_app_inj_r (s1 s2 t : string) : s1 +:+ t = s2 +:+ t → s1 = s2.
Proof.
  revert s2. induction s1 as [|c s1 IH]; intros [|c2 s2] H.
  - done.
  - apply (f_equal String.length) in H. rewrite !string_length_app in H. simpl in H. lia.
  - apply (f_equal String.length) in H. rewrite !string_length_app in H. simpl in H. lia.
  - rewrite !string_app_cons in H. injection H as -> H. f_equal. by apply IH.
Qed.
Lemma download_tile_eq out s z x y d :
  download_tile out s z x y d = Do (Mkdir (tile_dir out s z x)) (λ _, after_mkdir out s z x y d).
Proof. reflexivity. Qed.

Lemma grows_refl fs dir p : grows fs fs dir p.
Proof. intros q. by left. Qed.

Lemma mkdir_from_spec (base rest : path) (fs : gmap path node) :
  (∀ q c, base `prefix_of` q → q `prefix_of` (base ++ rest) → q ≠ base → fs !! q ≠ Some (File c)) →
  ∃ fs', mkdir_from base rest fs = inr fs' ∧
    (∀ q, base `prefix_of` q → q `prefix_of` (base ++ rest) → q ≠ base → fs' !! q = Some Dir) ∧
    (∀ q, fs' !! q = fs !! q ∨
       (fs !! q = None ∧ q ≠ base ∧ base `prefix_of` q ∧ q `prefix_of` (base ++ rest) ∧ fs' !! q = Some Dir)).
Proof.
  revert base fs. induction rest as [|c rest IH]; intros base fs Hfree.
  - exists fs. split; [done|]. split.
    + intros q Hb Hq Hne. rewrite app_nil_r in Hq. destruct Hne. by apply (anti_symm prefix).
    + intros q. by left.
  - cbn [mkdir_from].
    assert (Hq1 : base `prefix_of` base ++ [c]) by apply prefix_app_r, reflexivity.
    assert (Hq2 : base ++ [c] `prefix_of` base ++ c :: rest).
    { apply prefix_app, prefix_cons, prefix_nil. }
    assert (Hq3 : base ++ [c] ≠ base).
    { intros E. apply (f_equal length) in E. rewrite length_app in E. simpl in E. lia. }
    assert (Hsub : ∀ q, base ++ [c] `prefix_of` q → base `prefix_of` q ∧ q ≠ base).
    { intros q Hq. split; [by etrans|]. intros ->.
      apply prefix_length in Hq. rewrite length_app in Hq. simpl in Hq. lia. }
    assert (Hcase : ∀ q, base `prefix_of` q → q `prefix_of` base ++ c :: rest → q ≠ base →
                         base ++ [c] `prefix_of` q).
    { intros q [k ->] Hq Hne. apply prefix_app_inv in Hq.
      destruct k as [|c' k]; [by rewrite app_nil_r in Hne|].
      apply prefix_cons_inv_1 in Hq as ->. apply prefix_app, prefix_cons, prefix_nil. }
    destruct (fs !! (base ++ [c])) as [[|content]|] eqn:E.
    + destruct (IH (base ++ [c]) fs) as (fs' & Hrun & Hdirs & Hfr).
      { intros q c' H1 H2 H3. rewrite <- app_assoc in H2. simpl in H2.
        destruct (Hsub q H1). by apply Hfree. }
      exists fs'. split; [done|]. rewrite <- app_assoc in Hdirs, Hfr. simpl in Hdirs, Hfr. split.
      * intros q H1 H2 H3. specialize (Hcase q H1 H2 H3).
        destruct (decide (q = base ++ [c])) as [->|Hne].
        -- destruct (Hfr (base ++ [c])) as [-> | (HN & _)]; [done | congruence].
        -- by apply Hdirs.
      * intros q. destruct (Hfr q) as [? | (? & ? & ? & ? & ?)]; [by left|right].
        destruct (Hsub q); done.
    + by destruct (Hfree (base ++ [c]) content).
    + destruct (IH (base ++ [c]) (<[base ++ [c] := Dir]> fs)) as (fs' & Hrun & Hdirs & Hfr).
      { intros q c' H1 H2 H3. rewrite <- app_assoc in H2. simpl in H2.
        destruct (Hsub q H1). rewrite lookup_insert_ne by done. by apply Hfree. }
      exists fs'. split; [done|]. rewrite <- app_assoc in Hdirs, Hfr. simpl in Hdirs, Hfr. split.
      * intros q H1 H2 H3. specialize (Hcase q H1 H2 H3).
        destruct (decide (q = base ++ [c])) as [->|Hne].
        -- destruct (Hfr (base ++ [c])) as [-> | (HN & _)].
           ++ by rewrite lookup_insert_eq.
           ++ by rewrite lookup_insert_eq in HN.
        -- by apply Hdirs.
      * intros q. destruct (decide (q = base ++ [c])) as [->|Hne].
        -- right. split; [done|]. split; [done|]. split; [done|]. split; [done|].
           destruct (Hfr (base ++ [c])) as [-> | (HN & _)].
           ++ by rewrite lookup_insert_eq.
           ++ by rewrite lookup_insert_eq in HN.
        -- destruct (Hfr q) as [Hq | (? & ? & ? & ? & ?)].
           ++ left. by rewrite Hq, lookup_insert_ne.
           ++ right. rewrite lookup_insert_ne in H by done. destruct (Hsub q); done.
Qed.

(** ** Sources, URLs and file names *)

Lemma TILE_SOURCES_terrain :
  TILE_SOURCES !! "terrain" = Some "https://tile.opentopomap.org/{z}/{x}/{y}.png".
Proof. vm_compute. reflexivity. Qed.

Lemma TILE_SOURCES_satellite :
  TILE_SOURCES !! "satellite"
  = Some "https://server.arcgisonline.com/ArcGIS/rest/services/World_Imagery/MapServer/tile/{z}/{y}/{x}".
Proof. vm_compute. reflexivity. Qed.

Lemma TILE_SOURCES_osm :
  TILE_SOURCES !! "osm" = Some "https://tile.openstreetmap.org/{z}/{x}/{y}.png".
Proof. vm_compute. reflexivity. Qed.

Lemma TILE_SOURCES_None (s : string) :
  s ≠ "terrain" → s ≠ "satellite" → s ≠ "osm" → TILE_SOURCES !! s = None.
Proof. intros. unfold TILE_SOURCES. by rewrite !lookup_insert_ne, lookup_empty. Qed.

Lemma TILE_SOURCES_cases (s : string) :
  s = "terrain" ∨ s = "satellite" ∨ s = "osm" ∨ TILE_SOURCES !! s = None.
Proof.
  destruct (decide (s = "terrain")); [tauto|].
  destruct (decide (s = "satellite")); [tauto|].
  destruct (decide (s = "osm")); [tauto|].
  right; right; right. by apply TILE_SOURCES_None.
Qed.

Lemma tile_url_terrain (z x y : Z) :
  tile_url "terrain" z x y
  = Some ("https://tile.opentopomap.org/"
          +:+ pretty z +:+ "/" +:+ pretty x +:+ "/" +:+ pretty y +:+ ".png").
Proof. unfold tile_url. rewrite TILE_SOURCES_terrain. reflexivity. Qed.

Lemma tile_url_satellite (z x y : Z) :
  tile_url "satellite" z x y
  = Some ("https://server.arcgisonline.com/ArcGIS/rest/services/World_Imagery/MapServer/tile/"
          +:+ pretty z +:+ "/" +:+ pretty y +:+ "/" +:+ pretty x).
Proof.
  unfold tile_url. rewrite TILE_SOURCES_satellite.
  rewrite <- (string_app_empty_r (pretty x)). reflexivity.
Qed.

Lemma tile_url_osm (z x y : Z) :
  tile_url "osm" z x y
  = Some ("https://tile.openstreetmap.org/"
          +:+ pretty z +:+ "/" +:+ pretty x +:+ "/" +:+ pretty y +:+ ".png").
Proof. unfold tile_url. rewrite TILE_SOURCES_osm. reflexivity. Qed.

(** A known source always has a URL. *)
Lemma tile_url_is_Some (s : string) (z x y : Z) :
  is_Some (TILE_SOURCES !! s) → is_Some (tile_url s z x y).
Proof.
  intros [t Ht].
  destruct (TILE_SOURCES_cases s) as [-> | [-> | [-> | E]]].
  - rewrite tile_url_terrain. eauto.
  - rewrite tile_url_satellite. eauto.
  - rewrite tile_url_osm. eauto.
  - congruence.
Qed.

(** What [download_tile] does once the probe has answered, in terms of
    [tile_url]. *)
Lemma after_probe_absent (out : path) (s : string) (z x y : Z) (d : Q) (url : string) :
  tile_url s z x y = Some url →
  after_probe out s z x y d false = Do (Sleep d) (λ _, after_sleep out s z x y url).
Proof.
  unfold tile_url, after_probe. intros H.
  destruct (TILE_SOURCES !! s) as [t|]; [|done]. cbn in H. by rewrite H.
Qed.

Lemma after_probe_unknown (out : path) (s : string) (z x y : Z) (d : Q) :
  TILE_SOURCES !! s = None →
  after_probe out s z x y d false = Throw (KeyError s).
Proof. unfold after_probe. by intros ->. Qed.

(** C9: the satellite URL has y before x where terrain and osm have x before
    y; the file name ends in .jpg for satellite and in .png for any other
    source. *)
Theorem source_url_and_extension (out : path) (z x y : Z) :
  tile_url "satellite" z x y
  = Some ("https://server.arcgisonline.com/ArcGIS/rest/services/World_Imagery/MapServer/tile/"
          +:+ pretty z +:+ "/" +:+ pretty y +:+ "/" +:+ pretty x) ∧
  tile_url "satellite" 5 3 2
  = Some "https://server.arcgisonline.com/ArcGIS/rest/services/World_Imagery/MapServer/tile/5/2/3" ∧
  tile_url "terrain" z x y
  = Some ("https://tile.opentopomap.org/"
          +:+ pretty z +:+ "/" +:+ pretty x +:+ "/" +:+ pretty y +:+ ".png") ∧
  tile_url "osm" z x y
  = Some ("https://tile.openstreetmap.org/"
          +:+ pretty z +:+ "/" +:+ pretty x +:+ "/" +:+ pretty y +:+ ".png") ∧
  tile_path out "satellite" z x y
  = out ++ ["satellite"; pretty z; pretty x; pretty y +:+ ".jpg"] ∧
  (∀ s, s ≠ "satellite" →
        tile_path out s z x y = out ++ [s; pretty z; pretty x; pretty y +:+ ".png"]) ∧
  (∀ s d url, tile_url s z x y = Some url →
        download_tile out s z x y d
        = Do (Mkdir (tile_dir out s z x)) (λ _,
          Do (PathExists (tile_path out s z x y)) (λ present,
            if present : bool then after_probe out s z x y d true
            else Do (Sleep d) (λ _, Do (Get url) (after_get out s z x y))))).
Proof.
  split; [apply tile_url_satellite|].
  split; [vm_compute; reflexivity|].
  split; [apply tile_url_terrain|].
  split; [apply tile_url_osm|].
  split; [by unfold tile_path, tile_dir; rewrite <- app_assoc|].
  split.
  - intros s Hs. unfold tile_path, tile_dir, tile_ext.
    rewrite decide_False by done. by rewrite <- app_assoc.
  - intros s d url Hurl. unfold tile_url in Hurl.
    unfold download_tile.
    destruct (TILE_SOURCES !! s) as [t|]; [|done]. cbn in Hurl. by rewrite Hurl.
Qed.

(** ** Enumeration of the covering tiles *)

Lemma elem_of_range (a b k : Z) : k ∈ range a b ↔ a <= k < b.
Proof. unfold range. rewrite elem_of_seqZ. lia. Qed.

Lemma NoDup_range (a b : Z) : NoDup (range a b).
Proof. apply NoDup_seqZ. Qed.

(** A loop that appends [g a] and counts its elements. *)
Lemma foldl_collect {A B : Type} (g : A → list B) (step : list B * Z → A → list B * Z)
    (l : list A) (acc : list B * Z) :
  (∀ acc a, step acc a = (acc.1 ++ g a, acc.2 + Z.of_nat (length (g a)))) →
  foldl step acc l = (acc.1 ++ (l ≫= g), acc.2 + Z.of_nat (length (l ≫= g))).
Proof.
  intros Hstep. revert acc. induction l as [|a l IH]; intros acc.
  - cbn. rewrite app_nil_r, Z.add_0_r. by destruct acc.
  - cbn [foldl]. rewrite IH, Hstep. cbn [fst snd mbind list_bind].
    rewrite <- app_assoc, length_app. f_equal. lia.
Qed.

Lemma enumerate_covering lat_min lon_min lat_max lon_max zoom_min zoom_max source_type delay :
  let tasks :=
    covering lat_min lon_min lat_max lon_max zoom_min zoom_max source_type delay in
  enumerate lat_min lon_min lat_max lon_max zoom_min zoom_max source_type delay
  = (tasks, Z.of_nat (length tasks)).
Proof.
  unfold enumerate, covering.
  erewrite foldl_collect; [reflexivity|].
  intros acc zoom. cbn beta.
  destruct (lat_lon_to_tile lat_min lon_min zoom) as [x_min y_max].
  destruct (lat_lon_to_tile lat_max lon_max zoom) as [x_max y_min].
  cbn [fst snd].
  erewrite foldl_collect; [reflexivity|].
  intros acc' x. cbn beta.
  erewrite (foldl_collect (λ y, [(source_type, zoom, x, y, delay)])); [reflexivity|].
  intros [tasks total] y. cbn. done.
Qed.

Lemma elem_of_covering lat_min lon_min lat_max lon_max zoom_min zoom_max source_type delay t :
  t ∈ covering lat_min lon_min lat_max lon_max zoom_min zoom_max source_type delay ↔
  ∃ zoom x y,
    t = (source_type, zoom, x, y, delay) ∧
    zoom_min <= zoom <= zoom_max ∧
    (lat_lon_to_tile lat_min lon_min zoom).1 <= x <= (lat_lon_to_tile lat_max lon_max zoom).1 ∧
    (lat_lon_to_tile lat_max lon_max zoom).2 <= y <= (lat_lon_to_tile lat_min lon_min zoom).2.
Proof.
  unfold covering. rewrite list_elem_of_bind. split.
  - intros (zoom & Ht & Hz). apply list_elem_of_bind in Ht as (x & Ht & Hx).
    apply list_elem_of_bind in Ht as (y & Ht & Hy).
    apply list_elem_of_singleton in Ht.
    apply elem_of_range in Hz, Hx, Hy.
    exists zoom, x, y. repeat split; try done; lia.
  - intros (zoom & x & y & -> & Hz & Hx & Hy).
    exists zoom. split; [|apply elem_of_range; lia].
    apply list_elem_of_bind. exists x. split; [|apply elem_of_range; lia].
    apply list_elem_of_bind. exists y. split; [|apply elem_of_range; lia].
    by apply list_elem_of_singleton.
Qed.

Lemma NoDup_covering lat_min lon_min lat_max lon_max zoom_min zoom_max source_type delay :
  NoDup (covering lat_min lon_min lat_max lon_max zoom_min zoom_max source_type delay).
Proof.
  unfold covering. apply NoDup_bind; [| |apply NoDup_range].
  - intros z1 z2 t _ _ H1 H2.
    apply list_elem_of_bind in H1 as (x1 & H1 & _). apply list_elem_of_bind in H1 as (y1 & H1 & _).
    apply list_elem_of_bind in H2 as (x2 & H2 & _). apply list_elem_of_bind in H2 as (y2 & H2 & _).
    apply list_elem_of_singleton in H1, H2. congruence.
  - intros zoom _. apply NoDup_bind; [| |apply NoDup_range].
    + intros x1 x2 t _ _ H1 H2.
      apply list_elem_of_bind in H1 as (y1 & H1 & _).
      apply list_elem_of_bind in H2 as (y2 & H2 & _).
      apply list_elem_of_singleton in H1, H2. congruence.
    + intros x _. apply NoDup_bind; [| |apply NoDup_range].
      * intros y1 y2 t _ _ H1 H2. apply list_elem_of_singleton in H1, H2. congruence.
      * intros y _. apply NoDup_singleton.
Qed.

(** C3: [download_area] enumerates, for each zoom of the range, exactly the
    pairs of the grid between the two mapped corners, one task for each, and
    counts them. *)
Theorem enumerate_exact lat_min lon_min lat_max lon_max zoom_min zoom_max source_type delay :
  let '(tasks, total_tiles) :=
    enumerate lat_min lon_min lat_max lon_max zoom_min zoom_max source_type delay in
  NoDup tasks ∧
  total_tiles = Z.of_nat (length tasks) ∧
  ∀ t, t ∈ tasks ↔
    ∃ zoom x y,
      t = (source_type, zoom, x, y, delay) ∧
      zoom_min <= zoom <= zoom_max ∧
      (lat_lon_to_tile lat_min lon_min zoom).1 <= x
        <= (lat_lon_to_tile lat_max lon_max zoom).1 ∧
      (lat_lon_to_tile lat_max lon_max zoom).2 <= y
        <= (lat_lon_to_tile lat_min lon_min zoom).2.
Proof.
  rewrite enumerate_covering.
  split; [apply NoDup_covering|]. split; [done|]. apply elem_of_covering.
Qed.

(** ** Tile paths *)

Lemma path_of_dir_of (out : path) (t : task) :
  ∃ name, path_of out t = dir_of out t ++ [name].
Proof. destruct t as [[[[s z] x] y] d]. by eexists. Qed.

Lemma length_dir_of (out : path) (t : task) : length (dir_of out t) = (length out + 3)%nat.
Proof. destruct t as [[[[s z] x] y] d]. unfold dir_of, tile_dir. rewrite length_app. done. Qed.

Lemma length_path_of (out : path) (t : task) : length (path_of out t) = (length out + 4)%nat.
Proof.
  destruct (path_of_dir_of out t) as [name ->].
  rewrite length_app, length_dir_of. simpl. lia.
Qed.

Lemma dir_of_nonempty (out : path) (t : task) : dir_of out t ≠ [].
Proof. intros E. apply (f_equal length) in E. rewrite length_dir_of in E. simpl in E. lia. Qed.

Lemma parent_path_of (out : path) (t : task) : parent (path_of out t) = dir_of out t.
Proof.
  destruct (path_of_dir_of out t) as [name ->]. unfold parent. apply removelast_last.
Qed.

(** A tile path is never one of the directories the workers create. *)
Lemma path_of_not_prefix (out : path) (t t' : task) : ¬ path_of out t `prefix_of` dir_of out t'.
Proof.
  intros H%prefix_length. rewrite length_path_of, length_dir_of in H. lia.
Qed.

(** Tile paths determine the tile, for one source. *)
Lemma tile_path_inj (out : path) (s : string) (z x y z' x' y' : Z) :
  tile_path out s z x y = tile_path out s z' x' y' → z = z' ∧ x = x' ∧ y = y'.
Proof.
  unfold tile_path, tile_dir. rewrite <- !app_assoc. intros H%app_inv_head.
  simpl in H. injection H as Hz Hx Hy.
  apply (inj pretty) in Hz, Hx. apply string_app_inj_r, (inj pretty) in Hy. done.
Qed.

(** ** The filesystem operations *)

Lemma made_grows (fs fs' : gmap path node) (dir dir' p : path) :
  made fs dir → grows fs fs' dir' p → made fs' dir.
Proof.
  intros Hm Hg q Hne Hq. specialize (Hm q Hne Hq).
  destruct (Hg q) as [-> | [HN _]]; [done | congruence].
Qed.

Lemma mkdir_parents_spec (fs : gmap path node) (dir : path) :
  unblocked fs dir →
  ∃ fs', mkdir_parents dir fs = inr fs' ∧ made fs' dir ∧
    ∀ q, fs' !! q = fs !! q ∨
         (fs !! q = None ∧ q ≠ [] ∧ q `prefix_of` dir ∧ fs' !! q = Some Dir).
Proof.
  intros Hu. unfold mkdir_parents.
  destruct (mkdir_from_spec [] dir fs) as (fs' & Hrun & Hdirs & Hfr).
  { intros q c _ Hq Hne. by apply Hu. }
  exists fs'. split; [done|]. split.
  - intros q Hne Hq. apply Hdirs; [apply prefix_nil | done | done].
  - intros q. destruct (Hfr q) as [? | (? & ? & ? & ? & ?)]; [by left|by right].
Qed.

Lemma write_file_spec (fs : gmap path node) (dir p : path) (name body : string) :
  p = dir ++ [name] → dir ≠ [] → made fs dir → fs !! p = None →
  write_file p body fs = inr (<[p := File body]> fs) ∧
  grows fs (<[p := File body]> fs) dir p.
Proof.
  intros -> Hne Hm HN. unfold write_file. rewrite HN.
  unfold parent. rewrite removelast_last.
  assert (fs !! dir = Some Dir) as Hd by by apply Hm.
  unfold is_dir. rewrite Hd. destruct dir; [done|]. split; [done|].
  intros q. destruct (decide (q = (s :: dir) ++ [name])) as [->|Hq].
  - right. split; [done|]. right. split; [done|]. exists body. by rewrite lookup_insert_eq.
  - left. by rewrite lookup_insert_ne.
Qed.

(** ** One step of a worker *)

Lemma after_probe_no_url (out : path) (s : string) (z x y : Z) (d : Q) :
  tile_url s z x y = None →
  after_probe out s z x y d false = Throw (lookup_error s).
Proof.
  unfold tile_url, after_probe, lookup_error. intros H.
  destruct (TILE_SOURCES !! s) as [t|]; [|done]. cbn in H. by rewrite H.
Qed.

Lemma path_exists_eq (fs fs' : gmap path node) (p : path) :
  fs !! p = fs' !! p → path_exists fs p = path_exists fs' p.
Proof. unfold path_exists. by intros ->. Qed.

Lemma path_exists_false (fs : gmap path node) (p : path) :
  path_exists fs p = false ↔ fs !! p = None.
Proof. unfold path_exists. destruct (fs !! p); naive_solver. Qed.

Lemma world_eta (w : world) : World (w_fs w) (w_net w) (w_stdin w) (w_trace w) = w.
Proof. by destruct w. Qed.

Section Step.
Context (out : path) (fs0 : gmap path node) (net : string → reply).

Lemma stage_trace_next (fs : gmap path node) (t : task) (σ : stage) :
  stage_ok fs0 net out fs t σ →
  stage_trace fs0 net out t (next_stage fs0 net out t σ)
  = stage_trace fs0 net out t σ ++ stage_op out t σ.
Proof.
  destruct t as [[[[s z] x] y] d]. destruct σ as [| | |url|url|url body|r]; cbn.
  - done.
  - done.
  - intros _. destruct (path_exists fs0 (tile_path out s z x y)) eqn:E; cbn; rewrite ?E; [done|].
    destruct (tile_url s z x y) eqn:Eu; cbn; rewrite ?E, ?Eu; done.
  - intros (_ & _ & H0 & Hu). apply path_exists_false in H0.
    destruct (Qle_bool 0 d) eqn:Ed; cbn; rewrite ?H0, ?Hu, ?Ed; done.
  - intros (_ & _ & H0 & Hu & Hd). apply path_exists_false in H0.
    destruct (net url) eqn:En; cbn; rewrite ?H0, ?Hu, ?Hd, ?En; done.
  - intros (_ & _ & H0 & Hu & Hd & Hn). apply path_exists_false in H0.
    by rewrite H0, Hu, Hd, Hn.
  - intros _. by rewrite app_nil_r.
Qed.

(** The step of worker [i] from stage [σ]: the next stage, the new disk and
    the operation added to the trace. *)
Lemma advance_spec (tasks : list task) (st : pool) (i : nat) (t : task) (σ : stage) :
  w_net (p_world st) = net →
  unblocked (w_fs (p_world st)) (dir_of out t) →
  tasks !! i = Some t →
  p_futures st !! i = Some (future_of out t σ) →
  stage_ok fs0 net out (w_fs (p_world st)) t σ →
  is_done σ = false →
  ∃ fs',
    advance out tasks st i
    = update i (future_of out t (next_stage fs0 net out t σ))
        (World fs' (w_net (p_world st)) (w_stdin (p_world st))
               (w_trace (p_world st) ++ ((i,.) <$> stage_op out t σ))) st ∧
    stage_ok fs0 net out fs' t (next_stage fs0 net out t σ) ∧
    grows (w_fs (p_world st)) fs' (dir_of out t) (path_of out t).
Proof.
  intros Hnet Hu Ht Hf Hok Hnd. unfold advance. rewrite Hf.
  destruct st as [w fs cs]. cbn [p_world p_futures p_completed] in *.
  destruct t as [[[[s z] x] y] d].
  destruct σ as [| | |url|url|url body|r]; cbn [future_of] in *; try done.
  - (* a queued call starts *)
    rewrite Ht. exists (w_fs w). cbn [stage_op fmap list_fmap].
    rewrite app_nil_r, world_eta. repeat split; [done | apply grows_refl].
  - (* mkdir *)
    cbn [download_tile exec log w_fs set_fs]. 
    destruct (mkdir_parents_spec (w_fs w) (tile_dir out s z x) Hu) as (fs' & -> & Hm & Hg).
    exists fs'. cbn [stage_ok next_stage stage_op] in *. repeat split; try done.
    + rewrite <- Hok.
      destruct (Hg (tile_path out s z x y)) as [? | (_ & _ & Hp & _)]; [done|].
      by destruct (path_of_not_prefix out (s, z, x, y, d) (s, z, x, y, d)).
    + intros q. destruct (Hg q) as [? | (? & ? & ? & ?)]; [by left|].
      right. split; [done|]. by left.
  - (* exists *)
    destruct Hok as [Hm Hp].
    cbn [after_mkdir exec log w_fs]. exists (w_fs w).
    rewrite (path_exists_eq _ fs0 _ Hp). cbn [next_stage stage_op].
    destruct (path_exists fs0 (tile_path out s z x y)) eqn:E.
    + repeat split; try done; try apply grows_refl.
      * cbn. by rewrite E.
      * cbn [written]. by rewrite E.
    + destruct (tile_url s z x y) as [url|] eqn:Eu.
      * rewrite (after_probe_absent _ _ _ _ _ _ _ Eu).
        apply path_exists_false in E.
        repeat split; try done; try apply grows_refl. congruence.
      * rewrite (after_probe_no_url _ _ _ _ _ _ Eu).
        repeat split; try done; try apply grows_refl.
        -- cbn. by rewrite E, Eu.
        -- cbn [written]. by rewrite E, Eu.
  - (* sleep *)
    destruct Hok as (Hm & Hp & Hp0 & Hurl).
    cbn [exec log w_fs]. exists (w_fs w). cbn [next_stage stage_op].
    pose proof Hp0 as E%path_exists_false.
    destruct (Qle_bool 0 d) eqn:Ed.
    + repeat split; try reflexivity; try done; apply grows_refl.
    + repeat split; try done; try apply grows_refl.
      * cbn. by rewrite E, Hurl, Ed.
      * cbn [written]. rewrite E, Hurl, Ed. congruence.
  - (* get *)
    destruct Hok as (Hm & Hp & Hp0 & Hurl & Hd).
    cbn [after_sleep exec log w_fs w_net]. exists (w_fs w). cbn [next_stage stage_op].
    pose proof Hp0 as E%path_exists_false.
    rewrite <- Hnet. destruct (w_net w url) as [body|e] eqn:En.
    + repeat split; try reflexivity; try done; apply grows_refl.
    + repeat split; try reflexivity; try done; try apply grows_refl.
      * cbn. by rewrite E, Hurl, Hd, En.
      * cbn [written]. rewrite E, Hurl, Hd, En. congruence.
  - (* write *)
    destruct Hok as (Hm & Hp & Hp0 & Hurl & Hd & Hn).
    cbn [after_get exec log w_fs set_fs].
    pose proof Hp0 as E%path_exists_false.
    destruct (write_file_spec (w_fs w) (tile_dir out s z x) (tile_path out s z x y)
                (pretty y +:+ tile_ext s) body) as [-> Hg]; try done.
    { apply (dir_of_nonempty out (s, z, x, y, d)). }
    exists (<[tile_path out s z x y := File body]> (w_fs w)).
    cbn [next_stage stage_op]. repeat split; try done.
    + by eapply made_grows.
    + cbn. by rewrite E, Hurl, Hd, Hn.
    + cbn [written]. rewrite E, Hurl, Hd, Hn. by rewrite lookup_insert_eq.
Qed.

End Step.

(** ** The invariant of the pool *)

Lemma ops_of_app (i : nat) (tr1 tr2 : list (nat * op)) :
  ops_of i (tr1 ++ tr2) = ops_of i tr1 ++ ops_of i tr2.
Proof. unfold ops_of. by rewrite filter_app, fmap_app. Qed.

Lemma ops_of_own (i : nat) (l : list op) : ops_of i ((i,.) <$> l) = l.
Proof.
  unfold ops_of. induction l as [|o l IH]; [done|].
  cbn [fmap list_fmap]. rewrite filter_cons_True by done. cbn. by f_equal.
Qed.

Lemma ops_of_other (i k : nat) (l : list op) : i ≠ k → ops_of k ((i,.) <$> l) = [].
Proof.
  intros Hne. unfold ops_of. induction l as [|o l IH]; [done|].
  cbn [fmap list_fmap]. by rewrite filter_cons_False.
Qed.

Lemma is_finished_future_of (out : path) (t : task) (σ : stage) :
  is_finished (future_of out t σ) = is_done σ.
Proof. destruct t as [[[[s z] x] y] d]. by destruct σ. Qed.

Lemma future_of_finished (out : path) (t : task) (σ : stage) (r : exn + result) :
  future_of out t σ = Finished r → σ = Done r.
Proof. destruct t as [[[[s z] x] y] d]. destruct σ; cbn; congruence. Qed.

Lemma stage_ok_stable (out : path) (fs0 : gmap path node) (net : string → reply)
    (fs fs' : gmap path node) (t t' : task) (σ : stage) :
  stage_ok fs0 net out fs t σ →
  grows fs fs' (dir_of out t') (path_of out t') →
  path_of out t ≠ path_of out t' →
  stage_ok fs0 net out fs' t σ.
Proof.
  intros Hok Hg Hne.
  assert (Hp : fs' !! path_of out t = fs !! path_of out t).
  { destruct (Hg (path_of out t)) as [? | (_ & [(_ & Hp & _) | [? _]])]; [done | | done].
    by destruct (path_of_not_prefix out t t'). }
  assert (Hm : made fs (dir_of out t) → made fs' (dir_of out t)).
  { intros Hm. by eapply made_grows. }
  destruct t as [[[[s z] x] y] d]. cbn [path_of dir_of] in *.
  destruct σ; cbn [stage_ok] in *; rewrite ?Hp; intuition.
Qed.

Section Invariant.
Context (out : path) (tasks : list task) (w0 : world).
Hypothesis Hdistinct : NoDup (path_of out <$> tasks).
Hypothesis Hfree : ∀ t, t ∈ tasks → unblocked (w_fs w0) (dir_of out t).

Lemma paths_distinct (i k : nat) (t t' : task) :
  tasks !! i = Some t → tasks !! k = Some t' → i ≠ k → path_of out t ≠ path_of out t'.
Proof.
  intros Hi Hk Hne E. apply Hne.
  eapply (NoDup_lookup _ _ _ _ Hdistinct); rewrite list_lookup_fmap.
  - by rewrite Hi.
  - rewrite Hk. cbn. by rewrite E.
Qed.

Lemma unblocked_now (st : pool) (t : task) :
  pool_inv out tasks w0 st → t ∈ tasks → unblocked (w_fs (p_world st)) (dir_of out t).
Proof.
  intros Hinv Ht q c Hne Hq Hfile.
  destruct (inv_fs _ _ _ _ Hinv q) as [E | (_ & t' & _ & [(_ & _ & E) | [-> _]])].
  - rewrite E in Hfile. by eapply Hfree.
  - congruence.
  - by destruct (path_of_not_prefix out t' t).
Qed.

Lemma pool_inv_init : pool_inv out tasks w0 (Pool w0 (replicate (length tasks) Pending) []).
Proof.
  split; cbn [p_world p_futures p_completed].
  - apply length_replicate.
  - done.
  - done.
  - intros p. by left.
  - exists []. split; [by rewrite app_nil_r|]. split; [by intros e ?%elem_of_nil|].
    intros i t Ht. exists Queued. 
    destruct t as [[[[s z] x] y] d]. cbn. repeat split; try done.
    apply lookup_replicate_2. by eapply lookup_lt_Some.
Qed.

Lemma pool_inv_advance (st : pool) (i : nat) :
  pool_inv out tasks w0 st → pool_inv out tasks w0 (advance out tasks st i).
Proof.
  intros Hinv.
  destruct (tasks !! i) as [t|] eqn:Ht.
  2: { assert (p_futures st !! i = None) as Hf.
       { apply lookup_ge_None. rewrite (inv_length _ _ _ _ Hinv). by apply lookup_ge_None. }
       unfold advance. by rewrite Hf. }
  destruct (inv_trace _ _ _ _ Hinv) as (tr & Htr & Hlt & Hall).
  destruct (Hall i t Ht) as (σ & Hf & Hok & Hops).
  destruct (is_done σ) eqn:Hd.
  { destruct σ; try done. unfold advance. rewrite Hf.
    destruct t as [[[[s z] x] y] d]. done. }
  assert (Hin : t ∈ tasks) by by eapply list_elem_of_lookup_2.
  destruct (advance_spec out (w_fs w0) (w_net w0) tasks st i t σ) as (fs' & -> & Hok' & Hg);
    try done.
  { apply (inv_net _ _ _ _ Hinv). }
  { by apply unblocked_now. }
  assert (Hi : (i < length tasks)%nat) by by eapply lookup_lt_Some.
  split; cbn [update p_world p_futures p_completed w_fs w_net w_stdin w_trace].
  - rewrite length_insert. apply (inv_length _ _ _ _ Hinv).
  - apply (inv_net _ _ _ _ Hinv).
  - apply (inv_stdin _ _ _ _ Hinv).
  - intros p. destruct (Hg p) as [E | (HN & Hnew)].
    + rewrite E. apply (inv_fs _ _ _ _ Hinv).
    + right. split.
      * destruct (inv_fs _ _ _ _ Hinv p) as [E | (? & _)]; [congruence | done].
      * exists t. split; [done|]. destruct Hnew as [(? & ? & ?) | [? ?]]; [left | right]; done.
  - exists (tr ++ ((i,.) <$> stage_op out t σ)). split; [by rewrite Htr, app_assoc|]. split.
    { intros e [He | He]%elem_of_app; [by apply Hlt|].
      apply list_elem_of_fmap in He as (o & -> & _). done. }
    intros k t' Ht'. destruct (decide (k = i)) as [-> | Hne].
    + assert (t' = t) as -> by congruence.
      exists (next_stage (w_fs w0) (w_net w0) out t σ). split; [|split].
      * apply list_lookup_insert_eq. by rewrite (inv_length _ _ _ _ Hinv).
      * done.
      * rewrite ops_of_app, ops_of_own, Hops. symmetry. by eapply stage_trace_next.
    + destruct (Hall k t' Ht') as (σ' & Hf' & Hok'' & Hops').
      exists σ'. split; [|split].
      * by rewrite list_lookup_insert_ne.
      * eapply stage_ok_stable; [done | done |]. by eapply paths_distinct.
      * rewrite ops_of_app, ops_of_other, app_nil_r by done. done.
Qed.

Lemma pool_inv_step (max_workers : Z) (st : pool) (i : nat) :
  pool_inv out tasks w0 st → pool_inv out tasks w0 (pool_step out max_workers tasks st i).
Proof.
  intros Hinv. unfold pool_step. destruct (runnable _ _ _); [|done].
  by apply pool_inv_advance.
Qed.

Lemma pool_inv_steps (max_workers : Z) (sched : list nat) (st : pool) :
  pool_inv out tasks w0 st →
  pool_inv out tasks w0 (foldl (pool_step out max_workers tasks) st sched).
Proof.
  revert st. induction sched as [|i sched IH]; intros st Hinv; [done|].
  cbn [foldl]. by apply IH, pool_inv_step.
Qed.

End Invariant.

(** ** Bookkeeping of the pool *)

Section Book.
Context (out : path) (tasks : list task).

Lemma pool_book_init (w : world) : pool_book tasks (Pool w (replicate (length tasks) Pending) []).
Proof.
  split; cbn [p_futures p_completed].
  - apply length_replicate.
  - apply NoDup_nil_2.
  - intros i. split; [by intros ?%elem_of_nil|].
    intros [r Hr]. apply lookup_replicate in Hr as [? _]. done.
Qed.

Lemma pool_book_update (st : pool) (i : nat) (f0 f : future) (w : world) :
  pool_book tasks st → p_futures st !! i = Some f0 → is_finished f0 = false →
  pool_book tasks (update i f w st).
Proof.
  intros [Hlen Hnd Hc] Hf0 Hnf.
  assert (Hi : (i < length (p_futures st))%nat) by by eapply lookup_lt_Some.
  assert (Hnotin : i ∉ p_completed st).
  { rewrite Hc. intros [r Hr]. rewrite Hr in Hf0. by injection Hf0 as <-. }
  split; cbn [update p_futures p_completed].
  - by rewrite length_insert.
  - destruct (is_finished f); [|done].
    apply NoDup_app. split; [done|]. split; [|apply NoDup_singleton].
    by intros k Hk ->%list_elem_of_singleton.
  - intros k. destruct (decide (k = i)) as [-> | Hne].
    + rewrite list_lookup_insert_eq by done.
      destruct f; cbn [is_finished].
      * split; [by intros ?%Hnotin | by intros [? ?]].
      * split; [by intros ?%Hnotin | by intros [? ?]].
      * split; [by eauto|]. intros _. apply elem_of_app. right. by apply list_elem_of_singleton.
    + rewrite list_lookup_insert_ne by done. rewrite <- Hc.
      destruct (is_finished f); [|done].
      rewrite elem_of_app, list_elem_of_singleton. split; [by intros [? | ?] | by left].
Qed.

Lemma pool_book_advance (st : pool) (i : nat) :
  pool_book tasks st → pool_book tasks (advance out tasks st i).
Proof.
  intros Hb. unfold advance.
  destruct (p_futures st !! i) as [[|p|r]|] eqn:Hf; [| |done|done].
  - destruct (tasks !! i); [|done]. by eapply pool_book_update.
  - destruct p as [a|e|X a k]; [done|done|].
    destruct (exec i a (p_world st)) as [[e|v] w]; by eapply pool_book_update.
Qed.

Lemma pool_book_steps (max_workers : Z) (sched : list nat) (st : pool) :
  pool_book tasks st → pool_book tasks (foldl (pool_step out max_workers tasks) st sched).
Proof.
  revert st. induction sched as [|i sched IH]; intros st Hb; [done|].
  cbn [foldl]. apply IH. unfold pool_step. destruct (runnable _ _ _); [|done].
  by apply pool_book_advance.
Qed.

Lemma finish_one_finished (st : pool) (i : nat) :
  pool_book tasks st → (i < length tasks)%nat →
  ∃ r, p_futures (finish_one out tasks st i) !! i = Some (Finished r).
Proof.
  intros Hb Hi. unfold finish_one.
  assert (Hi' : (i < length (p_futures st))%nat) by by rewrite (book_length _ _ Hb).
  destruct (lookup_lt_is_Some_2 _ _ Hi') as [f Hf]. rewrite Hf.
  destruct (lookup_lt_is_Some_2 _ _ Hi) as [t Ht].
  destruct f as [|p|r].
  - rewrite Ht. destruct (run i (submit out t) (p_world st)) as [r w].
    exists r. cbn. by apply list_lookup_insert_eq.
  - destruct (run i p (p_world st)) as [r w].
    exists r. cbn. by apply list_lookup_insert_eq.
  - by exists r.
Qed.

Lemma finish_one_other (st : pool) (i k : nat) :
  i ≠ k → p_futures (finish_one out tasks st i) !! k = p_futures st !! k.
Proof.
  intros Hne. unfold finish_one.
  destruct (p_futures st !! i) as [[|p|r]|]; [| |done|done].
  - destruct (tasks !! i); [|done].
    destruct (run i _ (p_world st)) as [r w]. cbn. by apply list_lookup_insert_ne.
  - destruct (run i p (p_world st)) as [r w]. cbn. by apply list_lookup_insert_ne.
Qed.

Lemma pool_book_finish_one (st : pool) (i : nat) :
  pool_book tasks st → pool_book tasks (finish_one out tasks st i).
Proof.
  intros Hb. unfold finish_one.
  destruct (p_futures st !! i) as [[|p|r]|] eqn:Hf; [| |done|done].
  - destruct (tasks !! i); [|done].
    destruct (run i _ (p_world st)) as [r w]. by eapply pool_book_update.
  - destruct (run i p (p_world st)) as [r w]. by eapply pool_book_update.
Qed.

(** After the [with] block every future is finished. *)
Lemma finish_all_finished (l : list nat) (st : pool) :
  pool_book tasks st → (∀ i, i ∈ l → (i < length tasks)%nat) →
  let st' := foldl (finish_one out tasks) st l in
  pool_book tasks st' ∧
  ∀ i, (i ∈ l ∨ ∃ r, p_futures st !! i = Some (Finished r)) →
       ∃ r, p_futures st' !! i = Some (Finished r).
Proof.
  revert st. induction l as [|k l IH]; intros st Hb Hl; cbn [foldl].
  - split; [done|]. intros i [?%elem_of_nil | ?]; done.
  - destruct (IH (finish_one out tasks st k)) as [Hb' Hfin].
    { by apply pool_book_finish_one. }
    { intros i Hi. apply Hl. by right. }
    split; [done|]. intros i Hi. apply Hfin.
    destruct (decide (i = k)) as [-> | Hne].
    + right. apply finish_one_finished; [done|]. apply Hl. by left.
    + destruct Hi as [[-> | Hi]%elem_of_cons | Hi]; [done | by left |].
      right. by rewrite finish_one_other.
Qed.

Lemma run_pool_book (max_workers : Z) (sched : list nat) (w : world) :
  let st := run_pool out max_workers tasks sched w in
  pool_book tasks st ∧
  (∀ i, (i < length tasks)%nat → ∃ r, p_futures st !! i = Some (Finished r)) ∧
  p_completed st ≡ₚ seq 0 (length tasks).
Proof.
  unfold run_pool.
  edestruct (finish_all_finished (seq 0 (length tasks))) as [Hb Hfin].
  { apply (pool_book_steps max_workers sched), pool_book_init. }
  { intros i Hi%elem_of_seq. lia. }
  split; [exact Hb|]. split.
  - intros i Hi. apply Hfin. left. apply elem_of_seq. lia.
  - apply NoDup_Permutation; [apply (book_NoDup _ _ Hb) | apply NoDup_seq |].
    intros i. rewrite (book_completed _ _ Hb), elem_of_seq. split.
    + intros [r Hr]. apply lookup_lt_Some in Hr. rewrite (book_length _ _ Hb) in Hr. lia.
    + intros Hi. apply Hfin. left. apply elem_of_seq. lia.
Qed.

(** There are as many results as tasks. *)
Lemma results_length (max_workers : Z) (sched : list nat) (w : world) :
  length (results (run_pool out max_workers tasks sched w)) = length tasks.
Proof.
  destruct (run_pool_book max_workers sched w) as (Hb & Hfin & Hperm).
  set (st := run_pool out max_workers tasks sched w) in *.
  unfold results.
  assert (∀ l : list nat, (∀ i, i ∈ l → (i < length tasks)%nat) →
    length (omap (λ i, match p_futures st !! i with
                       | Some (Finished r) => Some r | _ => None end) l) = length l) as Hlen.
  { induction l as [|i l IH]; intros Hl; [done|]. cbn [omap list_omap].
    destruct (Hfin i) as [r ->]; [apply Hl; by left|]. cbn.
    rewrite IH; [done|]. intros k Hk. apply Hl. by right. }
  rewrite Hlen.
  - by rewrite Hperm, length_seq.
  - intros i Hi. rewrite Hperm in Hi. apply elem_of_seq in Hi. lia.
Qed.

End Book.

(** ** Waiting for the workers *)

Lemma update_update (st : pool) (i : nat) (f1 f2 : future) (w1 w2 : world) :
  is_finished f1 = false →
  update i f2 w2 (update i f1 w1 st) = update i f2 w2 st.
Proof.
  intros Hf. unfold update. rewrite Hf. cbn. by rewrite list_insert_insert_eq.
Qed.

Lemma settle_submit (out : path) (t : task) : settle (submit out t) = Running (submit out t).
Proof. by destruct t as [[[[s z] x] y] d]. Qed.

(** Running a worker to its end is taking its next step and then running
    it to its end. *)
Lemma finish_one_advance (out : path) (tasks : list task) (st : pool) (i : nat) :
  finish_one out tasks (advance out tasks st i) i = finish_one out tasks st i.
Proof.
  unfold advance.
  destruct (p_futures st !! i) as [[|p|r]|] eqn:Hf; [| |done|done].
  - destruct (tasks !! i) as [t|] eqn:Ht; [|done].
    rewrite settle_submit. unfold finish_one at 1. cbn [update p_futures p_world].
    rewrite list_lookup_insert_eq by by eapply lookup_lt_Some.
    unfold finish_one. rewrite Hf, Ht.
    destruct (run i (submit out t) (p_world st)) as [r w].
    by rewrite update_update.
  - destruct p as [a|e|X a k]; [done|done|].
    unfold finish_one at 2. rewrite Hf. cbn [run].
    destruct (exec i a (p_world st)) as [[e|v] w].
    + unfold finish_one. cbn [update p_futures].
      by rewrite list_lookup_insert_eq by by eapply lookup_lt_Some.
    + unfold finish_one. cbn [update p_futures p_world].
      rewrite list_lookup_insert_eq by by eapply lookup_lt_Some.
      destruct (k v) as [a'|e'|X' a' k'] eqn:Hk; cbn [settle is_finished run]; [done|done|].
      destruct (exec i a' w) as [[e''|v'] w'].
      * by rewrite update_update.
      * destruct (run i (k' v') w') as [r w'']. by rewrite update_update.
Qed.

Lemma rank_next (fs0 : gmap path node) (net : string → reply) (out : path) (t : task)
    (σ : stage) :
  is_done σ = false → (rank σ < rank (next_stage fs0 net out t σ))%nat.
Proof.
  destruct t as [[[[s z] x] y] d]. destruct σ; cbn; try done; try lia.
  - destruct (path_exists _ _); [cbn; lia|]. destruct (tile_url _ _ _ _); cbn; lia.
  - destruct (Qle_bool _ _); cbn; lia.
  - destruct (net _); cbn; lia.
Qed.

Section Finish.
Context (out : path) (tasks : list task) (w0 : world).
Hypothesis Hdistinct : NoDup (path_of out <$> tasks).
Hypothesis Hfree : ∀ t, t ∈ tasks → unblocked (w_fs w0) (dir_of out t).

Lemma pool_inv_finish_one (st : pool) (i : nat) :
  pool_inv out tasks w0 st → pool_inv out tasks w0 (finish_one out tasks st i).
Proof.
  intros Hinv.
  destruct (tasks !! i) as [t|] eqn:Ht.
  2: { assert (p_futures st !! i = None) as Hf.
       { apply lookup_ge_None. rewrite (inv_length _ _ _ _ Hinv). by apply lookup_ge_None. }
       unfold finish_one. by rewrite Hf. }
  destruct (inv_trace _ _ _ _ Hinv) as (tr & _ & _ & Hall).
  destruct (Hall i t Ht) as (σ & Hf & Hok & _). clear tr Hall.
  remember (6 - rank σ)%nat as n eqn:Hn.
  assert (Hle : (6 - rank σ <= n)%nat) by lia. clear Hn.
  revert st σ Hinv Hf Hok Hle. induction n as [|n IH]; intros st σ Hinv Hf Hok Hle.
  - destruct σ; cbn in Hle; try lia.
    unfold finish_one. rewrite Hf. by destruct t as [[[[s z] x] y] d].
  - destruct (is_done σ) eqn:Hd.
    { destruct σ; try done. unfold finish_one. rewrite Hf.
      by destruct t as [[[[s z] x] y] d]. }
    rewrite <- finish_one_advance.
    pose proof (pool_inv_advance out tasks w0 Hdistinct Hfree st i Hinv) as Hinv'.
    destruct (advance_spec out (w_fs w0) (w_net w0) tasks st i t σ) as (fs' & E & Hok' & _);
      try done.
    { apply (inv_net _ _ _ _ Hinv). }
    { apply (unblocked_now out tasks w0 Hfree); [done|]. by eapply list_elem_of_lookup_2. }
    apply (IH _ (next_stage (w_fs w0) (w_net w0) out t σ)); [done | | |].
    + rewrite E. cbn [update p_futures]. apply list_lookup_insert_eq.
      by eapply lookup_lt_Some.
    + by rewrite E.
    + pose proof (rank_next (w_fs w0) (w_net w0) out t σ Hd). lia.
Qed.

Lemma pool_inv_finish (l : list nat) (st : pool) :
  pool_inv out tasks w0 st → pool_inv out tasks w0 (foldl (finish_one out tasks) st l).
Proof.
  revert st. induction l as [|i l IH]; intros st Hinv; [done|].
  cbn [foldl]. by apply IH, pool_inv_finish_one.
Qed.

(** Whatever the scheduler does, the pool ends with every call finished with
    the result it has when run alone from the initial disk. *)
Lemma run_pool_spec (max_workers : Z) (sched : list nat) :
  let st := run_pool out max_workers tasks sched w0 in
  pool_inv out tasks w0 st ∧
  ∀ i t, tasks !! i = Some t →
    p_futures st !! i = Some (Finished (outcome (w_fs w0) (w_net w0) out t)) ∧
    stage_ok (w_fs w0) (w_net w0) out (w_fs (p_world st)) t
      (Done (outcome (w_fs w0) (w_net w0) out t)).
Proof.
  intros st.
  assert (Hinv : pool_inv out tasks w0 st).
  { apply pool_inv_finish, pool_inv_steps; [done | done |]. apply pool_inv_init. }
  split; [done|]. intros i t Ht.
  destruct (run_pool_book out tasks max_workers sched w0) as (_ & Hfin & _).
  destruct (Hfin i) as [r Hr]; [by eapply lookup_lt_Some|]. fold st in Hr.
  destruct (inv_trace _ _ _ _ Hinv) as (tr & _ & _ & Hall).
  destruct (Hall i t Ht) as (σ & Hf & Hok & _).
  rewrite Hr in Hf. injection Hf as Hf. symmetry in Hf.
  apply future_of_finished in Hf as ->.
  destruct t as [[[[s z] x] y] d]. destruct Hok as (Hm & -> & Hp).
  split; [done|]. by split.
Qed.

End Finish.

(** ** Aggregation *)

Lemma count_result_total (c c' : counters) (r : exn + result) :
  count_result c r = inr c' → counted c' = counted c + 1.
Proof.
  unfold count_result, counted. destruct r as [e|[[] m]]; [done| |].
  - destruct (contains _ m); intros [= <-]; cbn; lia.
  - intros [= <-]. cbn. lia.
Qed.

(** After each completion the three counters add up to the number of
    completions processed. *)
Lemma aggregate_total (rs : list (exn + result)) (c c' : counters) :
  aggregate c rs = inr c' → counted c' = counted c + Z.of_nat (length rs).
Proof.
  revert c. induction rs as [|r rs IH]; intros c; cbn [aggregate length].
  - intros [= <-]. lia.
  - destruct (count_result c r) as [e|c1] eqn:E; [done|].
    intros H%IH. apply count_result_total in E. lia.
Qed.

Lemma aggregate_prefix (rs1 rs2 : list (exn + result)) (c c' : counters) :
  aggregate c (rs1 ++ rs2) = inr c' → ∃ c1, aggregate c rs1 = inr c1.
Proof.
  revert c. induction rs1 as [|r rs1 IH]; intros c; cbn [aggregate app]; [by eauto|].
  destruct (count_result c r) as [e|c1]; [done|]. apply IH.
Qed.

Lemma count_cons (P : (exn + result) → bool) (r : exn + result) (rs : list (exn + result)) :
  count P (r :: rs) = (if P r then 1 else 0) + count P rs.
Proof.
  unfold count. destruct (P r) eqn:E.
  - rewrite filter_cons_True by done. cbn [length]. lia.
  - rewrite filter_cons_False by congruence. lia.
Qed.

Lemma count_Permutation (P : (exn + result) → bool) (rs1 rs2 : list (exn + result)) :
  rs1 ≡ₚ rs2 → count P rs1 = count P rs2.
Proof. intros H. unfold count. by rewrite H. Qed.

Lemma aggregate_counts (rs : list (exn + result)) (c : counters) :
  Forall (λ r, is_raised r = false) rs →
  aggregate c rs
  = inr (Counters (downloaded c + count is_downloaded rs) (failed c + count is_failed rs)
                  (skipped c + count is_skipped rs)).
Proof.
  intros H. revert c. induction H as [|r rs Hr _ IH]; intros c.
  - cbn. unfold count. cbn. rewrite !Z.add_0_r. by destruct c.
  - cbn [aggregate]. rewrite !count_cons.
    destruct r as [e|[[] m]]; [done| |]; cbn [count_result is_downloaded is_failed is_skipped].
    + destruct (contains _ m); cbn [negb]; rewrite IH; cbn [downloaded failed skipped].
      all: by rewrite ?Z.add_0_l, ?Z.add_assoc.
    + rewrite IH. cbn [downloaded failed skipped]. by rewrite ?Z.add_0_l, ?Z.add_assoc.
Qed.

Lemma aggregate_raised (rs : list (exn + result)) (c : counters) (e : exn) :
  aggregate c rs = inl e → inl e ∈ rs.
Proof.
  revert c. induction rs as [|r rs IH]; intros c; cbn [aggregate]; [done|].
  destruct (count_result c r) as [e'|c1] eqn:E.
  - intros [= <-]. destruct r as [e''|[[] m]]; cbn in E.
    + injection E as ->. by left.
    + by destruct (contains _ m).
    + done.
  - intros H%IH. by right.
Qed.

Lemma aggregate_is_raised (rs : list (exn + result)) (c : counters) :
  Exists (λ r, is_raised r = true) rs → ∃ e, aggregate c rs = inl e.
Proof.
  intros H. revert c. induction H as [r rs Hr | r rs _ IH]; intros c; cbn [aggregate].
  - destruct r as [e|]; [|done]. by exists e.
  - destruct (count_result c r) as [e|c1]; [by exists e | apply IH].
Qed.

(** ** The results of the pool *)

Lemma omap_ext_in {A B : Type} (f g : A → option B) (l : list A) :
  (∀ x, x ∈ l → f x = g x) → omap f l = omap g l.
Proof.
  intros H. apply list_omap_ext, Forall2_same_length_lookup. split; [done|].
  intros i x1 x2 H1 H2. assert (x1 = x2) as -> by congruence.
  apply H. by eapply list_elem_of_lookup_2.
Qed.

Lemma omap_seq_lookup {A B : Type} (h : A → option B) (l : list A) :
  omap (λ i, l !! i ≫= h) (seq 0 (length l)) = omap h l.
Proof.
  induction l as [|x l IH] using rev_ind; [done|].
  rewrite length_app. cbn [length]. rewrite Nat.add_1_r, seq_S, !omap_app. cbn [seq].
  f_equal.
  - rewrite <- IH. apply omap_ext_in. intros i Hi%elem_of_seq.
    rewrite lookup_app_l; [done | lia].
  - cbn. by rewrite list_lookup_middle.
Qed.

Lemma results_Permutation (out : path) (tasks : list task) (max_workers : Z)
    (sched : list nat) (w : world) (f : task → exn + result) :
  let st := run_pool out max_workers tasks sched w in
  (∀ i t, tasks !! i = Some t → p_futures st !! i = Some (Finished (f t))) →
  results st ≡ₚ f <$> tasks.
Proof.
  intros st Hf.
  destruct (run_pool_book out tasks max_workers sched w) as (Hb & _ & Hperm). fold st in Hb, Hperm.
  set (h := λ x : future, match x with Finished r => Some r | _ => None end).
  assert (Hres : results st = omap (λ i, p_futures st !! i ≫= h) (p_completed st)).
  { unfold results. apply omap_ext_in. intros i _.
    by destruct (p_futures st !! i) as [[]|]. }
  rewrite Hres, Hperm, <- (book_length _ _ Hb), omap_seq_lookup.
  assert (p_futures st = (λ t, Finished (f t)) <$> tasks) as ->.
  { apply list_eq. intros i. rewrite list_lookup_fmap.
    destruct (tasks !! i) as [t|] eqn:Ht; cbn.
    - by apply Hf.
    - apply lookup_ge_None. rewrite (book_length _ _ Hb). by apply lookup_ge_None. }
  clear. induction tasks as [|t l IH]; [done|]. cbn. by rewrite IH.
Qed.

(** ** [download_area] *)

Lemma elem_of_ops_of (i : nat) (o : op) (tr : list (nat * op)) :
  (i, o) ∈ tr → o ∈ ops_of i tr.
Proof.
  intros H. unfold ops_of. apply list_elem_of_fmap. exists (i, o). split; [done|].
  by apply list_elem_of_filter.
Qed.

Lemma tree_ok_ancestors (fs : gmap path node) (p q : path) :
  tree_ok fs → is_Some (fs !! p) → q ≠ [] → q `prefix_of` p → q ≠ p → fs !! q = Some Dir.
Proof.
  intros Htree Hp Hq [k ->]. revert Hp.
  induction k as [|name k IH] using rev_ind; intros Hp Hne.
  - by rewrite app_nil_r in Hne.
  - rewrite app_assoc in Hp.
    assert (fs !! (q ++ k) = Some Dir) as Hd.
    { apply (Htree _ name); [|done]. by destruct q. }
    destruct k as [|c k] using rev_ind; [by rewrite app_nil_r in Hd|].
    apply IH; [by rewrite Hd|]. intros E. apply (f_equal length) in E.
    rewrite !length_app in E. cbn in E. lia.
Qed.

(** On a tree-shaped disk, a tile that exists has its directory. *)
Lemma made_of_exists (fs : gmap path node) (out : path) (t : task) :
  tree_ok fs → path_exists fs (path_of out t) = true → made fs (dir_of out t).
Proof.
  intros Htree Hp q Hq Hpre.
  apply (tree_ok_ancestors fs (path_of out t)); [done | | done | |].
  - unfold path_exists in Hp. by destruct (fs !! path_of out t).
  - destruct (path_of_dir_of out t) as [name ->]. by apply prefix_app_r.
  - intros ->. by destruct (path_of_not_prefix out t t).
Qed.

Lemma made_unblocked (fs : gmap path node) (dir : path) : made fs dir → unblocked fs dir.
Proof. intros Hm q c Hq Hpre. by rewrite (Hm q Hq Hpre). Qed.

Lemma count_fmap_all {A : Type} (P : (exn + result) → bool) (f : A → exn + result)
    (l : list A) :
  (∀ x, x ∈ l → P (f x) = true) → count P (f <$> l) = Z.of_nat (length l).
Proof.
  induction l as [|x l IH]; intros H; [done|]. cbn [fmap list_fmap].
  rewrite count_cons, H, IH; [cbn [length]; lia | | by left].
  intros y Hy. apply H. by right.
Qed.

Lemma count_fmap_none {A : Type} (P : (exn + result) → bool) (f : A → exn + result)
    (l : list A) :
  (∀ x, x ∈ l → P (f x) = false) → count P (f <$> l) = 0.
Proof.
  induction l as [|x l IH]; intros H; [done|]. cbn [fmap list_fmap].
  rewrite count_cons, H, IH; [done | | by left].
  intros y Hy. apply H. by right.
Qed.

Lemma count_fmap_filter {A : Type} (P : (exn + result) → bool) (Q : A → bool)
    (f : A → exn + result) (l : list A) :
  (∀ x, x ∈ l → P (f x) = Q x) →
  count P (f <$> l) = Z.of_nat (length (filter (λ x, Q x = true) l)).
Proof.
  induction l as [|x l IH]; intros H; [done|]. cbn [fmap list_fmap].
  rewrite count_cons, H, IH; [| | by left].
  - destruct (Q x) eqn:E.
    + rewrite filter_cons_True by done. cbn [length]. lia.
    + rewrite filter_cons_False by congruence. lia.
  - intros y Hy. apply H. by right.
Qed.

Lemma is_skipped_skipped_result (s : string) (z x y : Z) :
  is_skipped (inr (skipped_result s z x y)) = true.
Proof. reflexivity. Qed.

Lemma is_downloaded_skipped_result (s : string) (z x y : Z) :
  is_downloaded (inr (skipped_result s z x y)) = false.
Proof. reflexivity. Qed.

Section DownloadArea.
Context (out : path) (sched : list nat).
Context (lat_min lon_min lat_max lon_max : R) (zoom_min zoom_max : Z).
Context (source_type : string) (max_workers : Z) (delay : Q).

Let tasks : list task :=
  (enumerate lat_min lon_min lat_max lon_max zoom_min zoom_max source_type delay).1.
Let total_tiles : Z :=
  (enumerate lat_min lon_min lat_max lon_max zoom_min zoom_max source_type delay).2.

Lemma tasks_covering :
  tasks = covering lat_min lon_min lat_max lon_max zoom_min zoom_max source_type delay.
Proof. unfold tasks. by rewrite enumerate_covering. Qed.

Lemma total_tiles_length : total_tiles = Z.of_nat (length tasks).
Proof. unfold total_tiles, tasks. by rewrite enumerate_covering. Qed.

Lemma tasks_source (t : task) :
  t ∈ tasks → ∃ zoom x y, t = (source_type, zoom, x, y, delay).
Proof.
  rewrite tasks_covering. intros (zoom & x & y & -> & _)%elem_of_covering. eauto.
Qed.

Lemma tasks_paths_distinct : NoDup (path_of out <$> tasks).
Proof.
  apply NoDup_fmap_2_strong; [|rewrite tasks_covering; apply NoDup_covering].
  intros t1 t2 (z1 & x1 & y1 & ->)%tasks_source (z2 & x2 & y2 & ->)%tasks_source H.
  cbn [path_of] in H. apply tile_path_inj in H as (-> & -> & ->). done.
Qed.

(** The pool of the run, once the prompt is passed. *)
Let pool_of (w : world) : pool :=
  run_pool out max_workers tasks sched (after_prompt total_tiles w).

Let summary_of (w : world) : (exn + option counters) * world :=
  match aggregate (Counters 0 0 0) (results (pool_of w)) with
  | inl e => (inl e, p_world (pool_of w))
  | inr c => (inr (Some c), p_world (pool_of w))
  end.

Lemma download_area_cases (w : world) :
  let run := download_area out sched lat_min lon_min lat_max lon_max zoom_min zoom_max
               source_type max_workers delay w in
  (1000 < total_tiles ∧ w_stdin w = [] ∧ run = (inl EOFError, w)) ∨
  (1000 < total_tiles ∧ ∃ response rest, w_stdin w = response :: rest ∧
     confirms response = false ∧ run = (inr None, set_stdin rest w)) ∨
  (confirmed total_tiles w ∧ max_workers <= 0 ∧
     run = (inl (ValueError "max_workers must be greater than 0"), after_prompt total_tiles w)) ∨
  (confirmed total_tiles w ∧ 0 < max_workers ∧ run = summary_of w).
Proof.
  unfold download_area, summary_of, pool_of, after_prompt, confirmed.
  fold tasks total_tiles.
  destruct (enumerate _ _ _ _ _ _ _ _) as [ts n] eqn:E. cbn [fst snd] in *.
  subst tasks total_tiles. cbn [fst snd].
  destruct (1000 <? n) eqn:Hn; [apply Z.ltb_lt in Hn | apply Z.ltb_ge in Hn].
  - unfold input. destruct (w_stdin w) as [|response rest] eqn:Hin.
    { left. done. }
    destruct (confirms response) eqn:Hc.
    + right; right. cbn [tail].
      destruct (max_workers <=? 0) eqn:Hw; [apply Z.leb_le in Hw | apply Z.leb_gt in Hw].
      * left. split; [right; eauto|]. done.
      * right. split; [right; eauto|]. split; [lia|].
        by destruct (aggregate _ _).
    + right; left. split; [done|]. exists response, rest. done.
  - right; right.
    destruct (max_workers <=? 0) eqn:Hw; [apply Z.leb_le in Hw | apply Z.leb_gt in Hw].
    + left. split; [by left|]. done.
    + right. split; [by left|]. split; [lia|]. by destruct (aggregate _ _).
Qed.

Lemma download_area_proceeds (w : world) :
  confirmed total_tiles w → 0 < max_workers →
  download_area out sched lat_min lon_min lat_max lon_max zoom_min zoom_max
    source_type max_workers delay w = summary_of w.
Proof.
  intros Hc Hw.
  destruct (download_area_cases w) as [(Hn & Hin & _) | [(Hn & r & rest & Hin & Hr & _) |
    [(_ & ? & _) | (_ & _ & ->)]]]; [| | lia | done].
  - destruct Hc as [? | (r & rest & ? & _)]; [lia | congruence].
  - destruct Hc as [? | (r' & rest' & ? & ?)]; [lia | congruence].
Qed.

Lemma after_prompt_fs (w : world) : w_fs (after_prompt total_tiles w) = w_fs w.
Proof. unfold after_prompt. by destruct (1000 <? total_tiles). Qed.
Lemma after_prompt_net (w : world) : w_net (after_prompt total_tiles w) = w_net w.
Proof. unfold after_prompt. by destruct (1000 <? total_tiles). Qed.
Lemma after_prompt_trace (w : world) : w_trace (after_prompt total_tiles w) = w_trace w.
Proof. unfold after_prompt. by destruct (1000 <? total_tiles). Qed.

(** *** The counters *)

(** Whenever [download_area] prints a summary, its counters add up to the
    number of enumerated tiles. *)
Lemma download_area_counted (w : world) (c : counters) (w' : world) :
  download_area out sched lat_min lon_min lat_max lon_max zoom_min zoom_max
    source_type max_workers delay w = (inr (Some c), w') →
  counted c = total_tiles.
Proof.
  intros Hrun.
  destruct (download_area_cases w) as [(_ & _ & E) | [(_ & r & rest & _ & _ & E) |
    [(_ & _ & E) | (_ & _ & E)]]]; rewrite E in Hrun; try done.
  unfold summary_of in Hrun.
  destruct (aggregate _ _) as [e|c'] eqn:Ha; [done|]. injection Hrun as -> _.
  apply aggregate_total in Ha. rewrite Ha. unfold pool_of.
  rewrite results_length, total_tiles_length. done.
Qed.

(** A worker of a known source with a non-negative delay, on a disk where
    its directory can be created, returns one of the three outcomes. *)
Lemma outcome_not_raised (fs0 : gmap path node) (net : string → reply) (t : task) :
  is_Some (TILE_SOURCES !! source_type) → Qle_bool 0 delay = true → t ∈ tasks →
  is_raised (outcome fs0 net out t) = false.
Proof.
  intros Hs Hd (zoom & x & y & ->)%tasks_source. cbn [outcome].
  destruct (path_exists _ _); [done|].
  destruct (tile_url_is_Some source_type zoom x y Hs) as [url ->].
  rewrite Hd. by destruct (net url).
Qed.

Lemma pool_of_spec (w : world) :
  (∀ t, t ∈ tasks → unblocked (w_fs w) (dir_of out t)) →
  ∃ tr,
    w_trace (p_world (pool_of w)) = w_trace w ++ tr ∧
    (∀ i o, (i, o) ∈ tr →
       ∃ t, tasks !! i = Some t ∧ o ∈ solo_trace (w_fs w) (w_net w) out t) ∧
    (∀ i t, tasks !! i = Some t →
       ops_of i tr = solo_trace (w_fs w) (w_net w) out t ∧
       stage_ok (w_fs w) (w_net w) out (w_fs (p_world (pool_of w))) t
         (Done (outcome (w_fs w) (w_net w) out t))) ∧
    results (pool_of w) ≡ₚ outcome (w_fs w) (w_net w) out <$> tasks ∧
    (∀ p, w_fs (p_world (pool_of w)) !! p = w_fs w !! p ∨
          (w_fs w !! p = None ∧
           ∃ t, t ∈ tasks ∧
             ((p ≠ [] ∧ p `prefix_of` dir_of out t ∧
               w_fs (p_world (pool_of w)) !! p = Some Dir) ∨
              (p = path_of out t ∧
               ∃ body, w_fs (p_world (pool_of w)) !! p = Some (File body))))).
Proof.
  intros Hfree.
  destruct (run_pool_spec out tasks (after_prompt total_tiles w) tasks_paths_distinct)
    with (max_workers := max_workers) (sched := sched) as [Hinv Hout].
  { intros t Ht. rewrite after_prompt_fs. by apply Hfree. }
  fold (pool_of w) in Hinv, Hout.
  destruct (inv_trace _ _ _ _ Hinv) as (tr & Htr & Hlt & Hall).
  pose proof (inv_fs _ _ _ _ Hinv) as Hfs.
  rewrite after_prompt_fs, after_prompt_net in *. rewrite after_prompt_trace in Htr.
  assert (Hops : ∀ i t, tasks !! i = Some t →
            ops_of i tr = solo_trace (w_fs w) (w_net w) out t).
  { intros i t Ht. destruct (Hall i t Ht) as (σ & Hf & _ & Hops).
    destruct (Hout i t Ht) as [Hr _]. rewrite Hr in Hf. injection Hf as Hf.
    symmetry in Hf. apply future_of_finished in Hf as ->.
    rewrite Hops. by destruct t as [[[[s z] x] y] d]. }
  exists tr. split; [done|]. split; [|split; [|split]].
  - intros i o Hio. pose proof (Hlt _ Hio) as Hi. cbn in Hi.
    destruct (lookup_lt_is_Some_2 _ _ Hi) as [t Ht]. exists t. split; [done|].
    rewrite <- (Hops i t Ht). by apply elem_of_ops_of.
  - intros i t Ht. split; [by apply Hops|]. by destruct (Hout i t Ht).
  - apply results_Permutation. intros i t Ht. by destruct (Hout i t Ht).
  - done.
Qed.

Lemma summary_exists (w : world) :
  is_Some (TILE_SOURCES !! source_type) → Qle_bool 0 delay = true →
  0 < max_workers → confirmed total_tiles w →
  (∀ t, t ∈ tasks → unblocked (w_fs w) (dir_of out t)) →
  ∃ c w',
    download_area out sched lat_min lon_min lat_max lon_max zoom_min zoom_max
      source_type max_workers delay w = (inr (Some c), w').
Proof.
  intros Hs Hd Hw Hc Hfree.
  destruct (pool_of_spec w Hfree) as (tr & _ & _ & _ & Hperm & _).
  assert (Hall : Forall (λ r, is_raised r = false) (results (pool_of w))).
  { rewrite Hperm. apply Forall_fmap, Forall_forall. intros t Ht. cbn.
    by apply outcome_not_raised. }
  pose proof (aggregate_counts _ (Counters 0 0 0) Hall) as Ha.
  rewrite download_area_proceeds by done. unfold summary_of. rewrite Ha. by eauto.
Qed.

(** C5: after each completion the loop of [download_area] processes, the
    three counters add up to the number of completions processed so far;
    whenever the summary is printed they add up to the number of enumerated
    tiles; and the summary is printed, every task having one of the three
    outcomes, for a known source, a non-negative delay, at least one worker,
    a confirmed job and a disk on which the tile directories can be
    created. *)
Theorem counters_add_up (w : world) :
  (∀ k ck, aggregate (Counters 0 0 0) (take k (results (pool_of w))) = inr ck →
           counted ck = Z.of_nat (k `min` length tasks)) ∧
  (∀ c w',
     download_area out sched lat_min lon_min lat_max lon_max zoom_min zoom_max
       source_type max_workers delay w = (inr (Some c), w') →
     counted c = total_tiles ∧ total_tiles = Z.of_nat (length tasks)) ∧
  (is_Some (TILE_SOURCES !! source_type) → Qle_bool 0 delay = true →
   0 < max_workers → confirmed total_tiles w →
   (∀ t, t ∈ tasks → unblocked (w_fs w) (dir_of out t)) →
   ∃ c w',
     download_area out sched lat_min lon_min lat_max lon_max zoom_min zoom_max
       source_type max_workers delay w = (inr (Some c), w')).
Proof.
  split; [|split].
  - intros k ck Hck. apply aggregate_total in Hck.
    rewrite Hck, length_take. unfold pool_of. rewrite results_length.
    unfold counted. cbn [downloaded skipped failed]. lia.
  - intros c w' Hrun. split; [by eapply download_area_counted | apply total_tiles_length].
  - apply summary_exists.
Qed.

(** *** The prompt *)

(** C6: a job of more than 1000 tiles reads an answer from the console
    before anything else; with no answer or another answer than yes the
    call ends with the disk and the trace as they were, and whenever the
    disk or the trace has changed a confirming answer was read. *)
Theorem large_job_needs_confirmation (w : world) :
  1000 < total_tiles →
  let run := download_area out sched lat_min lon_min lat_max lon_max zoom_min zoom_max
               source_type max_workers delay w in
  (w_stdin w = [] → run = (inl EOFError, w)) ∧
  (∀ response rest, w_stdin w = response :: rest → confirms response = false →
     run = (inr None, set_stdin rest w) ∧
     w_fs run.2 = w_fs w ∧ w_trace run.2 = w_trace w) ∧
  (w_fs run.2 ≠ w_fs w ∨ w_trace run.2 ≠ w_trace w →
     ∃ response rest, w_stdin w = response :: rest ∧ confirms response = true).
Proof.
  intros Hn run.
  destruct (download_area_cases w) as [(_ & Hin & E) | [(_ & r & rest & Hin & Hr & E) |
    [(Hc & _ & E) | (Hc & _ & E)]]]; fold run in E.
  - split; [done|]. split; [intros; congruence|].
    rewrite E. cbn. intros [? | ?]; done.
  - split; [intros; congruence|]. split.
    + intros r' rest' Hin' _. assert (rest' = rest) as -> by congruence.
      rewrite E. done.
    + rewrite E. cbn. intros [? | ?]; done.
  - destruct Hc as [? | (r & rest & Hin & Hr)]; [lia|].
    split; [intros; congruence|]. split; [intros; congruence|]. eauto.
  - destruct Hc as [? | (r & rest & Hin & Hr)]; [lia|].
    split; [intros; congruence|]. split; [intros; congruence|]. eauto.
Qed.

(** *** Running again *)

Lemma outcome_exists (fs0 : gmap path node) (net : string → reply) (t : task) :
  path_exists fs0 (path_of out t) = true →
  ∃ s z x y d, t = (s, z, x, y, d) ∧ outcome fs0 net out t = inr (skipped_result s z x y) ∧
    solo_trace fs0 net out t = [OMkdir (dir_of out t); OExists (path_of out t)].
Proof.
  destruct t as [[[[s z] x] y] d]. cbn [path_of outcome solo_trace]. intros ->.
  exists s, z, x, y, d. by rewrite app_nil_r.
Qed.

Lemma rerun_summary (w : world) :
  (∀ t, t ∈ tasks → path_exists (w_fs w) (path_of out t) = true) →
  tree_ok (w_fs w) → 0 < max_workers → confirmed total_tiles w →
  ∃ w' tr,
    download_area out sched lat_min lon_min lat_max lon_max zoom_min zoom_max
      source_type max_workers delay w
    = (inr (Some (Counters 0 0 total_tiles)), w') ∧
    w_fs w' = w_fs w ∧
    w_trace w' = w_trace w ++ tr ∧
    (∀ i d, (i, OSleep d) ∉ tr) ∧ (∀ i url, (i, OGet url) ∉ tr) ∧
    ∀ i o, (i, o) ∈ tr →
      ∃ t, tasks !! i = Some t ∧ (o = OMkdir (dir_of out t) ∨ o = OExists (path_of out t)).
Proof.
  intros Hex Htree Hw Hc.
  assert (Hmade : ∀ t, t ∈ tasks → made (w_fs w) (dir_of out t)).
  { intros t Ht. apply made_of_exists; [done|]. by apply Hex. }
  destruct (pool_of_spec w) as (tr & Htr & Hin & Hops & Hperm & Hfs).
  { intros t Ht. by apply made_unblocked, Hmade. }
  assert (Hmine : ∀ i o, (i, o) ∈ tr →
            ∃ t, tasks !! i = Some t ∧ (o = OMkdir (dir_of out t) ∨ o = OExists (path_of out t))).
  { intros i o Hio. destruct (Hin i o Hio) as (t & Ht & Ho). exists t. split; [done|].
    destruct (outcome_exists (w_fs w) (w_net w) t) as (s & z & x & y & d & _ & _ & Htrace).
    { apply Hex. by eapply list_elem_of_lookup_2. }
    rewrite Htrace in Ho. apply elem_of_cons in Ho as [-> | Ho]; [by left|].
    apply list_elem_of_singleton in Ho as ->. by right. }
  assert (Hall : Forall (λ r, is_raised r = false) (results (pool_of w))).
  { rewrite Hperm. apply Forall_fmap, Forall_forall. intros t Ht. cbn.
    destruct (outcome_exists (w_fs w) (w_net w) t (Hex t Ht)) as (s & z & x & y & d & _ & -> & _).
    done. }
  exists (p_world (pool_of w)), tr.
  rewrite download_area_proceeds by done. unfold summary_of.
  rewrite (aggregate_counts _ _ Hall).
  rewrite !(count_Permutation _ _ _ Hperm).
  rewrite (count_fmap_none is_downloaded), (count_fmap_none is_failed),
    (count_fmap_all is_skipped), <- total_tiles_length.
  - split; [done|]. split; [|split; [done|]].
    + apply map_eq. intros p.
      destruct (Hfs p) as [? | (HN & t & Ht & [(Hp & Hpre & _) | [-> _]])]; [done | |].
      * by rewrite (Hmade t Ht p Hp Hpre) in HN.
      * specialize (Hex t Ht). unfold path_exists in Hex. by rewrite HN in Hex.
    + split; [|split; [|done]].
      * intros i d Hio. destruct (Hmine _ _ Hio) as (t & _ & [? | ?]); done.
      * intros i url Hio. destruct (Hmine _ _ Hio) as (t & _ & [? | ?]); done.
  - intros t Ht.
    by destruct (outcome_exists (w_fs w) (w_net w) t (Hex t Ht)) as (s & z & x & y & d & _ & -> & _).
  - intros t Ht.
    by destruct (outcome_exists (w_fs w) (w_net w) t (Hex t Ht)) as (s & z & x & y & d & _ & -> & _).
  - intros t Ht.
    by destruct (outcome_exists (w_fs w) (w_net w) t (Hex t Ht)) as (s & z & x & y & d & _ & -> & _).
Qed.

(** C1: when the tile file of every enumerated tile is already on the
    (tree-shaped) disk, [download_area] leaves the disk as it was and no
    worker sleeps or asks a provider: every operation in the trace is the
    directory creation or the probe of some task. When the workers are run
    (at least one worker thread, job confirmed) the summary is
    downloaded = 0, skipped = total, failed = 0. *)
Theorem rerun_skips_everything (w : world) :
  (∀ t, t ∈ tasks → path_exists (w_fs w) (path_of out t) = true) →
  tree_ok (w_fs w) →
  ∃ res w' tr,
    download_area out sched lat_min lon_min lat_max lon_max zoom_min zoom_max
      source_type max_workers delay w = (res, w') ∧
    w_fs w' = w_fs w ∧
    w_trace w' = w_trace w ++ tr ∧
    (∀ i d, (i, OSleep d) ∉ tr) ∧ (∀ i url, (i, OGet url) ∉ tr) ∧
    (∀ i o, (i, o) ∈ tr →
      ∃ t, tasks !! i = Some t ∧ (o = OMkdir (dir_of out t) ∨ o = OExists (path_of out t))) ∧
    (0 < max_workers → confirmed total_tiles w →
     res = inr (Some (Counters 0 0 total_tiles))).
Proof.
  intros Hex Htree.
  assert (Hidle : ∀ res w', w_fs w' = w_fs w → w_trace w' = w_trace w →
    download_area out sched lat_min lon_min lat_max lon_max zoom_min zoom_max
      source_type max_workers delay w = (res, w') →
    (0 < max_workers → confirmed total_tiles w → False) →
    ∃ res w' tr,
      download_area out sched lat_min lon_min lat_max lon_max zoom_min zoom_max
        source_type max_workers delay w = (res, w') ∧
      w_fs w' = w_fs w ∧
      w_trace w' = w_trace w ++ tr ∧
      (∀ i d, (i, OSleep d) ∉ tr) ∧ (∀ i url, (i, OGet url) ∉ tr) ∧
      (∀ i o, (i, o) ∈ tr →
        ∃ t, tasks !! i = Some t ∧
             (o = OMkdir (dir_of out t) ∨ o = OExists (path_of out t))) ∧
      (0 < max_workers → confirmed total_tiles w →
       res = inr (Some (Counters 0 0 total_tiles)))).
  { intros res w' Hfs Htrace Hrun Hno. exists res, w', [].
    split; [done|]. split; [done|]. split; [by rewrite app_nil_r|].
    split; [by intros i d ?%elem_of_nil|]. split; [by intros i url ?%elem_of_nil|].
    split; [by intros i o ?%elem_of_nil|]. intros Hw Hc. by destruct Hno. }
  destruct (download_area_cases w) as [(Hn & Hin & E) | [(Hn & r & rest & Hin & Hr & E) |
    [(_ & Hmw & E) | (Hc & Hw & E)]]].
  - eapply Hidle; [| |exact E|]; [done | done |].
    intros _ [? | (r & rest & ? & _)]; [lia | congruence].
  - eapply Hidle; [| |exact E|]; [done | done |].
    intros _ [? | (r' & rest' & ? & ?)]; [lia | congruence].
  - eapply Hidle; [| |exact E|]; [apply after_prompt_fs | apply after_prompt_trace | lia].
  - destruct (rerun_summary w Hex Htree Hw Hc) as (w' & tr & Hrun & Hfs & Htr & Hs & Hg & Hops).
    exists (inr (Some (Counters 0 0 total_tiles))), w', tr. done.
Qed.

(** *** Failed fetches *)

Lemma fetch_fails_spec (w : world) (t : task) :
  fetch_fails w out t = true →
  ∃ s z x y d url e,
    t = (s, z, x, y, d) ∧ w_fs w !! path_of out t = None ∧
    tile_url s z x y = Some url ∧ w_net w url = Raised e ∧
    (Qle_bool 0 d = true →
       outcome (w_fs w) (w_net w) out t = inr (failed_result s z x y e) ∧
       written (w_fs w) (w_net w) out t = None ∧
       solo_trace (w_fs w) (w_net w) out t
       = [OMkdir (dir_of out t); OExists (path_of out t); OSleep d; OGet url]).
Proof.
  destruct t as [[[[s z] x] y] d]. cbn [fetch_fails path_of dir_of outcome written solo_trace].
  intros [Hp Hn]%andb_true_iff. apply negb_true_iff in Hp.
  destruct (tile_url s z x y) as [url|] eqn:Eu; [|done].
  destruct (w_net w url) as [body|e] eqn:En; [done|].
  exists s, z, x, y, d, url, e. rewrite Hp.
  split; [done|]. split; [by apply path_exists_false|]. split; [done|]. split; [done|].
  by intros ->.
Qed.

Lemma is_failed_outcome (w : world) (t : task) :
  is_Some (TILE_SOURCES !! source_type) → Qle_bool 0 delay = true → t ∈ tasks →
  is_failed (outcome (w_fs w) (w_net w) out t) = fetch_fails w out t.
Proof.
  intros Hs Hd (zoom & x & y & ->)%tasks_source. cbn [outcome fetch_fails].
  destruct (path_exists _ _); [done|].
  destruct (tile_url_is_Some source_type zoom x y Hs) as [url ->].
  rewrite Hd. by destruct (w_net w url).
Qed.

(** C4: for a known source, a non-negative delay, at least one worker, a
    confirmed job and a disk on which the tile directories can be created:
    [download_area] prints a summary that accounts for every task, whose
    [failed] counter is the number of tasks with a missing tile and a failing
    fetch; each such task leaves no file at its path and performs exactly one
    request, after which it does nothing more. *)
Theorem failed_fetch_is_counted (w : world) :
  is_Some (TILE_SOURCES !! source_type) → Qle_bool 0 delay = true →
  0 < max_workers → confirmed total_tiles w →
  (∀ t, t ∈ tasks → unblocked (w_fs w) (dir_of out t)) →
  ∃ c w' tr,
    download_area out sched lat_min lon_min lat_max lon_max zoom_min zoom_max
      source_type max_workers delay w = (inr (Some c), w') ∧
    w_trace w' = w_trace w ++ tr ∧
    failed c = Z.of_nat (length (filter (λ t, fetch_fails w out t = true) tasks)) ∧
    counted c = total_tiles ∧
    ∀ i t, tasks !! i = Some t → fetch_fails w out t = true →
      w_fs w' !! path_of out t = None ∧
      ∃ url e,
        w_net w url = Raised e ∧
        ops_of i tr
        = [OMkdir (dir_of out t); OExists (path_of out t); OSleep delay; OGet url].
Proof.
  intros Hs Hd Hw Hc Hfree.
  destruct (pool_of_spec w Hfree) as (tr & Htr & _ & Hops & Hperm & _).
  assert (Hall : Forall (λ r, is_raised r = false) (results (pool_of w))).
  { rewrite Hperm. apply Forall_fmap, Forall_forall. intros t Ht. cbn.
    by apply outcome_not_raised. }
  pose proof (aggregate_counts _ (Counters 0 0 0) Hall) as Ha.
  pose proof (download_area_proceeds w Hc Hw) as Hrun. unfold summary_of in Hrun.
  rewrite Ha in Hrun.
  eexists _, (p_world (pool_of w)), tr. split; [exact Hrun|]. split; [done|]. split; [|split].
  - cbn [failed]. rewrite (count_Permutation _ _ _ Hperm), Z.add_0_l.
    apply count_fmap_filter. intros t Ht. by apply is_failed_outcome.
  - by eapply download_area_counted.
  - intros i t Ht Hfail.
    destruct (fetch_fails_spec w t Hfail) as (s & z & x & y & d & url & e & -> & Hp & _ & Hn & Hrest).
    assert (d = delay) as ->.
    { apply list_elem_of_lookup_2, tasks_source in Ht as (? & ? & ? & Ht). congruence. }
    destruct (Hrest Hd) as (Hout & Hwr & Htrace).
    destruct (Hops i _ Ht) as [Hops_i Hok]. cbn [stage_ok] in Hok.
    destruct Hok as (_ & _ & Hfinal). rewrite Hwr in Hfinal.
    split; [by rewrite <- Hp|]. exists url, e. split; [done|]. by rewrite Hops_i.
Qed.

(** *** Unknown sources *)

Lemma outcome_unknown_source (fs0 : gmap path node) (net : string → reply) (t : task) :
  TILE_SOURCES !! source_type = None → t ∈ tasks →
  solo_trace fs0 net out t = [OMkdir (dir_of out t); OExists (path_of out t)] ∧
  outcome fs0 net out t
  = if path_exists fs0 (path_of out t)
    then inr (skipped_result source_type t.1.1.1.2 t.1.1.2 t.1.2)
    else inl (KeyError source_type).
Proof.
  intros Hs (zoom & x & y & ->)%tasks_source.
  cbn [outcome solo_trace path_of dir_of fst snd].
  assert (tile_url source_type zoom x y = None) as -> by (unfold tile_url; by rewrite Hs).
  unfold lookup_error. rewrite Hs.
  by destruct (path_exists _ _).
Qed.

(** C8, as the code has it: a source outside [TILE_SOURCES] is not rejected
    up front. The tasks are enumerated and run: every worker creates its
    tile directory and probes its tile, and none sleeps, asks a provider or
    writes a file. When every tile is on the disk the summary counts them
    all as skipped; when some tile is missing, [download_area] ends with the
    [KeyError] of the lookup in [TILE_SOURCES]. *)
Theorem unknown_source_runs (w : world) :
  TILE_SOURCES !! source_type = None →
  0 < max_workers → confirmed total_tiles w →
  (∀ t, t ∈ tasks → unblocked (w_fs w) (dir_of out t)) →
  ∃ res w' tr,
    download_area out sched lat_min lon_min lat_max lon_max zoom_min zoom_max
      source_type max_workers delay w = (res, w') ∧
    w_trace w' = w_trace w ++ tr ∧
    (∀ t, t ∈ tasks ↔
       ∃ zoom x y,
         t = (source_type, zoom, x, y, delay) ∧
         zoom_min <= zoom <= zoom_max ∧
         (lat_lon_to_tile lat_min lon_min zoom).1 <= x
           <= (lat_lon_to_tile lat_max lon_max zoom).1 ∧
         (lat_lon_to_tile lat_max lon_max zoom).2 <= y
           <= (lat_lon_to_tile lat_min lon_min zoom).2) ∧
    (∀ i t, tasks !! i = Some t →
       ops_of i tr = [OMkdir (dir_of out t); OExists (path_of out t)] ∧
       made (w_fs w') (dir_of out t)) ∧
    (∀ i o, (i, o) ∈ tr → ∃ p, o = OMkdir p ∨ o = OExists p) ∧
    ((∀ t, t ∈ tasks → path_exists (w_fs w) (path_of out t) = true) →
       res = inr (Some (Counters 0 0 total_tiles))) ∧
    ((∃ t, t ∈ tasks ∧ path_exists (w_fs w) (path_of out t) = false) →
       res = inl (KeyError source_type)).
Proof.
  intros Hs Hw Hc Hfree.
  destruct (pool_of_spec w Hfree) as (tr & Htr & Hin & Hops & Hperm & _).
  pose proof (download_area_proceeds w Hc Hw) as Hrun. unfold summary_of in Hrun.
  exists (summary_of w).1, (p_world (pool_of w)), tr.
  split; [|split; [done|split; [|split; [|split; [|split]]]]].
  - rewrite Hrun. unfold summary_of. by destruct (aggregate _ _).
  - intros t. rewrite tasks_covering. apply elem_of_covering.
  - intros i t Ht. destruct (Hops i t Ht) as [-> Hok].
    assert (Hin_t : t ∈ tasks) by by eapply list_elem_of_lookup_2.
    destruct (outcome_unknown_source (w_fs w) (w_net w) t Hs Hin_t) as [-> _].
    split; [done|]. destruct t as [[[[s z] x] y] d]. by destruct Hok as [? _].
  - intros i o Hio. destruct (Hin i o Hio) as (t & Ht & Ho).
    assert (Hin_t : t ∈ tasks) by by eapply list_elem_of_lookup_2.
    destruct (outcome_unknown_source (w_fs w) (w_net w) t Hs Hin_t) as [E _].
    rewrite E in Ho. apply elem_of_cons in Ho as [-> | Ho]; [by eauto|].
    apply list_elem_of_singleton in Ho as ->. by eauto.
  - intros Hex. unfold summary_of.
    assert (Hall : Forall (λ r, is_raised r = false) (results (pool_of w))).
    { rewrite Hperm. apply Forall_fmap, Forall_forall. intros t Ht. cbn.
      destruct (outcome_exists (w_fs w) (w_net w) t (Hex t Ht))
        as (s & z & x & y & d & _ & -> & _). done. }
    rewrite (aggregate_counts _ _ Hall). cbn [fst].
    rewrite !(count_Permutation _ _ _ Hperm).
    rewrite (count_fmap_none is_downloaded), (count_fmap_none is_failed),
      (count_fmap_all is_skipped), <- total_tiles_length; [done | | |]; intros t Ht;
      by destruct (outcome_exists (w_fs w) (w_net w) t (Hex t Ht))
        as (s & z & x & y & d & _ & -> & _).
  - intros (t & Ht & Hp). unfold summary_of.
    destruct (aggregate_is_raised (results (pool_of w)) (Counters 0 0 0)) as [e He].
    { rewrite Hperm. apply Exists_fmap, Exists_exists. exists t. split; [done|]. cbn.
      destruct (outcome_unknown_source (w_fs w) (w_net w) t Hs Ht) as [_ ->].
      by rewrite Hp. }
    rewrite He. cbn [fst]. f_equal.
    apply aggregate_raised in He. rewrite Hperm in He.
    apply list_elem_of_fmap in He as (t' & He & Ht').
    destruct (outcome_unknown_source (w_fs w) (w_net w) t' Hs Ht') as [_ E].
    rewrite E in He. destruct (path_exists (w_fs w) (path_of out t')); congruence.
Qed.

End DownloadArea.

(** ** One call of [download_tile] *)

Lemma mkdir_from_old (base rest : path) (fs fs' : gmap path node) :
  mkdir_from base rest fs = inr fs' → ∀ q n, fs !! q = Some n → fs' !! q = Some n.
Proof.
  revert base fs. induction rest as [|c rest IH]; intros base fs; cbn [mkdir_from].
  - by intros [= <-].
  - destruct (fs !! (base ++ [c])) as [[|content]|] eqn:E; [by apply IH | done |].
    intros Hrun q n Hq. apply (IH _ _ Hrun).
    rewrite lookup_insert_ne; [done|]. intros <-. congruence.
Qed.

Lemma mkdir_from_inr (base rest : path) (fs fs' : gmap path node) :
  mkdir_from base rest fs = inr fs' →
  ∀ q, base `prefix_of` q → q `prefix_of` base ++ rest → q ≠ base → fs' !! q = Some Dir.
Proof.
  revert base fs. induction rest as [|c rest IH]; intros base fs; cbn [mkdir_from].
  - intros _ q Hb Hq Hne. rewrite app_nil_r in Hq. destruct Hne. by apply (anti_symm prefix).
  - intros Hrun q [k ->] Hq Hne. apply prefix_app_inv in Hq.
    destruct k as [|c' k]; [by rewrite app_nil_r in Hne|].
    apply prefix_cons_inv_1 in Hq as Hc. subst c'. apply prefix_cons_inv_2 in Hq.
    assert (Hhere : ∃ fs1, mkdir_from (base ++ [c]) rest fs1 = inr fs' ∧
                           fs1 !! (base ++ [c]) = Some Dir).
    { destruct (fs !! (base ++ [c])) as [[|content]|] eqn:E; [by eauto | done |].
      eexists. split; [done|]. by rewrite lookup_insert_eq. }
    destruct Hhere as (fs1 & Hrun1 & Hd).
    destruct k as [|c'' k].
    + by apply (mkdir_from_old _ _ _ _ Hrun1).
    + assert (Hsplit : ∀ l : path, base ++ c :: l = (base ++ [c]) ++ l).
      { intros l. by rewrite <- app_assoc. }
      rewrite Hsplit. apply (IH _ _ Hrun1).
      * by apply prefix_app_r.
      * by apply prefix_app.
      * intros E. apply (f_equal length) in E. rewrite !length_app in E. cbn in E. lia.
Qed.

Lemma mkdir_from_inl (base rest : path) (fs : gmap path node) (e : exn) :
  mkdir_from base rest fs = inl e →
  ∃ q c, e = OSError q ∧ q ≠ [] ∧ base `prefix_of` q ∧ q `prefix_of` base ++ rest ∧
         fs !! q = Some (File c).
Proof.
  revert base fs. induction rest as [|c rest IH]; intros base fs; cbn [mkdir_from]; [done|].
  assert (Hshift : ∀ q, base ++ [c] `prefix_of` q → q `prefix_of` (base ++ [c]) ++ rest →
            base `prefix_of` q ∧ q `prefix_of` base ++ c :: rest).
  { intros q H1 H2. split; [by etrans; [apply prefix_app_r|]|].
    by rewrite <- app_assoc in H2. }
  destruct (fs !! (base ++ [c])) as [[|content]|] eqn:E.
  - intros (q & c' & -> & ? & H1 & H2 & ?)%IH. destruct (Hshift q H1 H2).
    by exists q, c'.
  - intros [= <-]. exists (base ++ [c]), content. split; [done|]. split; [by destruct base|].
    split; [by apply prefix_app_r|]. split; [|done]. apply prefix_app, prefix_cons, prefix_nil.
  - intros (q & c' & -> & ? & H1 & H2 & Hq)%IH. destruct (Hshift q H1 H2).
    exists q, c'. repeat split; try done.
    rewrite lookup_insert_ne in Hq; [done|]. intros <-. by rewrite lookup_insert_eq in Hq.
Qed.

Lemma made_insert_file (fs : gmap path node) (out : path) (t : task) (body : string) :
  made fs (dir_of out t) → made (<[path_of out t := File body]> fs) (dir_of out t).
Proof.
  intros Hm q Hq Hpre. rewrite lookup_insert_ne; [by apply Hm|].
  intros <-. by destruct (path_of_not_prefix out t t).
Qed.

Ltac close_case Hm Hdir l :=
  cbn; split; [done|]; split; [by apply Hdir|]; exists l; by rewrite <- ?app_assoc.

(** C10: every call of [download_tile] first creates the tile directory and
    then probes the tile file. Unless the creation itself fails on a regular
    file in the way, the directory and its ancestors are on the disk when
    the call ends, whatever its outcome: skipped, failed, downloaded or an
    exception. *)
Theorem download_tile_makes_dir (who : nat) (out : path) (s : string) (z x y : Z) (d : Q)
    (w : world) :
  let dir := tile_dir out s z x in
  let call := run who (download_tile out s z x y d) w in
  (∃ q c, call = (inl (OSError q), log who (OMkdir dir) w) ∧
          q ≠ [] ∧ q `prefix_of` dir ∧ w_fs w !! q = Some (File c)) ∨
  (made (w_fs call.2) dir ∧ w_fs call.2 !! dir = Some Dir ∧
   ∃ tr, w_trace call.2
         = w_trace w ++ (who, OMkdir dir) :: (who, OExists (tile_path out s z x y)) :: tr).
Proof.
  intros dir call. subst call. cbn [download_tile run exec log w_fs set_fs].
  fold dir. destruct (mkdir_parents dir (w_fs w)) as [e|fs1] eqn:Hmk.
  { left. apply mkdir_from_inl in Hmk as (q & c & -> & ? & _ & ? & ?). by exists q, c. }
  right.
  assert (Hm : made fs1 dir).
  { intros q Hq Hpre. apply (mkdir_from_inr _ _ _ _ Hmk); [apply prefix_nil | done | done]. }
  assert (Hdir : ∀ fs, made fs dir → fs !! dir = Some Dir).
  { intros fs H. apply H; [|done]. apply (dir_of_nonempty out (s, z, x, y, d)). }
  assert (Hins : ∀ body, made (<[tile_path out s z x y := File body]> fs1) dir).
  { intros body. by apply (made_insert_file fs1 out (s, z, x, y, d)). }
  cbn [w_trace w_fs w_net w_stdin].
  destruct (path_exists _ _); [close_case Hm Hdir (@nil (nat * op))|].
  destruct (TILE_SOURCES !! s) as [template|]; [|close_case Hm Hdir (@nil (nat * op))].
  destruct (format template (zxy z x y)) as [url|]; [|close_case Hm Hdir (@nil (nat * op))].
  cbn [run exec log w_fs w_trace w_net w_stdin set_fs].
  destruct (Qle_bool 0 d); [|close_case Hm Hdir [(who, OSleep d)]].
  cbn [run exec log w_fs w_trace w_net w_stdin set_fs].
  destruct (w_net w url) as [body|err];
    [|close_case Hm Hdir [(who, OSleep d); (who, OGet url)]].
  cbn [run exec log w_fs w_trace w_net w_stdin set_fs].
  unfold write_file. destruct (fs1 !! tile_path out s z x y) as [[|c]|];
    [|destruct (is_dir fs1 _)..];
    close_case Hm Hdir
      [(who, OSleep d); (who, OGet url); (who, OWrite (tile_path out s z x y) body)].
Qed.

(** ** Concrete runs *)

Lemma range_singleton (a : Z) : range a (a + 1) = [a].
Proof.
  unfold range. replace (a + 1 - a) with 1 by lia. unfold seqZ. cbn. by f_equal.
Qed.

(** The area reduced to the point (0, 0) at zoom 0 is the single tile 0/0/0. *)
Lemma enumerate_origin (s : string) (d : Q) :
  enumerate 0 0 0 0 0 0 s d = ([(s, 0, 0, 0, d)], 1).
Proof.
  rewrite enumerate_covering. unfold covering.
  rewrite (range_singleton 0). cbn [mbind list_bind app].
  rewrite lat_lon_to_tile_origin. cbn [fst snd].
  rewrite (range_singleton 0). cbn. done.
Qed.

Lemma tree_ok_disk_with_origin_tile : tree_ok disk_with_origin_tile.
Proof.
  intros p name Hp [n Hn]. unfold disk_with_origin_tile in Hn.
  rewrite !lookup_insert in Hn.
  repeat case_decide; try (by rewrite lookup_empty in Hn);
    destruct p as [|a [|b [|c [|d [|e [|f p]]]]]]; simplify_eq/=;
    by vm_compute.
Qed.

Lemma unblocked_disk_empty (dir : path) : unblocked disk_empty dir.
Proof. intros q c _ _. unfold disk_empty. by rewrite lookup_empty. Qed.

(** The equator from -180 to 180 at zoom 10 is a row of 1025 tiles. *)
Lemma lat_lon_to_tile_west : lat_lon_to_tile 0 (-180) 10 = (0, 512).
Proof.
  rewrite lat_lon_to_tile_eq. unfold mercator_x, mercator_y, radians.
  rewrite powerRZ_2_IZR by lia. change (2 ^ 10) with 1024.
  rewrite Rmult_0_l, tan_0, arcsinh_0.
  rewrite (python_int_unique_nonneg _ 0) by lra.
  rewrite (python_int_unique_nonneg _ 512) by lra. done.
Qed.

Lemma lat_lon_to_tile_east : lat_lon_to_tile 0 180 10 = (1024, 512).
Proof.
  rewrite lat_lon_to_tile_eq. unfold mercator_x, mercator_y, radians.
  rewrite powerRZ_2_IZR by lia. change (2 ^ 10) with 1024.
  rewrite Rmult_0_l, tan_0, arcsinh_0.
  rewrite (python_int_unique_nonneg _ 1024) by lra.
  rewrite (python_int_unique_nonneg _ 512) by lra. done.
Qed.

Lemma length_bind_singletons {A B : Type} (g : A → list B) (l : list A) :
  (∀ x, length (g x) = 1%nat) → length (l ≫= g) = length l.
Proof.
  intros Hg. induction l as [|x l IH]; [done|].
  cbn [mbind list_bind]. rewrite length_app, Hg. cbn [length]. by f_equal.
Qed.

Lemma enumerate_equator_total (s : string) (d : Q) :
  (enumerate 0 (-180) 0 180 10 10 s d).2 = 1025.
Proof.
  rewrite enumerate_covering. cbn [snd]. unfold covering.
  rewrite (range_singleton 10). cbn [mbind list_bind app].
  rewrite lat_lon_to_tile_west, lat_lon_to_tile_east. cbn [fst snd].
  rewrite app_nil_r, (range_singleton 512).
  rewrite length_bind_singletons by done.
  unfold range, seqZ. rewrite length_fmap, length_seq. lia.
Qed.

(** Witness of C1: the tile 0/0/0 of osm is on the disk. *)
Lemma rerun_skips_everything_witness :
  ∃ w', download_area ["tiles"] [] 0 0 0 0 0 0 "osm" 4 (1 # 10)%Q
          (World disk_with_origin_tile provider_down [] [])
        = (inr (Some (Counters 0 0 1)), w') ∧
        w_fs w' = disk_with_origin_tile.
Proof.
  destruct (rerun_skips_everything ["tiles"] [] 0 0 0 0 0 0 "osm" 4 (1 # 10)%Q
              (World disk_with_origin_tile provider_down [] []))
    as (res & w' & tr & Hrun & Hfs & _ & _ & _ & _ & Hres).
  - rewrite enumerate_origin. intros t Ht. apply list_elem_of_singleton in Ht. subst t.
    vm_compute. reflexivity.
  - apply tree_ok_disk_with_origin_tile.
  - exists w'. rewrite Hrun, Hres.
    + rewrite enumerate_origin. split; [reflexivity | exact Hfs].
    + lia.
    + left. rewrite enumerate_origin. cbn. lia.
Defined.

(** Witness of C4: the provider is down and the disk is empty. *)
Lemma failed_fetch_is_counted_witness :
  ∃ c w', download_area ["tiles"] [] 0 0 0 0 0 0 "osm" 4 (1 # 10)%Q world_down
          = (inr (Some c), w') ∧
          failed c = 1 ∧ w_fs w' !! ["tiles"; "osm"; "0"; "0"; "0.png"] = None.
Proof.
  destruct (failed_fetch_is_counted ["tiles"] [] 0 0 0 0 0 0 "osm" 4 (1 # 10)%Q world_down)
    as (c & w' & tr & Hrun & _ & Hfailed & _ & Htask).
  - vm_compute. eauto.
  - reflexivity.
  - lia.
  - left. rewrite enumerate_origin. cbn. lia.
  - intros t _. apply unblocked_disk_empty.
  - exists c, w'. split; [exact Hrun|]. rewrite enumerate_origin in Hfailed, Htask. split.
    + rewrite Hfailed. vm_compute. reflexivity.
    + destruct (Htask 0%nat ("osm", 0, 0, 0, (1 # 10)%Q)) as [Hnone _];
        [reflexivity | vm_compute; reflexivity | exact Hnone].
Defined.

(** Witness of C5: the provider is up and the disk is empty. *)
Lemma counters_add_up_witness :
  ∃ c w', download_area ["tiles"] [] 0 0 0 0 0 0 "osm" 4 (1 # 10)%Q
            (World disk_empty provider_up [] [])
          = (inr (Some c), w') ∧ counted c = 1.
Proof.
  destruct (counters_add_up ["tiles"] [] 0 0 0 0 0 0 "osm" 4 (1 # 10)%Q
              (World disk_empty provider_up [] []))
    as (_ & Hsum & Hsummary).
  destruct Hsummary as (c & w' & Hrun).
  - vm_compute. eauto.
  - reflexivity.
  - lia.
  - left. rewrite enumerate_origin. cbn. lia.
  - intros t _. apply unblocked_disk_empty.
  - exists c, w'. split; [exact Hrun|].
    destruct (Hsum c w' Hrun) as [Hc _]. rewrite enumerate_origin in Hc. exact Hc.
Defined.

(** Witness of C6: 1025 tiles and the answer no. *)
Lemma large_job_needs_confirmation_witness :
  download_area ["tiles"] [] 0 (-180) 0 180 10 10 "osm" 4 (1 # 10)%Q
    (World disk_empty provider_up ["no"] [])
  = (inr None, World disk_empty provider_up [] []).
Proof.
  destruct (large_job_needs_confirmation ["tiles"] [] 0 (-180) 0 180 10 10 "osm" 4 (1 # 10)%Q
              (World disk_empty provider_up ["no"] [])) as (_ & Hno & _).
  - rewrite enumerate_equator_total. lia.
  - destruct (Hno "no" []) as [Hrun _]; [reflexivity | vm_compute; reflexivity | exact Hrun].
Defined.

(** Witness of C8 as amended: the source bogus on an empty disk. *)
Lemma unknown_source_runs_witness :
  ∃ w', download_area ["tiles"] [] 0 0 0 0 0 0 "bogus" 4 (1 # 10)%Q world_down
        = (inl (KeyError "bogus"), w') ∧
        made (w_fs w') ["tiles"; "bogus"; "0"; "0"].
Proof.
  destruct (unknown_source_runs ["tiles"] [] 0 0 0 0 0 0 "bogus" 4 (1 # 10)%Q world_down)
    as (res & w' & tr & Hrun & _ & _ & Hdirs & _ & _ & Hmissing).
  - vm_compute. reflexivity.
  - lia.
  - left. rewrite enumerate_origin. cbn. lia.
  - intros t _. apply unblocked_disk_empty.
  - exists w'. rewrite enumerate_origin in Hdirs, Hmissing. split.
    + rewrite Hrun. f_equal. apply Hmissing. exists ("bogus", 0, 0, 0, (1 # 10)%Q).
      split; [apply list_elem_of_singleton; reflexivity | vm_compute; reflexivity].
    + destruct (Hdirs 0%nat ("bogus", 0, 0, 0, (1 # 10)%Q)) as [_ Hm]; [reflexivity | exact Hm].
Defined.

(** C8 fails as stated: with the unknown source bogus a task is built, its
    directory is created and its tile is probed before the [KeyError]. *)
Lemma unknown_source_not_rejected :
  TILE_SOURCES !! "bogus" = None ∧
  (enumerate 0 0 0 0 0 0 "bogus" (1 # 10)%Q).1 = [("bogus", 0, 0, 0, (1 # 10)%Q)] ∧
  let run := download_area ["tiles"] [] 0 0 0 0 0 0 "bogus" 4 (1 # 10)%Q world_down in
  run.1 = inl (KeyError "bogus") ∧
  w_trace run.2 = [(0%nat, OMkdir ["tiles"; "bogus"; "0"; "0"]);
                   (0%nat, OExists ["tiles"; "bogus"; "0"; "0"; "0.png"])] ∧
  w_fs run.2 !! ["tiles"; "bogus"; "0"; "0"] = Some Dir.
Proof.
  split; [vm_compute; reflexivity|]. split; [by rewrite enumerate_origin|].
  unfold download_area. rewrite enumerate_origin.
  vm_compute. done.
Qed.

(** ** The mapper is monotone, the enumeration covers the rectangle *)

Section Monotone.
Local Open Scope R_scope.











End Monotone.



Lemma length_bind_const {A B : Type} (g : A → list B) (l : list A) (n : nat) :
  (∀ x, length (g x) = n) → length (l ≫= g) = (length l * n)%nat.
Proof.
  intros Hg. induction l as [|x l IH]; [done|].
  cbn [mbind list_bind]. rewrite length_app, Hg. cbn [length].
  rewrite IH. lia.
Qed.

Lemma length_bind_sum {A B : Type} (g : A → list B) (l : list A) :
  Z.of_nat (length (l ≫= g)) = foldr Z.add 0 ((λ a, Z.of_nat (length (g a))) <$> l).
Proof.
  induction l as [|x l IH]; [done|].
  cbn [mbind list_bind fmap list_fmap foldr]. rewrite length_app, Nat2Z.inj_add.
  f_equal. exact IH.
Qed.

Lemma length_range (a b : Z) : Z.of_nat (length (range a b)) = Z.max 0 (b - a).
Proof. unfold range. rewrite length_seqZ. lia. Qed.

(** X3. The tile count that [download_area] prints and compares with 1000
    is, summed over the zoom levels of the range, the number of columns times
    the number of rows between the two mapped corners; a zoom level whose
    corners are the wrong way round contributes nothing. *)
Theorem total_tiles_formula (lat_min lon_min lat_max lon_max : R) (zoom_min zoom_max : Z)
    (source_type : string) (delay : Q) :
  (enumerate lat_min lon_min lat_max lon_max zoom_min zoom_max source_type delay).2
  = foldr Z.add 0 (grid_size lat_min lon_min lat_max lon_max
                     <$> range zoom_min (zoom_max + 1)).
Proof.
  rewrite enumerate_covering. cbn [snd]. unfold covering.
  rewrite length_bind_sum. f_equal. apply list_fmap_ext. intros _ zoom _.
  unfold grid_size.
  destruct (lat_lon_to_tile lat_min lon_min zoom) as [x_min y_max].
  destruct (lat_lon_to_tile lat_max lon_max zoom) as [x_max y_min].
  cbn [fst snd].
  rewrite (length_bind_const _ _ (length (range y_min (y_max + 1)))).
  - rewrite Nat2Z.inj_mul, !length_range. done.
  - intros x. rewrite (length_bind_const _ _ 1%nat) by done. lia.
Qed.

(** ** Tile names, paths and URLs as strings *)

Lemma string_forall_app (P : ascii → bool) (s t : string) :
  string_forall P (s +:+ t) = string_forall P s && string_forall P t.
Proof.
  induction s as [|c s IH]; [done|].
  rewrite string_app_cons. cbn [string_forall]. rewrite IH. by rewrite andb_assoc.
Qed.

Lemma string_forall_weaken (P Q : ascii → bool) (s : string) :
  (∀ c, P c = true → Q c = true) → string_forall P s = true → string_forall Q s = true.
Proof.
  intros HPQ. induction s as [|c s IH]; [done|]. cbn [string_forall].
  rewrite !andb_true_iff. intros [Hc Hs]. split; [by apply HPQ | by apply IH].
Qed.

Lemma is_numeric_pretty_N_char (n : N) : is_numeric (pretty_N_char n) = true.
Proof. unfold pretty_N_char. by repeat case_match. Qed.

Lemma string_forall_pretty_N_go (x : N) (s : string) :
  string_forall is_numeric s = true → string_forall is_numeric (pretty_N_go x s) = true.
Proof.
  revert s. induction (N.lt_wf_0 x) as [x _ IH]; intros s Hs.
  assert (x = 0 ∨ 0 < x)%N as [->|Hx] by lia; [by rewrite pretty_N_go_0|].
  rewrite pretty_N_go_step by done. apply IH; [by apply N.div_lt|].
  cbn [string_forall]. by rewrite is_numeric_pretty_N_char, Hs.
Qed.

Lemma string_forall_pretty_N (x : N) : string_forall is_numeric (pretty x) = true.
Proof.
  unfold pretty, pretty_N. case_decide; [done|]. by apply string_forall_pretty_N_go.
Qed.

(** [str(n)] of an integer holds digits and at most a sign. *)
Lemma string_forall_pretty_Z (z : Z) : string_forall is_numeric (pretty z) = true.
Proof.
  destruct z as [|p|p]; [done| |].
  - apply (string_forall_pretty_N (N.pos p)).
  - change (pretty (Z.neg p)) with ("-" +:+ pretty (N.pos p)).
    rewrite string_forall_app, string_forall_pretty_N. done.
Qed.

Lemma prefix_string_forall (P : ascii → bool) (needle hay : string) :
  String.prefix needle hay = true → string_forall P hay = true →
  string_forall P needle = true.
Proof.
  revert hay. induction needle as [|c needle IH]; intros hay; [done|].
  destruct hay as [|c' hay]; [done|]. cbn [String.prefix string_forall].
  destruct (Ascii.ascii_dec c c') as [->|]; [|done].
  rewrite !andb_true_iff. intros Hp [Hc Hh]. split; [done|]. by apply (IH hay).
Qed.

(** A substring holds only characters of the string it is found in. *)
Lemma contains_string_forall (P : ascii → bool) (needle hay : string) :
  contains needle hay = true → string_forall P hay = true →
  string_forall P needle = true.
Proof.
  induction hay as [|c hay IH]; cbn [contains].
  - rewrite orb_false_r. apply prefix_string_forall.
  - rewrite orb_true_iff. intros [Hp | Hc] Hh.
    + by apply (prefix_string_forall P _ (String c hay)).
    + apply IH; [done|]. cbn [string_forall] in Hh. by apply andb_true_iff in Hh as [_ ?].
Qed.

Lemma no_marker_byte_numeric (c : ascii) : is_numeric c = true → no_marker_byte c = true.
Proof.
  unfold is_numeric, no_marker_byte. intros H%bool_decide_eq_true.
  apply negb_true_iff, bool_decide_eq_false. intros ->.
  revert H. vm_compute. intros H.
  repeat (apply elem_of_cons in H as [H|H]; [discriminate H|]).
  by apply elem_of_nil in H.
Qed.

Lemma no_marker_byte_tile_name (s : string) (z x y : Z) :
  string_forall no_marker_byte s = true →
  string_forall no_marker_byte (tile_name s z x y) = true.
Proof.
  intros Hs. unfold tile_name. rewrite !string_forall_app, Hs.
  rewrite !(string_forall_weaken _ _ _ no_marker_byte_numeric (string_forall_pretty_Z _)).
  done.
Qed.

Lemma no_marker_byte_source (s : string) :
  is_Some (TILE_SOURCES !! s) → string_forall no_marker_byte s = true.
Proof.
  intros Hs. destruct (TILE_SOURCES_cases s) as [->|[->|[->|Hn]]]; [done..|].
  rewrite Hn in Hs. by destruct Hs.
Qed.

(** The message of a downloaded tile of a known source is not taken for a
    skip by the substring test of [download_area]. *)
Lemma is_downloaded_downloaded_result (s : string) (z x y : Z) :
  is_Some (TILE_SOURCES !! s) → is_downloaded (inr (downloaded_result s z x y)) = true.
Proof.
  intros Hs. cbn. apply negb_true_iff, not_true_is_false. intros Hc.
  apply (contains_string_forall no_marker_byte) in Hc; [done|].
  rewrite string_forall_app, no_marker_byte_tile_name by by apply no_marker_byte_source.
  done.
Qed.

Lemma is_skipped_downloaded_result (s : string) (z x y : Z) :
  is_Some (TILE_SOURCES !! s) → is_skipped (inr (downloaded_result s z x y)) = false.
Proof.
  intros Hs. pose proof (is_downloaded_downloaded_result s z x y Hs) as H.
  cbn in *. by apply negb_true_iff in H.
Qed.

(** ** Distinct tiles never collide *)

Lemma string_app_inv_head (s a b : string) : s +:+ a = s +:+ b → a = b.
Proof.
  induction s as [|c s IH]; [done|]. rewrite !string_app_cons. intros [= H]. by apply IH.
Qed.

Lemma not_slash_numeric (c : ascii) : is_numeric c = true → not_slash c = true.
Proof.
  unfold is_numeric, not_slash. intros H%bool_decide_eq_true.
  apply negb_true_iff, bool_decide_eq_false. intros ->.
  revert H. vm_compute. intros H.
  repeat (apply elem_of_cons in H as [H|H]; [discriminate H|]).
  by apply elem_of_nil in H.
Qed.

Lemma not_slash_pretty (z : Z) : string_forall not_slash (pretty z) = true.
Proof. exact (string_forall_weaken _ _ _ not_slash_numeric (string_forall_pretty_Z z)). Qed.

(** Two strings cut at their first slash. *)
Lemma string_split_slash (a a' r r' : string) :
  string_forall not_slash a = true → string_forall not_slash a' = true →
  a +:+ String "/" r = a' +:+ String "/" r' → a = a' ∧ r = r'.
Proof.
  revert a'. induction a as [|c a IH]; intros [|c' a'] Ha Ha'.
  - by intros [= ->].
  - rewrite string_app_cons. intros [= <- _]. cbn in Ha'. done.
  - rewrite string_app_cons. intros [= -> _]. cbn in Ha. done.
  - rewrite !string_app_cons. intros [= -> H].
    cbn [string_forall] in Ha, Ha'.
    apply andb_true_iff in Ha as [_ Ha]. apply andb_true_iff in Ha' as [_ Ha'].
    destruct (IH a' Ha Ha' H) as [-> ->]. done.
Qed.

Lemma zxy_split (z x y z' x' y' : Z) (e : string) :
  pretty z +:+ "/" +:+ pretty x +:+ "/" +:+ pretty y +:+ e
  = pretty z' +:+ "/" +:+ pretty x' +:+ "/" +:+ pretty y' +:+ e →
  z = z' ∧ x = x' ∧ y = y'.
Proof.
  intros H.
  apply (string_split_slash (pretty z) (pretty z')) in H as [Hz H];
    [|apply not_slash_pretty..].
  apply (string_split_slash (pretty x) (pretty x')) in H as [Hx H];
    [|apply not_slash_pretty..].
  apply string_app_inj_r in H.
  by apply (inj pretty) in Hz, Hx, H.
Qed.



(** X5. A tile is requested at a URL of its own: for the sources of
    [TILE_SOURCES], two tiles have the same URL only when source, zoom,
    column and row all agree (the decimal numbers hold no slash, so the
    three numbers can be read back from the URL). *)
Theorem tile_url_injective (s s' : string) (z x y z' x' y' : Z) (url : string) :
  tile_url s z x y = Some url → tile_url s' z' x' y' = Some url →
  s = s' ∧ z = z' ∧ x = x' ∧ y = y'.
Proof.
  intros H H'.
  assert (is_Some (TILE_SOURCES !! s)) as Hs.
  { unfold tile_url in H. destruct (TILE_SOURCES !! s); [done | discriminate]. }
  assert (is_Some (TILE_SOURCES !! s')) as Hs'.
  { unfold tile_url in H'. destruct (TILE_SOURCES !! s'); [done | discriminate]. }
  destruct (TILE_SOURCES_cases s) as [->|[->|[->|Hn]]];
    [| | |rewrite Hn in Hs; by destruct Hs];
  (destruct (TILE_SOURCES_cases s') as [->|[->|[->|Hn']]];
    [| | |rewrite Hn' in Hs'; by destruct Hs']);
  rewrite ?tile_url_terrain, ?tile_url_satellite, ?tile_url_osm in H;
  rewrite ?tile_url_terrain, ?tile_url_satellite, ?tile_url_osm in H';
  apply (inj Some) in H; subst url; apply (inj Some) in H'.
  - apply string_app_inv_head, zxy_split in H'. destruct H' as (? & ? & ?). by subst.
  - exfalso. revert H'. rewrite !string_app_cons. congruence.
  - exfalso. revert H'. rewrite !string_app_cons. congruence.
  - exfalso. revert H'. rewrite !string_app_cons. congruence.
  - apply string_app_inv_head in H'.
    rewrite <- (string_app_empty_r (pretty x)), <- (string_app_empty_r (pretty x')) in H'.
    apply zxy_split in H'. destruct H' as (? & ? & ?). by subst.
  - exfalso. revert H'. rewrite !string_app_cons. congruence.
  - exfalso. revert H'. rewrite !string_app_cons. congruence.
  - exfalso. revert H'. rewrite !string_app_cons. congruence.
  - apply string_app_inv_head, zxy_split in H'. destruct H' as (? & ? & ?). by subst.
Qed.

(** Witness of X5: the URL of the satellite tile 5/3/2. *)
Lemma tile_url_injective_witness :
  "satellite" = "satellite" ∧ 5 = 5 ∧ 3 = 3 ∧ 2 = 2.
Proof.
  by apply (tile_url_injective "satellite" "satellite" 5 3 2 5 3 2
    "https://server.arcgisonline.com/ArcGIS/rest/services/World_Imagery/MapServer/tile/5/2/3").
Defined.

(** ** One call of [download_tile], run on its own *)

(** What [mkdir] adds is directories. *)
Lemma mkdir_from_new (base rest : path) (fs fs' : gmap path node) :
  mkdir_from base rest fs = inr fs' →
  ∀ q, fs' !! q = fs !! q ∨ (fs !! q = None ∧ fs' !! q = Some Dir).
Proof.
  revert base fs. induction rest as [|c rest IH]; intros base fs; cbn [mkdir_from].
  - intros [= <-] q. by left.
  - destruct (fs !! (base ++ [c])) as [[|content]|] eqn:E; [by apply IH | done |].
    intros Hrun q. destruct (decide (q = base ++ [c])) as [->|Hne].
    + right. split; [done|]. apply (mkdir_from_old _ _ _ _ Hrun).
      by rewrite lookup_insert_eq.
    + destruct (IH _ _ Hrun q) as [Hq | [Hq1 Hq2]].
      * left. by rewrite Hq, lookup_insert_ne.
      * right. by rewrite lookup_insert_ne in Hq1.
Qed.

(** [mkdir] of a directory that is there leaves the disk as it is. *)
Lemma mkdir_from_made (base rest : path) (fs : gmap path node) :
  (∀ q, base `prefix_of` q → q `prefix_of` base ++ rest → q ≠ base → fs !! q = Some Dir) →
  mkdir_from base rest fs = inr fs.
Proof.
  revert base. induction rest as [|c rest IH]; intros base Hm; cbn [mkdir_from]; [done|].
  rewrite Hm.
  - apply IH. intros q H1 H2 Hne. apply Hm.
    + etrans; [apply prefix_app_r|]; done.
    + by rewrite <- app_assoc in H2.
    + intros ->. apply prefix_length in H1. rewrite length_app in H1. cbn in H1. lia.
  - by apply prefix_app_r.
  - apply prefix_app, prefix_cons, prefix_nil.
  - intros E. apply (f_equal length) in E. rewrite length_app in E. cbn in E. lia.
Qed.

Lemma mkdir_parents_made (fs : gmap path node) (dir : path) :
  made fs dir → mkdir_parents dir fs = inr fs.
Proof.
  intros Hm. apply mkdir_from_made. intros q _ Hq Hne. by apply Hm.
Qed.

(** X6. A call of [download_tile] never removes or changes what is on the
    disk, whatever happens to it: every entry present before the call is
    there unchanged after it, and the only regular file the call can add is
    its own tile.  It reads neither the console nor changes the providers. *)
Theorem download_tile_keeps_disk (who : nat) (out : path) (s : string) (z x y : Z) (d : Q)
    (w : world) :
  let call := run who (download_tile out s z x y d) w in
  (∀ p n, w_fs w !! p = Some n → w_fs call.2 !! p = Some n) ∧
  (∀ p body, w_fs call.2 !! p = Some (File body) →
     w_fs w !! p = Some (File body) ∨ p = tile_path out s z x y) ∧
  w_net call.2 = w_net w ∧ w_stdin call.2 = w_stdin w.
Proof.
  intros call. subst call. cbn [download_tile run exec log w_fs set_fs].
  destruct (mkdir_parents (tile_dir out s z x) (w_fs w)) as [e|fs1] eqn:Hmk.
  { cbn. split; [done|]. split; [by left|done]. }
  assert (Hold : ∀ p n, w_fs w !! p = Some n → fs1 !! p = Some n)
    by apply (mkdir_from_old _ _ _ _ Hmk).
  assert (Hnew : ∀ p body, fs1 !! p = Some (File body) → w_fs w !! p = Some (File body)).
  { intros p body Hp. destruct (mkdir_from_new _ _ _ _ Hmk p) as [<- | [_ ?]]; [done|congruence]. }
  assert (Hkeep :
    (∀ p n, w_fs w !! p = Some n → fs1 !! p = Some n) ∧
    (∀ p body, fs1 !! p = Some (File body) →
       w_fs w !! p = Some (File body) ∨ p = tile_path out s z x y) ∧
    w_net w = w_net w ∧ w_stdin w = w_stdin w).
  { split; [done|]. split; [|done]. intros p body Hp. left. by apply Hnew. }
  cbn [w_trace w_fs w_net w_stdin set_fs log].
  destruct (path_exists fs1 (tile_path out s z x y)) eqn:Hex; [exact Hkeep|].
  apply path_exists_false in Hex.
  destruct (TILE_SOURCES !! s) as [template|]; [|exact Hkeep].
  destruct (format template (zxy z x y)) as [url|]; [|exact Hkeep].
  cbn [run exec log w_fs w_trace w_net w_stdin set_fs].
  destruct (Qle_bool 0 d); [|exact Hkeep].
  cbn [run exec log w_fs w_trace w_net w_stdin set_fs].
  destruct (w_net w url) as [body|err]; [|exact Hkeep].
  cbn [run exec log w_fs w_trace w_net w_stdin set_fs].
  unfold write_file. rewrite Hex.
  destruct (is_dir fs1 _); [|exact Hkeep].
  cbn. split; [|split; [|done]].
  - intros p n Hp. rewrite lookup_insert_ne; [by apply Hold|].
    intros <-. apply Hold in Hp. congruence.
  - intros p body' Hp. destruct (decide (p = tile_path out s z x y)) as [->|Hne]; [by right|].
    left. rewrite lookup_insert_ne in Hp by done. by apply Hnew.
Qed.

Ltac flat_world :=
  unfold log, set_fs; cbn [w_fs w_net w_stdin w_trace fmap list_fmap app];
  rewrite <- ?app_assoc; cbn [app].

(** A worker that runs alone, on a disk where its directory can be made,
    does what [outcome], [written] and [solo_trace] say. *)
Lemma run_submit (who : nat) (out : path) (t : task) (w : world) :
  unblocked (w_fs w) (dir_of out t) →
  ∃ fs',
    run who (submit out t) w
    = (outcome (w_fs w) (w_net w) out t,
       World fs' (w_net w) (w_stdin w)
             (w_trace w ++ ((who,.) <$> solo_trace (w_fs w) (w_net w) out t))) ∧
    made fs' (dir_of out t) ∧
    fs' !! path_of out t = match written (w_fs w) (w_net w) out t with
                           | Some body => Some (File body)
                           | None => w_fs w !! path_of out t
                           end ∧
    grows (w_fs w) fs' (dir_of out t) (path_of out t).
Proof.
  intros Hu.
  pose proof (path_of_not_prefix out t t) as Hnp.
  pose proof (path_of_dir_of out t) as [name Hname].
  pose proof (dir_of_nonempty out t) as Hne.
  destruct t as [[[[s z] x] y] d].
  cbn [submit dir_of path_of outcome written solo_trace] in *.
  destruct (mkdir_parents_spec _ _ Hu) as (fs1 & Hmk & Hm & Hch).
  assert (Hsame : fs1 !! tile_path out s z x y = w_fs w !! tile_path out s z x y).
  { destruct (Hch (tile_path out s z x y)) as [? | (_ & _ & ? & _)]; done. }
  assert (Hg1 : grows (w_fs w) fs1 (tile_dir out s z x) (tile_path out s z x y)).
  { intros q. destruct (Hch q) as [? | (? & ? & ? & ?)]; [by left|].
    right. split; [done|]. by left. }
  rewrite download_tile_eq. cbn [run exec log w_fs set_fs]. rewrite Hmk.
  unfold after_mkdir. cbn [run exec log w_fs w_trace w_net w_stdin set_fs].
  rewrite (path_exists_eq _ _ _ Hsame).
  destruct (path_exists (w_fs w) (tile_path out s z x y)) eqn:Hex.
  { exists fs1. cbn [after_probe run]. flat_world. by rewrite Hsame. }
  apply path_exists_false in Hex.
  destruct (tile_url s z x y) as [url|] eqn:Hurl.
  2: { exists fs1. rewrite after_probe_no_url by done.
       cbn [run]. flat_world. by rewrite Hsame. }
  rewrite (after_probe_absent _ _ _ _ _ _ _ Hurl).
  cbn [run exec log w_fs w_trace w_net w_stdin set_fs].
  destruct (Qle_bool 0 d).
  2: { exists fs1. flat_world. by rewrite Hsame. }
  unfold after_sleep. cbn [run exec log w_fs w_trace w_net w_stdin set_fs].
  destruct (w_net w url) as [body|err].
  2: { exists fs1. cbn [after_get run]. flat_world. by rewrite Hsame. }
  cbn [after_get run exec log w_fs w_trace w_net w_stdin set_fs].
  destruct (write_file_spec fs1 (tile_dir out s z x) (tile_path out s z x y) name body)
    as [Hwr Hg2]; [done | done | done | congruence |].
  rewrite Hwr. exists (<[tile_path out s z x y := File body]> fs1).
  flat_world. split; [done|].
  split; [by apply (made_insert_file fs1 out (s, z, x, y, d))|].
  split; [by rewrite lookup_insert_eq|].
  intros q. destruct (decide (q = tile_path out s z x y)) as [->|Hq].
  - right. split; [done|]. right. split; [done|]. exists body. by rewrite lookup_insert_eq.
  - rewrite lookup_insert_ne by done. apply Hg1.
Qed.

(** X7. Storing a tile and finding it again.  When the tile is missing, the
    source is known, the delay is not negative and the provider answers,
    [download_tile] sleeps, makes one request, writes the body it received
    unchanged at the tile path and reports the tile as downloaded.  Any later
    call for the same tile, by any worker, with any delay and whatever the
    providers have become, finds the file: it reports a skip after the
    [mkdir] and the probe alone, and leaves the disk as it is. *)
Theorem download_tile_then_skips (who who' : nat) (out : path) (s : string) (z x y : Z)
    (d d' : Q) (url body : string) (w : world) :
  unblocked (w_fs w) (tile_dir out s z x) →
  path_exists (w_fs w) (tile_path out s z x y) = false →
  tile_url s z x y = Some url → Qle_bool 0 d = true → w_net w url = Content body →
  let dir := tile_dir out s z x in
  let file := tile_path out s z x y in
  let first := run who (download_tile out s z x y d) w in
  first.1 = inr (downloaded_result s z x y) ∧
  w_fs first.2 !! file = Some (File body) ∧
  w_trace first.2
  = w_trace w ++ [(who, OMkdir dir); (who, OExists file); (who, OSleep d); (who, OGet url);
                  (who, OWrite file body)] ∧
  ∀ w1, w_fs w1 = w_fs first.2 →
    run who' (download_tile out s z x y d') w1
    = (inr (skipped_result s z x y),
       World (w_fs w1) (w_net w1) (w_stdin w1)
             (w_trace w1 ++ [(who', OMkdir dir); (who', OExists file)])).
Proof.
  intros Hu Hex Hurl Hd Hnet dir file first.
  destruct (run_submit who out (s, z, x, y, d) w Hu) as (fs' & Hrun & Hm & Hfile & _).
  cbn [submit dir_of path_of outcome written solo_trace] in Hrun, Hm, Hfile.
  rewrite Hex, Hurl, Hd, Hnet in Hrun, Hfile.
  subst dir file first. rewrite Hrun. cbn [fst snd w_fs w_trace fmap list_fmap app].
  split; [done|]. split; [done|]. split; [done|].
  intros w1 Hw1. rewrite download_tile_eq.
  cbn [run exec log w_fs set_fs]. rewrite Hw1, mkdir_parents_made by done.
  unfold after_mkdir. cbn [run exec log w_fs w_trace w_net w_stdin set_fs].
  unfold path_exists. rewrite Hfile.
  cbn [after_probe run]. rewrite <- Hw1. flat_world. done.
Qed.

(** Witness of X7: the osm tile 0/0/0 is downloaded on an empty disk, then found
    again by a call with a negative delay while the provider is down. *)
Lemma download_tile_then_skips_witness :
  let first := run 0 (download_tile ["tiles"] "osm" 0 0 0 (1 # 10)%Q)
                 (World disk_empty provider_up [] []) in
  first.1 = inr (downloaded_result "osm" 0 0 0) ∧
  w_fs first.2 !! ["tiles"; "osm"; "0"; "0"; "0.png"] = Some (File "tile") ∧
  (run 1 (download_tile ["tiles"] "osm" 0 0 0 (-1 # 10)%Q)
     (World (w_fs first.2) provider_down [] [])).1
  = inr (skipped_result "osm" 0 0 0).
Proof.
  intros first.
  destruct (download_tile_then_skips 0 1 ["tiles"] "osm" 0 0 0 (1 # 10)%Q (-1 # 10)%Q
              "https://tile.openstreetmap.org/0/0/0.png" "tile"
              (World disk_empty provider_up [] []))
    as (H1 & H2 & _ & H4).
  - apply unblocked_disk_empty.
  - vm_compute. reflexivity.
  - vm_compute. reflexivity.
  - reflexivity.
  - reflexivity.
  - split; [exact H1|]. split; [exact H2|].
    by rewrite (H4 (World (w_fs first.2) provider_down [] []) eq_refl).
Defined.

(** ** Whole runs of [download_area] *)

Lemma stage_ok_Done (fs0 : gmap path node) (net : string → reply) (out : path)
    (fs : gmap path node) (t : task) (r : exn + result) :
  stage_ok fs0 net out fs t (Done r) →
  made fs (dir_of out t) ∧ r = outcome fs0 net out t ∧
  fs !! path_of out t = match written fs0 net out t with
                        | Some body => Some (File body)
                        | None => fs0 !! path_of out t
                        end.
Proof. by destruct t as [[[[s z] x] y] d]. Qed.

Lemma ops_of_nil (i : nat) (tr : list (nat * op)) :
  (∀ o, (i, o) ∉ tr) → ops_of i tr = [].
Proof.
  intros Hi. unfold ops_of. induction tr as [|[k o] tr IH]; [done|].
  destruct (decide (k = i)) as [->|Hne].
  - destruct (Hi o). left.
  - rewrite filter_cons_False by done. apply IH. intros o' Ho'. apply (Hi o'). by right.
Qed.

(** The results of a pool whose raised exceptions are all the same are
    aggregated alike in any order of completion. *)
Lemma aggregate_uniform (rs1 rs2 : list (exn + result)) (c : counters) (e0 : exn) :
  rs1 ≡ₚ rs2 → (∀ e, inl e ∈ rs1 → e = e0) → aggregate c rs1 = aggregate c rs2.
Proof.
  intros Hperm Hone.
  destruct (decide (Forall (λ r, is_raised r = false) rs1)) as [Hall | Hex].
  - rewrite (aggregate_counts rs1 c Hall).
    rewrite Hperm in Hall. rewrite (aggregate_counts rs2 c Hall).
    by rewrite !(count_Permutation _ _ _ Hperm).
  - apply not_Forall_Exists in Hex; [|apply _].
    assert (Exists (λ r, is_raised r = true) rs1) as Hex1.
    { eapply Exists_impl; [exact Hex|]. intros r Hr. cbn in Hr. by destruct (is_raised r). }
    assert (Exists (λ r, is_raised r = true) rs2) as Hex2 by by rewrite <- Hperm.
    destruct (aggregate_is_raised rs1 c Hex1) as [e1 H1].
    destruct (aggregate_is_raised rs2 c Hex2) as [e2 H2].
    rewrite H1, H2. apply aggregate_raised in H1, H2.
    rewrite <- Hperm in H2. by rewrite (Hone e1 H1), (Hone e2 H2).
Qed.

Section Runs.
Context (out : path).
Context (lat_min lon_min lat_max lon_max : R) (zoom_min zoom_max : Z).
Context (source_type : string) (max_workers : Z) (delay : Q).

Let tasks : list task :=
  (enumerate lat_min lon_min lat_max lon_max zoom_min zoom_max source_type delay).1.
Let total_tiles : Z :=
  (enumerate lat_min lon_min lat_max lon_max zoom_min zoom_max source_type delay).2.
Let area (sched : list nat) (w : world) : (exn + option counters) * world :=
  download_area out sched lat_min lon_min lat_max lon_max zoom_min zoom_max
    source_type max_workers delay w.
Let pool_of (sched : list nat) (w : world) : pool :=
  run_pool out max_workers tasks sched (after_prompt total_tiles w).
Let summary_of (sched : list nat) (w : world) : (exn + option counters) * world :=
  match aggregate (Counters 0 0 0) (results (pool_of sched w)) with
  | inl e => (inl e, p_world (pool_of sched w))
  | inr c => (inr (Some c), p_world (pool_of sched w))
  end.

(** Either no worker is started, and the call ends the same way whatever the
    schedule, or the pool runs. *)
Lemma area_cases (w : world) :
  ((∀ sched sched', area sched w = area sched' w) ∧
   (∀ sched, w_fs (area sched w).2 = w_fs w ∧ w_trace (area sched w).2 = w_trace w ∧
             w_net (area sched w).2 = w_net w ∧ ∀ c, (area sched w).1 ≠ inr (Some c))) ∨
  (confirmed total_tiles w ∧ 0 < max_workers ∧
   ∀ sched, area sched w = summary_of sched w).
Proof.
  unfold area, summary_of, pool_of, download_area, after_prompt, confirmed.
  fold tasks total_tiles.
  destruct (enumerate _ _ _ _ _ _ _ _) as [ts n] eqn:E. cbn [fst snd] in *.
  subst tasks total_tiles. cbn [fst snd].
  destruct (1000 <? n) eqn:Hn; [apply Z.ltb_lt in Hn | apply Z.ltb_ge in Hn].
  - unfold input. destruct (w_stdin w) as [|response rest] eqn:Hin; [by left|].
    destruct (confirms response) eqn:Hc; [|by left].
    destruct (max_workers <=? 0) eqn:Hw; [by left | apply Z.leb_gt in Hw].
    right. split; [right; eauto|]. split; [done|]. intros sched. cbn [tail].
    by destruct (aggregate _ _).
  - destruct (max_workers <=? 0) eqn:Hw; [by left | apply Z.leb_gt in Hw].
    right. split; [by left|]. split; [done|]. intros sched. by destruct (aggregate _ _).
Qed.

(** What a run of the pool leaves behind, for any schedule. *)
Lemma pool_facts (sched : list nat) (w : world) :
  (∀ t, t ∈ tasks → unblocked (w_fs w) (dir_of out t)) →
  w_net (p_world (pool_of sched w)) = w_net w ∧
  w_stdin (p_world (pool_of sched w)) = w_stdin (after_prompt total_tiles w) ∧
  results (pool_of sched w) ≡ₚ outcome (w_fs w) (w_net w) out <$> tasks ∧
  (∀ t, t ∈ tasks →
     made (w_fs (p_world (pool_of sched w))) (dir_of out t) ∧
     w_fs (p_world (pool_of sched w)) !! path_of out t
     = match written (w_fs w) (w_net w) out t with
       | Some body => Some (File body)
       | None => w_fs w !! path_of out t
       end) ∧
  (∀ p, w_fs (p_world (pool_of sched w)) !! p = w_fs w !! p ∨
        (w_fs w !! p = None ∧
         ∃ t, t ∈ tasks ∧
           ((p ≠ [] ∧ p `prefix_of` dir_of out t) ∨ p = path_of out t))) ∧
  ∃ tr, w_trace (p_world (pool_of sched w)) = w_trace w ++ tr ∧
        (∀ i o, (i, o) ∈ tr → is_Some (tasks !! i)) ∧
        ∀ i t, tasks !! i = Some t → ops_of i tr = solo_trace (w_fs w) (w_net w) out t.
Proof.
  intros Hfree.
  destruct (run_pool_spec out tasks (after_prompt total_tiles w)
              (tasks_paths_distinct out _ _ _ _ _ _ _ _))
    with (max_workers := max_workers) (sched := sched) as [Hinv _].
  { intros t Ht. unfold after_prompt. by destruct (1000 <? total_tiles); apply Hfree. }
  destruct (pool_of_spec out sched lat_min lon_min lat_max lon_max zoom_min zoom_max
              source_type max_workers delay w Hfree)
    as (tr & Htr & Hin & Hops & Hperm & Hfs).
  unfold pool_of.
  split. { rewrite (inv_net _ _ _ _ Hinv). unfold after_prompt. by destruct (1000 <? _). }
  split. { apply (inv_stdin _ _ _ _ Hinv). }
  split; [done|]. split; [|split].
  - intros t [i Hi]%list_elem_of_lookup_1. destruct (Hops i t Hi) as [_ Hok].
    apply stage_ok_Done in Hok as (Hm & _ & Hp). done.
  - intros p. destruct (Hfs p) as [? | (HN & t & Ht & [(? & ? & _) | [? _]])]; [by left|..];
      right; (split; [done|]); exists t; (split; [done|]); [by left | by right].
  - exists tr. split; [done|]. split.
    + intros i o Hio. destruct (Hin i o Hio) as (t & Ht & _). by exists t.
    + intros i t Ht. by destruct (Hops i t Ht).
Qed.

(** Every exception a worker of this job can raise is one and the same. *)
Lemma outcome_raised_uniform (w : world) :
  ∃ e0, ∀ e, inl e ∈ outcome (w_fs w) (w_net w) out <$> tasks → e = e0.
Proof.
  destruct (TILE_SOURCES !! source_type) as [template|] eqn:Hs.
  - exists (ValueError "sleep length must be non-negative").
    intros e (t & He & (zoom & x & y & ->)%tasks_source)%list_elem_of_fmap.
    cbn [outcome] in He. destruct (path_exists _ _); [done|].
    destruct (tile_url_is_Some source_type zoom x y) as [url Hurl]; [by rewrite Hs|].
    rewrite Hurl in He. destruct (Qle_bool 0 delay); [|congruence].
    by destruct (w_net w url).
  - exists (KeyError source_type).
    intros e (t & He & (zoom & x & y & ->)%tasks_source)%list_elem_of_fmap.
    cbn [outcome] in He. destruct (path_exists _ _); [done|].
    unfold tile_url, lookup_error in He. rewrite Hs in He. cbn in He. congruence.
Qed.

(** The disk a run of the pool leaves is the same for every schedule. *)
Lemma pool_disk_determined (sched sched' : list nat) (w : world) :
  (∀ t, t ∈ tasks → unblocked (w_fs w) (dir_of out t)) →
  w_fs (p_world (pool_of sched w)) = w_fs (p_world (pool_of sched' w)).
Proof.
  intros Hfree.
  destruct (pool_facts sched w Hfree) as (_ & _ & _ & Hdone & Hfs & _).
  destruct (pool_facts sched' w Hfree) as (_ & _ & _ & Hdone' & Hfs' & _).
  assert (Hat : ∀ p t, t ∈ tasks →
            (p ≠ [] ∧ p `prefix_of` dir_of out t) ∨ p = path_of out t →
            w_fs (p_world (pool_of sched w)) !! p = w_fs (p_world (pool_of sched' w)) !! p).
  { intros p t Ht [[Hp Hpre] | ->].
    - destruct (Hdone t Ht) as [Hm _], (Hdone' t Ht) as [Hm' _].
      by rewrite (Hm p Hp Hpre), (Hm' p Hp Hpre).
    - destruct (Hdone t Ht) as [_ ->], (Hdone' t Ht) as [_ ->]. done. }
  apply map_eq. intros p.
  destruct (Hfs p) as [Hp | (_ & t & Ht & Hcase)]; [|by apply (Hat p t)].
  destruct (Hfs' p) as [Hp' | (_ & t & Ht & Hcase)]; [|by apply (Hat p t)].
  by rewrite Hp, Hp'.
Qed.

(** X8. The outcome of [download_area] does not depend on how the threads
    are scheduled: on a disk where the tile directories can be created, any
    two interleavings of the workers give the same return value (the same
    summary, or the same exception, or the same cancellation), the same
    disk, the same console and, worker by worker, the same operations in the
    same order. *)
Theorem download_area_schedule_independent (sched sched' : list nat) (w : world) :
  (∀ t, t ∈ tasks → unblocked (w_fs w) (dir_of out t)) →
  (area sched w).1 = (area sched' w).1 ∧
  w_fs (area sched w).2 = w_fs (area sched' w).2 ∧
  w_stdin (area sched w).2 = w_stdin (area sched' w).2 ∧
  ∀ i, ops_of i (w_trace (area sched w).2) = ops_of i (w_trace (area sched' w).2).
Proof.
  intros Hfree.
  destruct (area_cases w) as [[Hsame _] | (_ & _ & Hrun)].
  { by rewrite (Hsame sched sched'). }
  rewrite !Hrun. unfold summary_of.
  destruct (pool_facts sched w Hfree) as (_ & Hin & Hperm & _ & _ & tr & Htr & Hmine & Hops).
  destruct (pool_facts sched' w Hfree)
    as (_ & Hin' & Hperm' & _ & _ & tr' & Htr' & Hmine' & Hops').
  destruct (outcome_raised_uniform w) as [e0 He0].
  assert (Hagg : aggregate (Counters 0 0 0) (results (pool_of sched w))
                 = aggregate (Counters 0 0 0) (results (pool_of sched' w))).
  { apply (aggregate_uniform _ _ _ e0); [by rewrite Hperm, Hperm'|].
    intros e He. apply He0. by rewrite <- Hperm. }
  assert (Hfs := pool_disk_determined sched sched' w Hfree).
  assert (Htrace : ∀ i, ops_of i (w_trace (p_world (pool_of sched w)))
                        = ops_of i (w_trace (p_world (pool_of sched' w)))).
  { intros i. rewrite Htr, Htr', !ops_of_app. f_equal.
    destruct (tasks !! i) as [t|] eqn:Ht.
    - by rewrite (Hops i t Ht), (Hops' i t Ht).
    - rewrite !ops_of_nil; [done|..]; intros o Ho.
      + apply Hmine' in Ho. rewrite Ht in Ho. by destruct Ho.
      + apply Hmine in Ho. rewrite Ht in Ho. by destruct Ho. }
  rewrite Hagg.
  destruct (aggregate (Counters 0 0 0) (results (pool_of sched' w)));
    (split; [done|]; split; [exact Hfs|]; split; [|exact Htrace]);
    (etrans; [exact Hin | symmetry; exact Hin']).
Qed.

(** How each outcome is counted, for a known source and a delay that is not
    negative. *)
Lemma is_downloaded_outcome (w : world) (t : task) :
  is_Some (TILE_SOURCES !! source_type) → Qle_bool 0 delay = true → t ∈ tasks →
  is_downloaded (outcome (w_fs w) (w_net w) out t) = fetch_succeeds w out t.
Proof.
  intros Hs Hd (zoom & x & y & ->)%tasks_source. cbn [outcome fetch_succeeds].
  destruct (path_exists _ _); [apply is_downloaded_skipped_result|].
  destruct (tile_url_is_Some source_type zoom x y Hs) as [url ->].
  rewrite Hd. destruct (w_net w url); [|done].
  by apply is_downloaded_downloaded_result.
Qed.

Lemma is_skipped_outcome (w : world) (t : task) :
  is_Some (TILE_SOURCES !! source_type) → Qle_bool 0 delay = true → t ∈ tasks →
  is_skipped (outcome (w_fs w) (w_net w) out t) = path_exists (w_fs w) (path_of out t).
Proof.
  intros Hs Hd (zoom & x & y & ->)%tasks_source. cbn [outcome path_of].
  destruct (path_exists _ _); [apply is_skipped_skipped_result|].
  destruct (tile_url_is_Some source_type zoom x y Hs) as [url ->].
  rewrite Hd. destruct (w_net w url); [|done].
  by apply is_skipped_downloaded_result.
Qed.

Lemma summary_counts (sched : list nat) (w : world) :
  is_Some (TILE_SOURCES !! source_type) → Qle_bool 0 delay = true →
  0 < max_workers → confirmed total_tiles w →
  (∀ t, t ∈ tasks → unblocked (w_fs w) (dir_of out t)) →
  area sched w
  = (inr (Some (Counters
       (Z.of_nat (length (filter (λ t, fetch_succeeds w out t = true) tasks)))
       (Z.of_nat (length (filter (λ t, fetch_fails w out t = true) tasks)))
       (Z.of_nat (length (filter (λ t, path_exists (w_fs w) (path_of out t) = true) tasks))))),
     p_world (pool_of sched w)).
Proof.
  intros Hs Hd Hw Hc Hfree.
  destruct (pool_facts sched w Hfree) as (_ & _ & Hperm & _).
  assert (Hall : Forall (λ r, is_raised r = false) (results (pool_of sched w))).
  { rewrite Hperm. apply Forall_fmap, Forall_forall. intros t Ht. cbn.
    by apply (outcome_not_raised out lat_min lon_min lat_max lon_max zoom_min zoom_max
                source_type delay). }
  destruct (area_cases w) as [[_ Hno] | (_ & _ & Hrun)].
  { exfalso.
    destruct (summary_exists out sched lat_min lon_min lat_max lon_max zoom_min zoom_max
                source_type max_workers delay w Hs Hd Hw Hc Hfree) as (c & w' & Hsum).
    destruct (Hno sched) as (_ & _ & _ & Hne). apply (Hne c). unfold area. by rewrite Hsum. }
  rewrite Hrun. unfold summary_of. rewrite (aggregate_counts _ _ Hall).
  rewrite !(count_Permutation _ _ _ Hperm).
  rewrite (count_fmap_filter is_downloaded (λ t, fetch_succeeds w out t)),
    (count_fmap_filter is_failed (λ t, fetch_fails w out t)),
    (count_fmap_filter is_skipped (λ t, path_exists (w_fs w) (path_of out t))).
  - done.
  - intros t Ht. by apply is_skipped_outcome.
  - intros t Ht.
    by apply (is_failed_outcome out lat_min lon_min lat_max lon_max zoom_min zoom_max
                source_type delay).
  - intros t Ht. by apply is_downloaded_outcome.
Qed.

(** X9. The summary of [download_area] is exact.  For a known source, a
    delay that is not negative, at least one worker thread, a confirmed job
    and a disk on which the tile directories can be created, and whatever
    the schedule: [downloaded] is the number of tiles that were missing and
    that the provider served, [failed] the number of tiles that were missing
    and whose request failed, [skipped] the number of tiles already on the
    disk.  The substring test on the message, by which the loop tells a skip
    from a download, never takes one for the other. *)
Theorem download_area_summary_exact (sched : list nat) (w : world) :
  is_Some (TILE_SOURCES !! source_type) → Qle_bool 0 delay = true →
  0 < max_workers → confirmed total_tiles w →
  (∀ t, t ∈ tasks → unblocked (w_fs w) (dir_of out t)) →
  (area sched w).1
  = inr (Some (Counters
      (Z.of_nat (length (filter (λ t, fetch_succeeds w out t = true) tasks)))
      (Z.of_nat (length (filter (λ t, fetch_fails w out t = true) tasks)))
      (Z.of_nat (length (filter (λ t, path_exists (w_fs w) (path_of out t) = true) tasks))))).
Proof. intros Hs Hd Hw Hc Hfree. by rewrite summary_counts. Qed.

Lemma summary_of_world (sched : list nat) (w : world) :
  (summary_of sched w).2 = p_world (pool_of sched w).
Proof. unfold summary_of. by destruct (aggregate _ _). Qed.

(** X10. What [download_area] leaves on the disk.  On a disk where the tile
    directories can be created and for every schedule: nothing that was on
    the disk is removed or changed; every regular file that is new is the
    tile file of an enumerated task and holds, byte for byte, what the
    provider answered for the URL of that tile; and when the pool runs, every
    enumerated tile that was missing and that its provider serves is on the
    disk afterwards with that body. *)
Theorem download_area_stores_tiles (sched : list nat) (w : world) :
  (∀ t, t ∈ tasks → unblocked (w_fs w) (dir_of out t)) →
  let fs' := w_fs (area sched w).2 in
  (∀ p n, w_fs w !! p = Some n → fs' !! p = Some n) ∧
  (∀ p body, fs' !! p = Some (File body) →
     w_fs w !! p = Some (File body) ∨
     ∃ zoom x y url,
       (source_type, zoom, x, y, delay) ∈ tasks ∧
       p = tile_path out source_type zoom x y ∧
       tile_url source_type zoom x y = Some url ∧ w_net w url = Content body) ∧
  (confirmed total_tiles w → 0 < max_workers →
   ∀ zoom x y url body,
     (source_type, zoom, x, y, delay) ∈ tasks →
     w_fs w !! tile_path out source_type zoom x y = None →
     tile_url source_type zoom x y = Some url → Qle_bool 0 delay = true →
     w_net w url = Content body →
     fs' !! tile_path out source_type zoom x y = Some (File body)).
Proof.
  intros Hfree fs'. subst fs'.
  destruct (pool_facts sched w Hfree) as (_ & _ & _ & Hdone & Hfs & _).
  split; [|split].
  - destruct (area_cases w) as [[_ Hno] | (_ & _ & Hrun)].
    { destruct (Hno sched) as (-> & _). done. }
    rewrite Hrun, summary_of_world. intros p n Hp.
    destruct (Hfs p) as [-> | [HN _]]; [done | congruence].
  - destruct (area_cases w) as [[_ Hno] | (_ & _ & Hrun)].
    { destruct (Hno sched) as (-> & _). by left. }
    rewrite Hrun, summary_of_world. intros p body Hp.
    destruct (Hfs p) as [Hsame | (HN & t & Ht & [[Hne Hpre] | ->])].
    + left. by rewrite <- Hsame.
    + destruct (Hdone t Ht) as [Hm _]. rewrite (Hm p Hne Hpre) in Hp. done.
    + right. destruct (Hdone t Ht) as [_ Hw]. rewrite Hw in Hp.
      destruct (tasks_source _ _ _ _ _ _ _ _ t Ht) as (zoom & x & y & ->).
      exists zoom, x, y. cbn [written path_of] in *.
      destruct (path_exists _ _); [congruence|].
      destruct (tile_url source_type zoom x y) as [url|]; [|congruence].
      destruct (Qle_bool 0 delay); [|congruence].
      destruct (w_net w url) as [body'|] eqn:Hnet; [|congruence].
      exists url. by simplify_eq.
  - intros Hc Hw zoom x y url body Ht Hp Hurl Hd Hnet.
    unfold area.
    rewrite (download_area_proceeds out sched lat_min lon_min lat_max lon_max zoom_min
               zoom_max source_type max_workers delay w Hc Hw).
    fold tasks total_tiles. fold (pool_of sched w). fold (summary_of sched w).
    rewrite summary_of_world.
    destruct (Hdone _ Ht) as [_ Hfile]. cbn [written path_of] in Hfile.
    apply path_exists_false in Hp. by rewrite Hp, Hurl, Hd, Hnet in Hfile.
Qed.

Lemma length_filter_negb {A : Type} (P Q : A → bool) (l : list A) :
  (∀ x, x ∈ l → Q x = negb (P x)) →
  Z.of_nat (length (filter (λ x, Q x = true) l))
  = Z.of_nat (length l) - Z.of_nat (length (filter (λ x, P x = true) l)).
Proof.
  induction l as [|a l IH]; intros HQ; [done|].
  rewrite !filter_cons. rewrite (HQ a) by left.
  assert (IH' := IH (λ x Hx, HQ x (list_elem_of_further _ _ _ Hx))).
  destruct (P a); cbn [negb]; repeat case_decide; try done; cbn [length]; lia.
Qed.

(** After a run, a tile is on the disk unless its request failed. *)
Lemma exists_after_run (sched : list nat) (w : world) (t : task) :
  is_Some (TILE_SOURCES !! source_type) → Qle_bool 0 delay = true →
  (∀ t, t ∈ tasks → unblocked (w_fs w) (dir_of out t)) → t ∈ tasks →
  path_exists (w_fs (p_world (pool_of sched w))) (path_of out t)
  = negb (fetch_fails w out t).
Proof.
  intros Hs Hd Hfree Ht.
  destruct (pool_facts sched w Hfree) as (_ & _ & _ & Hdone & _).
  destruct (Hdone t Ht) as [_ Hfile].
  destruct (tasks_source _ _ _ _ _ _ _ _ t Ht) as (zoom & x & y & ->).
  unfold path_exists at 1. rewrite Hfile. cbn [written fetch_fails path_of].
  destruct (path_exists (w_fs w) _) eqn:Hex.
  { unfold path_exists in Hex. by destruct (w_fs w !! _). }
  apply path_exists_false in Hex. rewrite Hex.
  destruct (tile_url_is_Some source_type zoom x y Hs) as [url ->].
  rewrite Hd. by destruct (w_net w url).
Qed.

(** X11. Resuming.  After a run of [download_area] (known source, delay not
    negative, at least one worker, job confirmed, tile directories
    creatable), a second run over the same area, under any schedule and
    whatever the providers answer by then, asks the providers only for the
    tiles whose request failed the first time: every other worker does its
    [mkdir] and its probe and nothing else, and the second summary counts as
    skipped every tile but those failures. *)
Theorem download_area_resume (sched sched' : list nat) (w : world)
    (net' : string → reply) (stdin' : list string) :
  is_Some (TILE_SOURCES !! source_type) → Qle_bool 0 delay = true →
  0 < max_workers → confirmed total_tiles w →
  (∀ t, t ∈ tasks → unblocked (w_fs w) (dir_of out t)) →
  let w1 := (area sched w).2 in
  let again := area sched' (World (w_fs w1) net' stdin' (w_trace w1)) in
  confirmed total_tiles (World (w_fs w1) net' stdin' (w_trace w1)) →
  ∃ c tr,
    again.1 = inr (Some c) ∧
    skipped c
    = total_tiles - Z.of_nat (length (filter (λ t, fetch_fails w out t = true) tasks)) ∧
    w_trace again.2 = w_trace w1 ++ tr ∧
    (∀ i t, tasks !! i = Some t → fetch_fails w out t = false →
       ops_of i tr = [OMkdir (dir_of out t); OExists (path_of out t)]) ∧
    (∀ i url, (i, OGet url) ∈ tr →
       ∃ t, tasks !! i = Some t ∧ fetch_fails w out t = true).
Proof.
  intros Hs Hd Hw Hc Hfree w1 again Hc'.
  assert (Hw1 : w1 = p_world (pool_of sched w)).
  { subst w1. by rewrite summary_counts. }
  clearbody w1. subst w1. set (w1 := World _ net' stdin' _) in *.
  destruct (pool_facts sched w Hfree) as (_ & _ & _ & Hdone & _).
  assert (Hfree' : ∀ t, t ∈ tasks → unblocked (w_fs w1) (dir_of out t)).
  { intros t Ht. apply made_unblocked. by destruct (Hdone t Ht). }
  assert (Hex : ∀ t, t ∈ tasks →
            path_exists (w_fs w1) (path_of out t) = negb (fetch_fails w out t)).
  { intros t Ht. by apply exists_after_run. }
  destruct (pool_facts sched' w1 Hfree') as (_ & _ & _ & _ & _ & tr & Htr & Hmine & Hops).
  assert (Hquiet : ∀ i t, tasks !! i = Some t → fetch_fails w out t = false →
            ops_of i tr = [OMkdir (dir_of out t); OExists (path_of out t)]).
  { intros i t Ht Hff. rewrite (Hops i t Ht).
    destruct (outcome_exists out (w_fs w1) (w_net w1) t) as (? & ? & ? & ? & ? & _ & _ & ->);
      [|done].
    rewrite Hex by by eapply list_elem_of_lookup_2. by rewrite Hff. }
  subst again. rewrite (summary_counts sched' w1 Hs Hd Hw Hc' Hfree'). cbn [fst snd].
  eexists _, tr. split; [reflexivity|]. cbn [skipped].
  split; [|split; [exact Htr|split; [exact Hquiet|]]].
  - rewrite (length_filter_negb (λ t, fetch_fails w out t)) by done.
    unfold total_tiles, tasks. by rewrite total_tiles_length.
  - intros i url Hio. destruct (Hmine i _ Hio) as [t Ht]. exists t. split; [done|].
    destruct (fetch_fails w out t) eqn:Hff; [done|]. exfalso.
    apply elem_of_ops_of in Hio. rewrite (Hquiet i t Ht Hff) in Hio.
    apply elem_of_cons in Hio as [? | Hio]; [done|].
    by apply list_elem_of_singleton in Hio.
Qed.

(** X12. Without a worker thread nothing is downloaded.  When
    [max_workers] is zero or negative, [download_area] still enumerates the
    tiles and still asks for the confirmation of a large job, but it starts
    no worker: the disk and the trace stay as they are, no summary is
    printed, and a job that gets past the prompt ends with the [ValueError]
    of the thread pool. *)
Theorem download_area_no_workers (sched : list nat) (w : world) :
  max_workers ≤ 0 →
  w_fs (area sched w).2 = w_fs w ∧
  w_trace (area sched w).2 = w_trace w ∧
  (∀ c, (area sched w).1 ≠ inr (Some c)) ∧
  (confirmed total_tiles w →
   (area sched w).1 = inl (ValueError "max_workers must be greater than 0")).
Proof.
  intros Hw. unfold area.
  destruct (download_area_cases out sched lat_min lon_min lat_max lon_max zoom_min zoom_max
              source_type max_workers delay w)
    as [(Hn & Hin & ->) | [(Hn & r & rest & Hin & Hr & ->) | [(Hc & _ & ->) | (_ & ? & _)]]];
    [| | |lia]; cbn [fst snd].
  - fold total_tiles in Hn. repeat split; [done|].
    intros [? | (r & rest & ? & _)]; [lia | congruence].
  - fold total_tiles in Hn. repeat split; [done|].
    intros [? | (r' & rest' & ? & ?)]; [lia | congruence].
  - unfold after_prompt. by destruct (1000 <? _).
Qed.

Lemma run_pool_nil (sched : list nat) (w : world) :
  run_pool out max_workers [] sched w = Pool w [] [].
Proof.
  unfold run_pool. cbn [length replicate seq foldl].
  induction sched as [|i sched IH]; [done|]. cbn [foldl]. exact IH.
Qed.

Lemma range_empty (a b : Z) : b ≤ a → range a b = [].
Proof. intros H. unfold range. apply seqZ_nil. lia. Qed.

(** X13. An empty zoom range is not an error.  With [zoom_max] below
    [zoom_min] the loops enumerate nothing, the prompt is not shown, and
    [download_area] prints a summary of three zeros without touching the
    disk, the console or the network, for any schedule. *)
Theorem download_area_empty_range (sched : list nat) (w : world) :
  zoom_max < zoom_min → 0 < max_workers →
  tasks = [] ∧ area sched w = (inr (Some (Counters 0 0 0)), w).
Proof.
  intros Hz Hw.
  assert (Ht : tasks = []).
  { unfold tasks. rewrite enumerate_covering. cbn [fst]. unfold covering.
    by rewrite range_empty by lia. }
  assert (Hn : total_tiles = 0).
  { unfold total_tiles. fold tasks. rewrite total_tiles_length. fold tasks. by rewrite Ht. }
  split; [done|]. unfold area.
  rewrite download_area_proceeds; [|left; fold total_tiles; lia|done].
  fold tasks total_tiles. rewrite Ht, Hn, run_pool_nil. done.
Qed.

(** X14. At most one request per tile, and never without the pause.  In
    every run of [download_area] on a disk where the tile directories can be
    created, a worker that sends a request is the worker of a tile that was
    missing when the run started; the request goes to the URL of that tile;
    it is the fourth operation of the worker, directly after the
    [time.sleep(delay)] that follows its [mkdir] and its probe; and the
    worker sends no second request. *)
Theorem one_request_per_missing_tile (sched : list nat) (w : world) :
  (∀ t, t ∈ tasks → unblocked (w_fs w) (dir_of out t)) →
  ∃ tr,
    w_trace (area sched w).2 = w_trace w ++ tr ∧
    ∀ i url, (i, OGet url) ∈ tr →
      ∃ zoom x y rest,
        tasks !! i = Some (source_type, zoom, x, y, delay) ∧
        w_fs w !! tile_path out source_type zoom x y = None ∧
        tile_url source_type zoom x y = Some url ∧
        ops_of i tr
        = [OMkdir (tile_dir out source_type zoom x);
           OExists (tile_path out source_type zoom x y);
           OSleep delay; OGet url] ++ rest ∧
        ∀ url', OGet url' ∉ rest.
Proof.
  intros Hfree.
  destruct (area_cases w) as [[_ Hno] | (_ & _ & Hrun)].
  { exists []. destruct (Hno sched) as (_ & -> & _). rewrite app_nil_r. split; [done|].
    intros i url Hio. by apply elem_of_nil in Hio. }
  destruct (pool_facts sched w Hfree) as (_ & _ & _ & _ & _ & tr & Htr & Hmine & Hops).
  exists tr. rewrite Hrun, summary_of_world. split; [done|].
  intros i url Hio. destruct (Hmine i _ Hio) as [t Ht].
  apply elem_of_ops_of in Hio. rewrite (Hops i t Ht) in *.
  destruct (tasks_source _ _ _ _ _ _ _ _ t (list_elem_of_lookup_2 _ _ _ Ht))
    as (zoom & x & y & ->).
  exists zoom, x, y. cbn [solo_trace] in *.
  destruct (path_exists (w_fs w) _) eqn:Hex.
  { exfalso. repeat (apply elem_of_cons in Hio as [? | Hio]; [done|]).
    by apply elem_of_nil in Hio. }
  apply path_exists_false in Hex.
  destruct (tile_url source_type zoom x y) as [url0|].
  2: { exfalso. repeat (apply elem_of_cons in Hio as [? | Hio]; [done|]).
       by apply elem_of_nil in Hio. }
  destruct (Qle_bool 0 delay).
  2: { exfalso. repeat (apply elem_of_cons in Hio as [? | Hio]; [done|]).
       by apply elem_of_nil in Hio. }
  assert (url = url0) as <-.
  { repeat (apply elem_of_cons in Hio as [Hio | Hio]; [by simplify_eq|]).
    destruct (w_net w url0); [|by apply elem_of_nil in Hio].
    apply list_elem_of_singleton in Hio. done. }
  destruct (w_net w url) as [body|e].
  - exists [OWrite (tile_path out source_type zoom x y) body].
    repeat split; [done..|]. intros url' H. by apply list_elem_of_singleton in H.
  - exists []. repeat split; [done..|]. intros url' H. by apply elem_of_nil in H.
Qed.

(** What any call of [download_area] does to a disk that is clear for the
    tile directories, and how it can end. *)
Lemma area_frame (sched : list nat) (w : world) :
  clear_for out (w_fs w) →
  clear_for out (w_fs (area sched w).2) ∧
  (∀ p n, w_fs w !! p = Some n → w_fs (area sched w).2 !! p = Some n) ∧
  (∀ p, w_fs (area sched w).2 !! p = w_fs w !! p ∨
        (p ≠ [] ∧ ∃ s z x y, p `prefix_of` tile_path out s z x y)) ∧
  w_net (area sched w).2 = w_net w ∧
  (is_Some (TILE_SOURCES !! source_type) → Qle_bool 0 delay = true → 0 < max_workers →
   (area sched w).1 = inl EOFError ∨ ∃ oc, (area sched w).1 = inr oc).
Proof.
  intros Hclear.
  assert (Hfree : ∀ t, t ∈ tasks → unblocked (w_fs w) (dir_of out t)).
  { intros [[[[s z] x] y] d] _. apply Hclear. }
  assert (Hres : is_Some (TILE_SOURCES !! source_type) → Qle_bool 0 delay = true →
            0 < max_workers →
            (area sched w).1 = inl EOFError ∨ ∃ oc, (area sched w).1 = inr oc).
  { intros Hs Hd Hw. unfold area.
    destruct (download_area_cases out sched lat_min lon_min lat_max lon_max zoom_min
                zoom_max source_type max_workers delay w)
      as [(_ & _ & ->) | [(_ & r & rest & _ & _ & ->) | [(_ & ? & _) | (Hc & _ & _)]]];
      [by left | right; by eexists | lia |].
    destruct (summary_exists out sched lat_min lon_min lat_max lon_max zoom_min zoom_max
                source_type max_workers delay w Hs Hd Hw Hc Hfree) as (c & w' & ->).
    right. by eexists. }
  destruct (area_cases w) as [[_ Hno] | (_ & _ & Hrun)].
  { destruct (Hno sched) as (-> & _ & -> & _).
    split; [done|]. split; [done|]. split; [by left|]. done. }
  destruct (pool_facts sched w Hfree) as (Hnet & _ & _ & Hdone & Hfs & _).
  rewrite Hrun, summary_of_world in *. split; [|split; [|split; [|done]]].
  - intros s z x q c Hq Hpre.
    destruct (Hfs q) as [-> | (_ & t & Ht & [[_ Hpre'] | ->])]; [by apply (Hclear s z x)|..].
    + destruct (Hdone t Ht) as [Hm _]. by rewrite (Hm q Hq Hpre').
    + by destruct (path_of_not_prefix out t (s, z, x, 0, delay)).
  - intros p n Hp. destruct (Hfs p) as [-> | [HN _]]; [done | congruence].
  - intros p. destruct (Hfs p) as [? | (_ & [[[[s z] x] y] d] & _ & [[Hne Hpre] | ->])];
      [by left|..]; right.
    + split; [done|]. exists s, z, x, 0. etrans; [exact Hpre|]. apply prefix_app_r. done.
    + split; [|by exists s, z, x, y]. cbn [path_of]. unfold tile_path. by destruct (tile_dir _ _ _ _).
Qed.

End Runs.

(** *** The runs on the tile 0/0/0 of osm *)

Lemma tasks_origin_unblocked (s : string) (d : Q) (t : task) :
  t ∈ (enumerate 0 0 0 0 0 0 s d).1 → unblocked disk_empty (dir_of ["tiles"] t).
Proof. intros _. apply unblocked_disk_empty. Qed.

Lemma confirmed_origin (s : string) (d : Q) (w : world) :
  confirmed (enumerate 0 0 0 0 0 0 s d).2 w.
Proof. left. rewrite enumerate_origin. cbn. lia. Qed.

Lemma osm_known : is_Some (TILE_SOURCES !! "osm").
Proof. rewrite TILE_SOURCES_osm. by eexists. Qed.

(** Witness of X8: two schedules of the job of the single osm tile 0/0/0. *)
Lemma download_area_schedule_independent_witness :
  (download_area ["tiles"] [0; 0; 0]%nat 0 0 0 0 0 0 "osm" 4 (1 # 10)%Q
     (World disk_empty provider_up [] [])).1
  = (download_area ["tiles"] [] 0 0 0 0 0 0 "osm" 4 (1 # 10)%Q
       (World disk_empty provider_up [] [])).1.
Proof.
  destruct (download_area_schedule_independent ["tiles"] 0 0 0 0 0 0 "osm" 4 (1 # 10)%Q
              [0; 0; 0]%nat [] (World disk_empty provider_up [] [])) as [H _].
  - apply tasks_origin_unblocked.
  - exact H.
Defined.

(** Witness of X9: one tile, missing and served. *)
Lemma download_area_summary_exact_witness :
  (download_area ["tiles"] [] 0 0 0 0 0 0 "osm" 4 (1 # 10)%Q
     (World disk_empty provider_up [] [])).1
  = inr (Some (Counters 1 0 0)).
Proof.
  rewrite (download_area_summary_exact ["tiles"] 0 0 0 0 0 0 "osm" 4 (1 # 10)%Q []
             (World disk_empty provider_up [] [])).
  - rewrite enumerate_origin. cbn [fst]. vm_compute. reflexivity.
  - exact osm_known.
  - reflexivity.
  - lia.
  - apply confirmed_origin.
  - apply tasks_origin_unblocked.
Defined.

(** Witness of X10: the body served for the osm tile 0/0/0 is on the disk. *)
Lemma download_area_stores_tiles_witness :
  w_fs (download_area ["tiles"] [] 0 0 0 0 0 0 "osm" 4 (1 # 10)%Q
          (World disk_empty provider_up [] [])).2
  !! ["tiles"; "osm"; "0"; "0"; "0.png"] = Some (File "tile").
Proof.
  destruct (download_area_stores_tiles ["tiles"] 0 0 0 0 0 0 "osm" 4 (1 # 10)%Q []
              (World disk_empty provider_up [] [])) as (_ & _ & H).
  - apply tasks_origin_unblocked.
  - apply (H (confirmed_origin _ _ _) ltac:(lia) 0 0 0
             "https://tile.openstreetmap.org/0/0/0.png" "tile").
    + rewrite enumerate_origin. cbn [fst]. apply list_elem_of_singleton. reflexivity.
    + vm_compute. reflexivity.
    + vm_compute. reflexivity.
    + reflexivity.
    + reflexivity.
Defined.

(** Witness of X11: the provider is down in the first run and up in the second; the
    one tile failed, so the second run skips nothing. *)
Lemma download_area_resume_witness :
  let w1 := (download_area ["tiles"] [] 0 0 0 0 0 0 "osm" 4 (1 # 10)%Q world_down).2 in
  ∃ c, (download_area ["tiles"] [0]%nat 0 0 0 0 0 0 "osm" 4 (1 # 10)%Q
          (World (w_fs w1) provider_up [] (w_trace w1))).1 = inr (Some c) ∧
       skipped c = 0.
Proof.
  intros w1.
  destruct (download_area_resume ["tiles"] 0 0 0 0 0 0 "osm" 4 (1 # 10)%Q [] [0]%nat
              world_down provider_up [])
    as (c & tr & H1 & H2 & _).
  - exact osm_known.
  - reflexivity.
  - lia.
  - apply confirmed_origin.
  - apply tasks_origin_unblocked.
  - apply confirmed_origin.
  - exists c. split; [exact H1|]. rewrite H2. rewrite enumerate_origin. cbn [fst snd].
    vm_compute. reflexivity.
Defined.

(** Witness of X12: no worker thread. *)
Lemma download_area_no_workers_witness :
  (download_area ["tiles"] [] 0 0 0 0 0 0 "osm" 0 (1 # 10)%Q world_down).1
  = inl (ValueError "max_workers must be greater than 0").
Proof.
  destruct (download_area_no_workers ["tiles"] 0 0 0 0 0 0 "osm" 0 (1 # 10)%Q []
              world_down) as (_ & _ & _ & H).
  - lia.
  - apply H, confirmed_origin.
Defined.

(** Witness of X13: the first preset area of [main] with the zooms the wrong way
    round. *)
Lemma download_area_empty_range_witness :
  download_area ["tiles"] [] 50 86 51 87.5 12 8 "terrain" 3 (1 # 2)%Q world_down
  = (inr (Some (Counters 0 0 0)), world_down).
Proof.
  apply (download_area_empty_range ["tiles"] 50 86 51 87.5 12 8 "terrain" 3 (1 # 2)%Q []
           world_down); lia.
Defined.

(** Witness of X14: the only request of the job of the osm tile 0/0/0. *)
Lemma one_request_per_missing_tile_witness :
  ∃ tr,
    w_trace (download_area ["tiles"] [] 0 0 0 0 0 0 "osm" 4 (1 # 10)%Q
               (World disk_empty provider_up [] [])).2 = tr ∧
    ∀ i url, (i, OGet url) ∈ tr →
      i = 0%nat ∧ url = "https://tile.openstreetmap.org/0/0/0.png".
Proof.
  destruct (one_request_per_missing_tile ["tiles"] 0 0 0 0 0 0 "osm" 4 (1 # 10)%Q []
              (World disk_empty provider_up [] [])) as (tr & Htr & H).
  - apply tasks_origin_unblocked.
  - exists tr. split; [exact Htr|]. intros i url Hio.
    destruct (H i url Hio) as (zoom & x & y & rest & Ht & _ & Hurl & _).
    rewrite enumerate_origin in Ht. cbn [fst] in Ht.
    destruct i as [|i]; [|by destruct i]. cbn in Ht. simplify_eq.
    split; [done|]. rewrite tile_url_osm in Hurl. by simplify_eq.
Defined.

(** ** The thread pool keeps to its size *)




Section Bound.
Context (out : path) (max_workers : Z) (tasks : list task).





End Bound.

(** ** The command-line program *)

Lemma source_types_Some (m : string) (sources : list string) :
  source_types !! m = Some sources →
  m ∈ ["1"; "2"; "3"; "4"] ∧ Forall (λ s, is_Some (TILE_SOURCES !! s)) sources.
Proof.
  unfold source_types. intros H.
  repeat (apply lookup_insert_Some in H as [[<- <-] | [_ H]];
    [split; [set_solver|];
     repeat (apply Forall_cons; split;
       [rewrite ?TILE_SOURCES_terrain, ?TILE_SOURCES_satellite, ?TILE_SOURCES_osm;
        by eexists|]);
     apply Forall_nil_2|]).
  by rewrite lookup_empty in H.
Qed.

Lemma source_types_None (m : string) :
  m ∉ ["1"; "2"; "3"; "4"] → source_types !! m = None.
Proof.
  intros Hm. unfold source_types.
  rewrite !lookup_insert_ne, lookup_empty; [done|..]; intros <-; apply Hm; set_solver.
Qed.

Lemma areas_None (c : string) : c ∉ ["1"; "2"; "3"; "4"] → areas !! c = None.
Proof.
  intros Hc. unfold areas.
  rewrite !lookup_insert_ne, lookup_empty; [done|..]; intros <-; apply Hc; set_solver.
Qed.

Lemma areas_Some (c : string) (a : area) :
  areas !! c = Some a → c ∈ ["1"; "2"; "3"; "4"].
Proof.
  unfold areas. intros H.
  repeat (apply lookup_insert_Some in H as [[<- _] | [_ H]]; [set_solver|]).
  by rewrite lookup_empty in H.
Qed.

Section Frame.
Context (out : path).

(** The disk [fs'] comes from [fs] by adding entries on the way to tile
    files of [out]; it is still clear for the tile directories. *)
Let frame (fs fs' : gmap path node) : Prop :=
  clear_for out fs' ∧
  (∀ p n, fs !! p = Some n → fs' !! p = Some n) ∧
  (∀ p, fs' !! p = fs !! p ∨ (p ≠ [] ∧ ∃ s z x y, p `prefix_of` tile_path out s z x y)).

(** A console program leaves the providers alone and the disk framed; it
    ends normally or on the end of the console input. *)
Let tame (w : world) (m : io unit) : Prop :=
  frame (w_fs w) (w_fs (m w).2) ∧ w_net (m w).2 = w_net w ∧
  ((m w).1 = inr () ∨ (m w).1 = inl EOFError).

Lemma frame_refl (fs : gmap path node) : clear_for out fs → frame fs fs.
Proof. intros H. split; [done|]. split; [done|]. intros p. by left. Qed.

Lemma frame_trans (fs1 fs2 fs3 : gmap path node) :
  frame fs1 fs2 → frame fs2 fs3 → frame fs1 fs3.
Proof.
  intros (_ & Hold & Hnew) (Hclear & Hold' & Hnew').
  split; [done|]. split; [by eauto|]. intros p.
  destruct (Hnew' p) as [-> | ?]; [apply Hnew | by right].
Qed.

Lemma download_sources_tame (sched : nat → list nat) (k : nat)
    (lat_min lon_min lat_max lon_max : R) (zoom_min zoom_max : Z) (sources : list string)
    (w : world) :
  clear_for out (w_fs w) →
  Forall (λ s, is_Some (TILE_SOURCES !! s)) sources →
  tame w (download_sources out sched k lat_min lon_min lat_max lon_max
            zoom_min zoom_max sources).
Proof.
  revert k w. induction sources as [|source rest IH]; intros k w Hclear Hknown.
  { split; [by apply frame_refl|]. split; [done|]. by left. }
  apply Forall_cons in Hknown as [Hs Hrest].
  destruct (area_frame out lat_min lon_min lat_max lon_max zoom_min zoom_max source 3
              (1 # 2)%Q (sched k) w Hclear) as (Hclear1 & Hold & Hnew & Hnet & Hres).
  specialize (Hres Hs eq_refl ltac:(lia)).
  unfold tame. cbn [download_sources]. unfold io_bind.
  destruct (download_area _ _ _ _ _ _ _ _ _ _ _ w) as [[e|oc] w1]; cbn [fst snd] in *.
  { split; [done|]. split; [done|]. right. by destruct Hres as [[= ->] | [? [=]]]. }
  destruct (IH (S k) w1 Hclear1 Hrest) as (Hframe & Hnet' & Hres').
  split; [by eapply frame_trans|]. split; [congruence|done].
Qed.

Lemma choose_map_tame (sched : nat → list nat)
    (lat_min lon_min lat_max lon_max : R) (zoom_min zoom_max : Z) (w : world) :
  clear_for out (w_fs w) →
  tame w (choose_map out sched lat_min lon_min lat_max lon_max zoom_min zoom_max).
Proof.
  intros Hclear. unfold tame, choose_map, io_bind, input.
  destruct (w_stdin w) as [|line rest].
  { split; [by apply frame_refl|]. split; [done|]. by right. }
  destruct (source_types !! strip line) as [sources|] eqn:Hm.
  - apply source_types_Some in Hm as [_ Hknown].
    by apply (download_sources_tame sched 0 _ _ _ _ _ _ sources (set_stdin rest w)).
  - split; [by apply frame_refl|]. split; [done|]. by left.
Qed.

Lemma try_input_tame {A : Type} (parse : string → option A) (k : A → io unit) (w : world) :
  clear_for out (w_fs w) →
  (∀ v w1, w_fs w1 = w_fs w → w_net w1 = w_net w → tame w1 (k v)) →
  tame w (try_input parse k).
Proof.
  intros Hclear Hk. unfold tame, try_input, io_bind, input.
  destruct (w_stdin w) as [|line rest].
  { split; [by apply frame_refl|]. split; [done|]. by right. }
  destruct (parse line) as [v|].
  - by apply (Hk v (set_stdin rest w)).
  - split; [by apply frame_refl|]. split; [done|]. by left.
Qed.

End Frame.

Lemma clear_for_tiles_dir (fs : gmap path node) (c : string) :
  clear_for ["tiles"] fs → fs !! ["tiles"] ≠ Some (File c).
Proof.
  intros H. apply (H "" 0 0); [done|]. unfold tile_dir. apply prefix_cons, prefix_nil.
Qed.

(** The constructor, called by [main] with the default directory. *)
Lemma init_tiles (w : world) :
  (∀ c, w_fs w !! ["tiles"] ≠ Some (File c)) →
  ∃ fs0,
    __init__ ["tiles"] w = (inr ["tiles"], set_fs fs0 w) ∧
    fs0 !! ["tiles"] = Some Dir ∧
    (∀ p, p ≠ ["tiles"] → fs0 !! p = w_fs w !! p) ∧
    (∀ p n, w_fs w !! p = Some n → fs0 !! p = Some n).
Proof.
  intros Hfile. unfold __init__, mkdir_exist_ok.
  destruct (w_fs w !! ["tiles"]) as [[|c]|] eqn:E.
  - by exists (w_fs w).
  - by destruct (Hfile c).
  - cbn [parent removelast is_dir]. exists (<[["tiles"] := Dir]> (w_fs w)).
    split; [done|]. split; [by rewrite lookup_insert_eq|]. split.
    + intros p Hp. by rewrite lookup_insert_ne.
    + intros p n Hp. rewrite lookup_insert_ne; [done|]. intros <-. congruence.
Qed.

Lemma io_bind_inr {A B : Type} (m : io A) (k : A → io B) (w : world) (a : A) (w' : world) :
  m w = (inr a, w') → io_bind m k w = k a w'.
Proof. unfold io_bind. by intros ->. Qed.

Lemma io_bind_inl {A B : Type} (m : io A) (k : A → io B) (w : world) (e : exn) (w' : world) :
  m w = (inl e, w') → io_bind m k w = (inl e, w').
Proof. unfold io_bind. by intros ->. Qed.

Lemma input_nil (w : world) : w_stdin w = [] → input w = (inl EOFError, w).
Proof. unfold input. by intros ->. Qed.

Lemma input_cons (w : world) (line : string) (rest : list string) :
  w_stdin w = line :: rest → input w = (inr line, set_stdin rest w).
Proof. unfold input. by intros ->. Qed.

Section MainProgram.
Context (float : string → option R) (int : string → option Z) (sched : nat → list nat).

(** [main] is the constructor followed by a program that is tame on the disk
    the constructor leaves. *)
Lemma main_shape (w : world) :
  clear_for ["tiles"] (w_fs w) →
  ∃ (m : io unit) (w0 : world),
    main float int sched w = m w0 ∧
    w_fs w0 !! ["tiles"] = Some Dir ∧
    (∀ p, p ≠ ["tiles"] → w_fs w0 !! p = w_fs w !! p) ∧
    w_net w0 = w_net w ∧
    (clear_for ["tiles"] (w_fs (m w0).2) ∧
     (∀ p n, w_fs w0 !! p = Some n → w_fs (m w0).2 !! p = Some n) ∧
     (∀ p, w_fs (m w0).2 !! p = w_fs w0 !! p ∨
           (p ≠ [] ∧ ∃ s z x y, p `prefix_of` tile_path ["tiles"] s z x y))) ∧
    w_net (m w0).2 = w_net w0 ∧
    ((m w0).1 = inr () ∨ (m w0).1 = inl EOFError).
Proof.
  intros Hclear.
  destruct (init_tiles w) as (fs0 & Hinit & Htiles & Hother & Hold).
  { intros c. by apply clear_for_tiles_dir. }
  assert (Hclear0 : clear_for ["tiles"] fs0).
  { intros s z x q c Hq Hpre. destruct (decide (q = ["tiles"])) as [->|Hne]; [congruence|].
    rewrite Hother by done. by apply (Hclear s z x). }
  assert (Hstop : ∀ (r : exn + unit) w0, w_fs w0 = fs0 →
    r = inr () ∨ r = inl EOFError →
    (clear_for ["tiles"] (w_fs ((λ w, (r, w)) w0).2) ∧
     (∀ p n, w_fs w0 !! p = Some n → w_fs ((λ w, (r, w)) w0).2 !! p = Some n) ∧
     (∀ p, w_fs ((λ w, (r, w)) w0).2 !! p = w_fs w0 !! p ∨
           (p ≠ [] ∧ ∃ s z x y, p `prefix_of` tile_path ["tiles"] s z x y))) ∧
    w_net ((λ w, (r, w)) w0).2 = w_net w0 ∧
    (((λ w, (r, w)) w0).1 = inr () ∨ ((λ w, (r, w)) w0).1 = inl EOFError)).
  { intros r w0 Hfs Hr. cbn [fst snd]. rewrite Hfs. split; [|done].
    split; [done|]. split; [done|]. intros p. by left. }
  unfold main. rewrite (io_bind_inr _ _ _ _ _ Hinit).
  set (w0 := set_fs fs0 w).
  destruct (w_stdin w) as [|line rest] eqn:Hin.
  { exists (λ w, (inl EOFError, w)), w0.
    rewrite (io_bind_inl _ _ w0 EOFError w0) by by apply input_nil.
    split; [done|]. split; [done|]. split; [done|]. split; [done|].
    apply Hstop; [done | by right]. }
  rewrite (io_bind_inr _ _ w0 line (set_stdin rest w0)) by by apply input_cons.
  set (w1 := set_stdin rest w0). cbv zeta.
  destruct (decide (strip line = "0")).
  { exists (λ w, (inr (), w)), w1. repeat (split; [done|]). apply Hstop; [done | by left]. }
  destruct (areas !! strip line)
    as [[name [[[lat_min lon_min] lat_max] lon_max] [zoom_min zoom_max]]|].
  { cbn [area_bounds area_zoom].
    exists (choose_map ["tiles"] sched lat_min lon_min lat_max lon_max zoom_min zoom_max), w1.
    repeat (split; [done|]). by apply choose_map_tame. }
  destruct (decide (strip line = "5")).
  2: { exists (λ w, (inr (), w)), w1. repeat (split; [done|]). apply Hstop; [done | by left]. }
  eexists _, w1. split; [reflexivity|]. repeat (split; [done|]).
  apply try_input_tame; [done|]; intros lat_min w2 Hfs2 Hnet2.
  apply try_input_tame; [by rewrite Hfs2|]; intros lon_min w3 Hfs3 Hnet3.
  apply try_input_tame; [by rewrite Hfs3, Hfs2|]; intros lat_max w4 Hfs4 Hnet4.
  apply try_input_tame; [by rewrite Hfs4, Hfs3, Hfs2|]; intros lon_max w5 Hfs5 Hnet5.
  apply try_input_tame; [by rewrite Hfs5, Hfs4, Hfs3, Hfs2|]; intros zoom_min w6 Hfs6 Hnet6.
  apply try_input_tame; [by rewrite Hfs6, Hfs5, Hfs4, Hfs3, Hfs2|];
    intros zoom_max w7 Hfs7 Hnet7.
  apply choose_map_tame. by rewrite Hfs7, Hfs6, Hfs5, Hfs4, Hfs3, Hfs2.
Qed.

Lemma main_tame (w : world) :
  clear_for ["tiles"] (w_fs w) →
  (∀ p n, w_fs w !! p = Some n → w_fs (main float int sched w).2 !! p = Some n) ∧
  (∀ p, w_fs (main float int sched w).2 !! p = w_fs w !! p ∨
        (p ≠ [] ∧ ∃ s z x y, p `prefix_of` tile_path ["tiles"] s z x y)) ∧
  w_net (main float int sched w).2 = w_net w ∧
  ((main float int sched w).1 = inr () ∨ (main float int sched w).1 = inl EOFError).
Proof.
  intros Hclear.
  destruct (main_shape w Hclear)
    as (m & w0 & -> & Htiles & Hother & Hnet & (_ & Hold & Hnew) & Hnet' & Hres).
  split; [|split; [|split; [congruence|done]]].
  - intros p n Hp. apply Hold. destruct (decide (p = ["tiles"])) as [->|Hne].
    + rewrite Htiles. destruct n as [|c]; [done|]. by destruct (clear_for_tiles_dir _ c Hclear).
    + by rewrite Hother.
  - intros p. destruct (Hnew p) as [Hp | ?]; [|by right].
    destruct (decide (p = ["tiles"])) as [->|Hne].
    + right. split; [done|]. exists "", 0, 0, 0. apply prefix_cons, prefix_nil.
    + left. by rewrite Hp, Hother.
Qed.

(** X16. [main] writes below [tiles] only.  Whatever is typed at the two
    menus and at the prompts, under every schedule of every download, on a
    disk where no regular file stands in place of a tile directory: every
    entry of the disk that [main] adds is [tiles], a directory on the way to
    a tile file, or a tile file; nothing that was on the disk is removed or
    changed; the providers are left as they are. *)
Theorem main_writes_below_tiles (w : world) :
  clear_for ["tiles"] (w_fs w) →
  (∀ p n, w_fs w !! p = Some n → w_fs (main float int sched w).2 !! p = Some n) ∧
  (∀ p, w_fs (main float int sched w).2 !! p = w_fs w !! p ∨
        (p ≠ [] ∧ ∃ s z x y, p `prefix_of` tile_path ["tiles"] s z x y)) ∧
  w_net (main float int sched w).2 = w_net w.
Proof.
  intros Hclear. destruct (main_tame w Hclear) as (Hold & Hnew & Hnet & _). done.
Qed.

(** X17. With a preset area [main] does not crash.  When the first answer is
    not the custom area, on a disk where no regular file stands in place of
    a tile directory, [main] ends normally or, if the console is closed at
    one of its prompts, with [EOFError]: the sources it passes to
    [download_area] are all keys of [TILE_SOURCES], it asks for three worker
    threads and for a delay of half a second, so that neither the [KeyError]
    of an unknown source nor a [ValueError] of the pool or of the sleep can
    occur.  (For the custom area the typed coordinates are floats that the
    model reads as reals; they are left out of this statement.) *)
Theorem main_preset_never_crashes (w : world) :
  clear_for ["tiles"] (w_fs w) →
  (∀ line rest, w_stdin w = line :: rest → strip line ≠ "5") →
  (main float int sched w).1 = inr () ∨ (main float int sched w).1 = inl EOFError.
Proof.
  intros Hclear _. destruct (main_tame w Hclear) as (_ & _ & _ & Hres). done.
Qed.

Lemma areas_is_Some (c : string) : c ∈ ["1"; "2"; "3"; "4"] → is_Some (areas !! c).
Proof.
  intros Hc. unfold areas.
  repeat (apply elem_of_cons in Hc as [-> | Hc];
    [rewrite ?lookup_insert_ne by done; rewrite lookup_insert_eq; by eexists|]).
  by apply elem_of_nil in Hc.
Qed.

(** X18. An answer outside a menu ends [main] quietly.  When [tiles] is not
    a regular file: if the first answer, stripped of white space, is none of
    1 to 5 (so also for 0, the exit), or if it is a preset and the second
    answer is none of 1 to 4, [main] returns normally without starting any
    download and without reading further: the trace is unchanged, the
    console has lost exactly the answers read, and the disk is the initial
    one with the directory [tiles], which the constructor made before the
    menu was shown. *)
Theorem main_rejected_choice (w : world) (line : string) (rest : list string) :
  (∀ c, w_fs w !! ["tiles"] ≠ Some (File c)) →
  w_stdin w = line :: rest →
  ∃ fs',
    fs' !! ["tiles"] = Some Dir ∧ (∀ p, p ≠ ["tiles"] → fs' !! p = w_fs w !! p) ∧
    (strip line ∉ ["1"; "2"; "3"; "4"; "5"] →
     main float int sched w = (inr (), World fs' (w_net w) rest (w_trace w))) ∧
    (strip line ∈ ["1"; "2"; "3"; "4"] →
     ∀ line' rest', rest = line' :: rest' → strip line' ∉ ["1"; "2"; "3"; "4"] →
       main float int sched w = (inr (), World fs' (w_net w) rest' (w_trace w))).
Proof.
  intros Hfile Hin.
  destruct (init_tiles w Hfile) as (fs0 & Hinit & Htiles & Hother & _).
  exists fs0. split; [done|]. split; [done|].
  unfold main. rewrite (io_bind_inr _ _ _ _ _ Hinit).
  rewrite (io_bind_inr _ _ _ line (set_stdin rest (set_fs fs0 w))) by by apply input_cons.
  cbv zeta. split.
  - intros Hno. destruct (decide (strip line = "0")); [done|].
    rewrite areas_None.
    2: { intros H. apply Hno. apply (elem_of_app ["1"; "2"; "3"; "4"] ["5"]). by left. }
    destruct (decide (strip line = "5")) as [E|]; [|done].
    destruct Hno. rewrite E. by repeat constructor.
  - intros Hyes line' rest' -> Hno'.
    destruct (decide (strip line = "0")) as [E|].
    { rewrite E in Hyes.
      repeat (apply elem_of_cons in Hyes as [Hyes | Hyes]; [discriminate Hyes|]).
      by apply elem_of_nil in Hyes. }
    destruct (areas_is_Some _ Hyes)
      as [[name [[[lat_min lon_min] lat_max] lon_max] [zoom_min zoom_max]] ->].
    cbn [area_bounds area_zoom]. unfold choose_map.
    rewrite (io_bind_inr _ _ _ line' (set_stdin rest' (set_stdin (line' :: rest')
               (set_fs fs0 w)))) by by apply input_cons.
    by rewrite source_types_None.
Qed.

End MainProgram.

(** *** Runs of [main] on an empty disk *)

Lemma clear_for_disk_empty (out : path) : clear_for out disk_empty.
Proof. intros s z x. apply unblocked_disk_empty. Qed.

(** Witness of X16: the first preset area with all three map types, on an empty
    disk. *)
Lemma main_writes_below_tiles_witness :
  let w := World disk_empty provider_up ["1"; "4"] [] in
  let run := main (λ _, None) (λ _, None) (λ _, []) w in
  (∀ p, w_fs run.2 !! p = disk_empty !! p ∨
        (p ≠ [] ∧ ∃ s z x y, p `prefix_of` tile_path ["tiles"] s z x y)) ∧
  w_net run.2 = provider_up.
Proof.
  intros w run.
  destruct (main_writes_below_tiles (λ _, None) (λ _, None) (λ _, []) w) as (_ & H1 & H2).
  - apply clear_for_disk_empty.
  - split; [exact H1 | exact H2].
Defined.

(** Witness of X17: the first preset area with all three map types, the providers
    down. *)
Lemma main_preset_never_crashes_witness :
  let w := World disk_empty provider_down ["1"; "4"] [] in
  (main (λ _, None) (λ _, None) (λ _, []) w).1 = inr () ∨
  (main (λ _, None) (λ _, None) (λ _, []) w).1 = inl EOFError.
Proof.
  intros w. apply main_preset_never_crashes.
  - apply clear_for_disk_empty.
  - intros line rest [= <- <-]. vm_compute. discriminate.
Defined.

(** Witness of X18: the answer 7, with blanks around it. *)
Lemma main_rejected_choice_witness :
  ∃ fs',
    main (λ _, None) (λ _, None) (λ _, []) (World disk_empty provider_up [" 7 "; "1"] [])
    = (inr (), World fs' provider_up ["1"] []) ∧
    fs' !! ["tiles"] = Some Dir.
Proof.
  destruct (main_rejected_choice (λ _, None) (λ _, None) (λ _, [])
              (World disk_empty provider_up [" 7 "; "1"] []) " 7 " ["1"])
    as (fs' & Htiles & _ & H & _).
  - intros c. vm_compute. discriminate.
  - reflexivity.
  - exists fs'. split; [|exact Htiles]. apply H. vm_compute.
    intros H7. repeat (apply elem_of_cons in H7 as [H7 | H7]; [discriminate H7|]).
    by apply elem_of_nil in H7.
Defined.

(** ** The tile pyramid *)

Section Pyramid.
Local Open Scope R_scope.








End Pyramid.

(** ** The console *)

Lemma exec_stdin {X : Type} (who : nat) (a : action X) (w : world) :
  w_stdin (exec who a w).2 = w_stdin w.
Proof.
  destruct a; cbn [exec].
  - by destruct (mkdir_parents _ _).
  - done.
  - by destruct (Qle_bool 0 d).
  - done.
  - by destruct (write_file _ _ _).
Qed.

Lemma run_stdin {A : Type} (who : nat) (p : prog A) (w : world) :
  w_stdin (run who p w).2 = w_stdin w.
Proof.
  revert w. induction p as [a|e|X a k IH]; intros w; [done..|].
  cbn [run]. pose proof (exec_stdin who a w) as Hex.
  destruct (exec who a w) as [[e|v] w']; [done|]. cbn [snd] in Hex. by rewrite IH.
Qed.

Lemma advance_stdin (out : path) (tasks : list task) (st : pool) (i : nat) :
  w_stdin (p_world (advance out tasks st i)) = w_stdin (p_world st).
Proof.
  unfold advance. destruct (p_futures st !! i) as [[|p|r]|]; [|  |done..].
  - by destruct (tasks !! i).
  - destruct p as [a|e|X a k]; [done..|].
    pose proof (exec_stdin i a (p_world st)) as Hex.
    by destruct (exec i a (p_world st)) as [[e|v] w'].
Qed.

Lemma finish_one_stdin (out : path) (tasks : list task) (st : pool) (i : nat) :
  w_stdin (p_world (finish_one out tasks st i)) = w_stdin (p_world st).
Proof.
  unfold finish_one. destruct (p_futures st !! i) as [[|p|r]|]; [| |done..].
  - destruct (tasks !! i) as [t|]; [|done].
    pose proof (run_stdin i (submit out t) (p_world st)) as Hrun.
    by destruct (run i (submit out t) (p_world st)).
  - pose proof (run_stdin i p (p_world st)) as Hrun.
    by destruct (run i p (p_world st)).
Qed.

Lemma run_pool_stdin (out : path) (max_workers : Z) (tasks : list task) (sched : list nat)
    (w : world) :
  w_stdin (p_world (run_pool out max_workers tasks sched w)) = w_stdin w.
Proof.
  unfold run_pool.
  assert (Hsteps : ∀ l st, w_stdin (p_world (foldl (pool_step out max_workers tasks) st l))
                           = w_stdin (p_world st)).
  { induction l as [|i l IH]; intros st; [done|]. cbn [foldl]. rewrite IH.
    unfold pool_step. destruct (runnable _ _ _); [apply advance_stdin | done]. }
  assert (Hfin : ∀ l st, w_stdin (p_world (foldl (finish_one out tasks) st l))
                         = w_stdin (p_world st)).
  { induction l as [|i l IH]; intros st; [done|]. cbn [foldl].
    by rewrite IH, finish_one_stdin. }
  by rewrite Hfin, Hsteps.
Qed.

(** X20. [download_area] reads the console at most once, and only for a
    large job.  Whatever the disk, the providers, the arguments and the
    schedule: a job of at most 1000 tiles, 1000 included, leaves the console
    input untouched, so that it runs unattended; a job of more than 1000
    tiles consumes exactly the one line of the answer, or nothing when the
    console is closed.  The workers never read the console. *)
Theorem download_area_console (out : path) (sched : list nat)
    (lat_min lon_min lat_max lon_max : R) (zoom_min zoom_max : Z)
    (source_type : string) (max_workers : Z) (delay : Q) (w : world) :
  w_stdin (download_area out sched lat_min lon_min lat_max lon_max zoom_min zoom_max
             source_type max_workers delay w).2
  = if 1000 <? (enumerate lat_min lon_min lat_max lon_max zoom_min zoom_max
                  source_type delay).2
    then tail (w_stdin w) else w_stdin w.
Proof.
  unfold download_area.
  destruct (enumerate _ _ _ _ _ _ _ _) as [tasks total_tiles]. cbn [snd].
  assert (Hproceed : ∀ w0,
    w_stdin (if max_workers <=? 0
             then (inl (ValueError "max_workers must be greater than 0"), w0)
             else
               match aggregate (Counters 0 0 0)
                       (results (run_pool out max_workers tasks sched w0)) with
               | inl e => (inl e, p_world (run_pool out max_workers tasks sched w0))
               | inr c => (inr (Some c), p_world (run_pool out max_workers tasks sched w0))
               end).2 = w_stdin w0).
  { intros w0. destruct (max_workers <=? 0); [done|].
    destruct (aggregate _ _); cbn [snd]; apply run_pool_stdin. }
  destruct (1000 <? total_tiles); [|apply Hproceed].
  unfold input. destruct (w_stdin w) as [|response rest] eqn:Hin; [exact Hin|].
  destruct (confirms response); [|done].
  by rewrite Hproceed.
Qed.

(** ** What the loop of [download_area] prints *)

Section Printing.
Context (total_tiles : Z).

(** The printing loop counts as the loop without the printing does. *)
Lemma aggregate_printing_fst (c : counters) (rs : list (exn + result)) :
  (aggregate_printing total_tiles c rs).1 = aggregate c rs.
Proof.
  revert c. induction rs as [|r rs IH]; intros c; [done|].
  cbn [aggregate_printing aggregate]. destruct (count_result c r) as [e|c']; [done|].
  specialize (IH c'). by destruct (aggregate_printing total_tiles c' rs).
Qed.

Lemma aggregate_printing_cons (c c' : counters) (r : exn + result) (rs : list (exn + result)) :
  count_result c r = inr c' →
  (aggregate_printing total_tiles c (r :: rs)).2
  = complaint r ++ report total_tiles c' ++ (aggregate_printing total_tiles c' rs).2.
Proof.
  intros Hc. cbn [aggregate_printing]. rewrite Hc.
  by destruct (aggregate_printing total_tiles c' rs).
Qed.

Lemma report_spec (c : counters) (l : printed) :
  l ∈ report total_tiles c ↔
  l = Progress (counted c) total_tiles c ∧
  (counted c mod 10 = 0 ∨ counted c = total_tiles).
Proof.
  unfold report, counted.
  replace (downloaded c + failed c + skipped c) with (downloaded c + skipped c + failed c)
    by lia.
  destruct (_ mod 10 =? 0) eqn:E1; [apply Z.eqb_eq in E1 | apply Z.eqb_neq in E1];
    (destruct (_ =? total_tiles) eqn:E2; [apply Z.eqb_eq in E2 | apply Z.eqb_neq in E2]);
    cbn [orb]; rewrite ?list_elem_of_singleton, ?elem_of_nil; intuition.
Qed.

Lemma omap_failure_report (c : counters) : omap failure_of (report total_tiles c) = [].
Proof. unfold report. by destruct (_ || _). Qed.

Lemma omap_failure_complaint (r : exn + result) :
  omap failure_of (complaint r) = omap failed_message [r].
Proof. by destruct r as [e|[[] m]]. Qed.

Lemma failures_printed (c c_final : counters) (rs : list (exn + result)) :
  aggregate c rs = inr c_final →
  omap failure_of (aggregate_printing total_tiles c rs).2 = omap failed_message rs.
Proof.
  revert c. induction rs as [|r rs IH]; intros c; [done|]. cbn [aggregate].
  destruct (count_result c r) as [e|c'] eqn:Hc; [done|]. intros Ha.
  rewrite (aggregate_printing_cons c c') by done.
  rewrite !omap_app, omap_failure_report, omap_failure_complaint, (IH c' Ha).
  by rewrite app_nil_l, <- omap_app.
Qed.

Lemma progress_sound (c c_final : counters) (rs : list (exn + result)) (k t : Z)
    (ck : counters) :
  aggregate c rs = inr c_final →
  Progress k t ck ∈ (aggregate_printing total_tiles c rs).2 →
  t = total_tiles ∧ (k mod 10 = 0 ∨ k = total_tiles) ∧
  ∃ n, (0 < n ≤ length rs)%nat ∧ k = counted c + Z.of_nat n ∧
       aggregate c (take n rs) = inr ck.
Proof.
  revert c. induction rs as [|r rs IH]; intros c; [by intros _ ?%elem_of_nil|].
  cbn [aggregate]. destruct (count_result c r) as [e|c'] eqn:Hc; [done|]. intros Ha.
  rewrite (aggregate_printing_cons c c') by done.
  pose proof (count_result_total _ _ _ Hc) as Hone.
  rewrite !elem_of_app. intros [Hin | [Hin | Hin]].
  - destruct r as [e|[[] m]]; cbn in Hin; [by apply elem_of_nil in Hin..|].
    by apply list_elem_of_singleton in Hin.
  - apply report_spec in Hin as [[= -> -> ->] Hk]. split; [done|]. split; [done|].
    exists 1%nat. cbn [length take aggregate]. rewrite Hc. split; [lia|]. split; [lia|done].
  - destruct (IH c' Ha Hin) as (-> & Hk & n & Hn & -> & Htake).
    split; [done|]. split; [done|]. exists (S n). cbn [length take aggregate]. rewrite Hc.
    split; [lia|]. split; [lia|done].
Qed.

Lemma progress_complete (c c_final : counters) (rs : list (exn + result)) (n : nat) :
  aggregate c rs = inr c_final → (0 < n ≤ length rs)%nat →
  ((counted c + Z.of_nat n) mod 10 = 0 ∨ counted c + Z.of_nat n = total_tiles) →
  ∃ ck, Progress (counted c + Z.of_nat n) total_tiles ck
        ∈ (aggregate_printing total_tiles c rs).2.
Proof.
  revert c n. induction rs as [|r rs IH]; intros c n; [cbn; lia|].
  cbn [aggregate length]. destruct (count_result c r) as [e|c'] eqn:Hc; [done|].
  intros Ha Hn Hk. rewrite (aggregate_printing_cons c c') by done.
  pose proof (count_result_total _ _ _ Hc) as Hone.
  destruct n as [|[|n]]; [lia| |].
  - exists c'. rewrite !elem_of_app. right; left. apply report_spec.
    replace (counted c + Z.of_nat 1) with (counted c') in * by lia. done.
  - destruct (IH c' (S n) Ha) as [ck Hin]; [lia | |].
    { by replace (counted c' + Z.of_nat (S n)) with (counted c + Z.of_nat (S (S n))) by lia. }
    exists ck. rewrite !elem_of_app. right; right.
    by replace (counted c + Z.of_nat (S (S n))) with (counted c' + Z.of_nat (S n)) by lia.
Qed.

Lemma last_line (c c_final : counters) (rs : list (exn + result)) :
  aggregate c rs = inr c_final → rs ≠ [] →
  total_tiles = counted c + Z.of_nat (length rs) →
  last (aggregate_printing total_tiles c rs).2
  = Some (Progress total_tiles total_tiles c_final).
Proof.
  revert c. induction rs as [|r rs IH]; intros c; [done|].
  cbn [aggregate length]. destruct (count_result c r) as [e|c'] eqn:Hc; [done|].
  intros Ha _ Htotal. rewrite (aggregate_printing_cons c c') by done.
  pose proof (count_result_total _ _ _ Hc) as Hone.
  destruct rs as [|r' rs].
  - cbn [aggregate] in Ha. injection Ha as ->. cbn [aggregate_printing snd length] in *.
    rewrite app_nil_r.
    assert (report total_tiles c_final = [Progress total_tiles total_tiles c_final]) as ->.
    { unfold report.
      replace (downloaded c_final + failed c_final + skipped c_final) with total_tiles
        by (unfold counted in *; lia).
      by rewrite Z.eqb_refl, orb_true_r. }
    apply last_snoc.
  - rewrite !last_app, (IH c' Ha); [done | done | cbn [length] in *; lia].
Qed.

(** X21. The lines the loop prints.  When the loop over the completed
    futures runs to its end: the failure lines are the messages of the failed
    results, each once and in the order of completion; a progress line is
    printed after the k-th completion exactly when k is a multiple of ten or
    equals the number of tiles, and it shows the counters reached at that
    point; so that, when every tile completes, the last line printed is the
    progress line of the whole job, with the counters of the summary. *)
Theorem progress_is_reported (rs : list (exn + result)) (c_final : counters) :
  aggregate (Counters 0 0 0) rs = inr c_final →
  let lines := (aggregate_printing total_tiles (Counters 0 0 0) rs).2 in
  (aggregate_printing total_tiles (Counters 0 0 0) rs).1 = inr c_final ∧
  omap failure_of lines = omap failed_message rs ∧
  (∀ k t c, Progress k t c ∈ lines →
     t = total_tiles ∧ (k mod 10 = 0 ∨ k = total_tiles) ∧
     0 < k ≤ Z.of_nat (length rs) ∧
     aggregate (Counters 0 0 0) (take (Z.to_nat k) rs) = inr c) ∧
  (∀ k, 0 < k ≤ Z.of_nat (length rs) → k mod 10 = 0 ∨ k = total_tiles →
     ∃ c, Progress k total_tiles c ∈ lines) ∧
  (total_tiles = Z.of_nat (length rs) → rs ≠ [] →
   last lines = Some (Progress total_tiles total_tiles c_final)).
Proof.
  intros Ha lines. subst lines.
  split; [by rewrite aggregate_printing_fst|].
  split; [by eapply failures_printed|]. split; [|split].
  - intros k t c Hin.
    destruct (progress_sound _ _ _ _ _ _ Ha Hin) as (-> & Hk & n & Hn & -> & Htake).
    change (counted (Counters 0 0 0)) with 0 in *. rewrite Z.add_0_l in *.
    split; [done|]. split; [done|]. split; [lia|]. by rewrite Nat2Z.id.
  - intros k Hk Hshow.
    destruct (progress_complete (Counters 0 0 0) c_final rs (Z.to_nat k) Ha) as [c Hin];
      [lia | | ].
    + change (counted (Counters 0 0 0)) with 0. by rewrite Z.add_0_l, Z2Nat.id by lia.
    + exists c. change (counted (Counters 0 0 0)) with 0 in Hin.
      by rewrite Z.add_0_l, Z2Nat.id in Hin by lia.
  - intros Htotal Hne. by apply last_line.
Qed.

End Printing.

(** Witness of X21: a job of two tiles, the first failed, the second downloaded. *)
Lemma progress_is_reported_witness :
  let rs := [inr (false, "Ошибка при загрузке osm/0/0/0: 503"); inr (true, "Загружен: osm/0/0/1")] in
  last (aggregate_printing 2 (Counters 0 0 0) rs).2 = Some (Progress 2 2 (Counters 1 1 0)) ∧
  omap failure_of (aggregate_printing 2 (Counters 0 0 0) rs).2
  = ["Ошибка при загрузке osm/0/0/0: 503"].
Proof.
  intros rs.
  destruct (progress_is_reported 2 rs (Counters 1 1 0)) as (_ & H2 & _ & _ & H5).
  - vm_compute. reflexivity.
  - split; [by apply H5|]. rewrite H2. reflexivity.
Defined.
